(** * Replicon identity resolution: call comparison, consensus, placement

    A shallow embedding of three scripts of the repository,

      - [output/genotyping/replicons/comparison/compare_calls.py],
      - [output/results/v9/no_merge_paralogs/cytoscape/add_replicon_to_gml.py],
      - [assemblies/00_ENA_Submission/scripts/generate_chromosome_lists.py],

    and the properties of their decision logic.

    Conventions.  A Python [str] is a [string] whose characters are the code
    points 0..255; [lower], [strip], [split] and the regular expressions of
    the scripts are written out for that range.  A dict used as a table is a
    [gmap]; a [Counter], whose iteration order decides ties, is an
    association list in insertion order.  A Python [float] is a binary64
    [float] of the kernel.  A call that can raise returns a [result]. *)

From Stdlib Require Import ZArith Floats Uint63 Ascii.
From stdpp Require Import base option gmap strings list pretty sorting.

Local Open Scope Z_scope.

(** ** Exceptions *)

Inductive exn : Type :=
  | NameError (name : string)
  | AttributeError (attr : string)
  | IndexError
  | OverflowError.

Inductive result (A : Type) : Type :=
  | Ok (a : A)
  | Raise (e : exn).
Arguments Ok {A} a.
Arguments Raise {A} e.

Definition rbind {A B} (m : result A) (k : A → result B) : result B :=
  match m with
  | Ok a => k a
  | Raise e => Raise e
  end.

Notation "x ←! m ; k" := (rbind m (λ x, k))
  (at level 20, m at level 100, k at level 200, right associativity,
   only parsing).

Fixpoint rmapM {A B} (f : A → result B) (l : list A) : result (list B) :=
  match l with
  | [] => Ok []
  | a :: l' => b ←! f a; bs ←! rmapM f l'; Ok (b :: bs)
  end.

(** Monadic left fold: a loop that stops at the first exception. *)
Fixpoint rfoldl {A S} (f : S → A → result S) (s : S) (l : list A)
  : result S :=
  match l with
  | [] => Ok s
  | a :: l' => s' ←! f s a; rfoldl f s' l'
  end.

(** ** Python strings on the code points 0..255 *)

Module PyStr.

Definition code (c : ascii) : N := N_of_ascii c.

Definition in_range (lo hi : N) (c : ascii) : bool :=
  ((lo <=? code c) && (code c <=? hi))%N.

(** [str.isspace] on one character: TAB..CR, FS..US, space, NEL, NBSP. *)
Definition isspace (c : ascii) : bool :=
  in_range 9 13 c || in_range 28 32 c
  || (code c =? 133)%N || (code c =? 160)%N.

(** [\d] of [re] on a [str] pattern: below 256 the decimal digits are 0-9. *)
Definition isdigit (c : ascii) : bool := in_range 48 57 c.

(** [[a-z]] of [re]. *)
Definition is_az (c : ascii) : bool := in_range 97 122 c.

(** [str.lower] on one character: A-Z, and the Latin-1 capitals
    U+00C0..U+00DE without the multiplication sign U+00D7. *)
Definition lower_char (c : ascii) : ascii :=
  if in_range 65 90 c || (in_range 192 222 c && negb (code c =? 215)%N)
  then ascii_of_N (code c + 32)
  else c.

(** [str.upper] on one character whose capital is below 256. *)
Definition upper_char (c : ascii) : ascii :=
  if in_range 97 122 c || (in_range 224 254 c && negb (code c =? 247)%N)
  then ascii_of_N (code c - 32)
  else c.

Fixpoint lower (s : string) : string :=
  match s with
  | EmptyString => EmptyString
  | String c s' => String (lower_char c) (lower s')
  end.

Fixpoint lstrip (s : string) : string :=
  match s with
  | EmptyString => EmptyString
  | String c s' => if isspace c then lstrip s' else s
  end.

(** Drop the trailing characters that satisfy [p]. *)
Fixpoint rstrip_with (p : ascii → bool) (s : string) : string :=
  match s with
  | EmptyString => EmptyString
  | String c s' =>
      match rstrip_with p s' with
      | EmptyString => if p c then EmptyString else String c EmptyString
      | r => String c r
      end
  end.

Definition rstrip : string → string := rstrip_with isspace.

(** [s.strip()] *)
Definition strip (s : string) : string := rstrip (lstrip s).

(** [s.capitalize()]: first character upper-cased, the rest lower-cased. *)
Definition capitalize (s : string) : string :=
  match s with
  | EmptyString => EmptyString
  | String c s' => String (upper_char c) (lower s')
  end.

(** [s.startswith(p)] *)
Definition startswith (s p : string) : bool := String.prefix p s.

(** [p in s] for a non-empty [p]. *)
Fixpoint contains (p s : string) : bool :=
  String.prefix p s ||
  match s with
  | EmptyString => false
  | String _ s' => contains p s'
  end.

(** [s.replace(a, b)] for one-character [a] and [b]. *)
Fixpoint replace_char (a b : ascii) (s : string) : string :=
  match s with
  | EmptyString => EmptyString
  | String c s' =>
      String (if bool_decide (c = a) then b else c) (replace_char a b s')
  end.

(** [s.replace(a, "")] for a one-character [a]. *)
Fixpoint remove_char (a : ascii) (s : string) : string :=
  match s with
  | EmptyString => EmptyString
  | String c s' =>
      if bool_decide (c = a) then remove_char a s'
      else String c (remove_char a s')
  end.

(** [s.split(sep)] and [re.split] on a literal, for a non-empty [sep]:
    the separators are found leftmost first and do not overlap.  [skip]
    counts the characters of a separator still to pass over and [cur] is
    the piece being read. *)
Fixpoint split_go (sep : string) (skip : nat) (cur s : string)
  : list string :=
  match s with
  | EmptyString => [cur]
  | String c s' =>
      match skip with
      | S k => split_go sep k cur s'
      | O =>
          if String.prefix sep s
          then cur :: split_go sep (String.length sep - 1) EmptyString s'
          else split_go sep 0 (cur +:+ String c EmptyString) s'
      end
  end.

Definition split (sep s : string) : list string :=
  split_go sep 0 EmptyString s.

(** [s.split(sep)[0]]: the part before the first [sep]. *)
Definition before (sep s : string) : string :=
  match split sep s with
  | p :: _ => p
  | [] => EmptyString
  end.

(** [s.split()]: the maximal runs of non-space characters. *)
Fixpoint words_go (cur : option string) (s : string) : list string :=
  match s with
  | EmptyString => option_list cur
  | String c s' =>
      if isspace c
      then option_list cur ++ words_go None s'
      else words_go
             (Some (from_option (λ w, w +:+ String c EmptyString)
                                (String c EmptyString) cur)) s'
  end.

Definition words : string → list string := words_go None.

(** [s.isspace()] or [s] empty: nothing but white space. *)
Fixpoint all_space (s : string) : bool :=
  match s with
  | EmptyString => true
  | String c s' => isspace c && all_space s'
  end.

(** Every character of [s] satisfies [p]. *)
Fixpoint all_chars (p : ascii → bool) (s : string) : bool :=
  match s with
  | EmptyString => true
  | String c s' => p c && all_chars p s'
  end.

(** Some character of [s] is white space. *)
Fixpoint has_space (s : string) : bool :=
  match s with
  | EmptyString => false
  | String c s' => isspace c || has_space s'
  end.

(** The longest prefix whose characters satisfy [p], and what follows. *)
Fixpoint span (p : ascii → bool) (s : string) : string * string :=
  match s with
  | EmptyString => (EmptyString, EmptyString)
  | String c s' =>
      if p c
      then let '(a, b) := span p s' in (String c a, b)
      else (EmptyString, s)
  end.

(** [span p] ends before [x]: [x] is empty or starts with a character
    that fails [p]. *)
Definition stops (p : ascii → bool) (x : string) : Prop :=
  match x with
  | EmptyString => True
  | String c _ => p c = false
  end.

(** [v.strip()] on a cell of a [csv.DictReader] row: a string, or [None]
    in a row too short to reach the column. *)
Definition strip_cell (v : option string) : result string :=
  match v with
  | Some s => Ok (strip s)
  | None => Raise (AttributeError "strip")
  end.

(** [sep.join(l)] *)
Fixpoint join (sep : string) (l : list string) : string :=
  match l with
  | [] => EmptyString
  | [x] => x
  | x :: l' => x +:+ sep +:+ join sep l'
  end.

End PyStr.

(** ** compare_calls.py *)

Module CompareCalls.
Import PyStr.

(** The words [normalize_call] reads as "no call". *)
Definition empty_words : list string :=
  ["na"; "nan"; "none"; ""; "unclassified"].

(** The four non-empty words that [normalize_call] reads as "no call". *)
Definition sentinel_words : list string :=
  ["na"; "nan"; "none"; "unclassified"].

Definition normalize_call (call : string) : string :=
  if bool_decide (call = "") || bool_decide (lower call ∈ empty_words)
  then ""
  else lower (strip call).

Definition is_empty (call : string) : bool :=
  bool_decide (normalize_call call = "").

(** [{p.strip() for p in re.split(r':::', normalize_call(call)) if p.strip()}] *)
Definition extract_base_plasmid_calls (call : string) : gset string :=
  if is_empty call then ∅
  else
    list_to_set
      (filter (λ p, p ≠ "") (strip <$> split ":::" (normalize_call call))).

(** [re.sub(r'\*+$', '', call.strip())]: after [strip] the string does not
    end in a newline, so [$] is the end of the string. *)
Definition strip_suffix (call : string) : string :=
  rstrip_with (λ c, bool_decide (c = "*"%char)) (strip call).

(** [re.match(r'^((?:cp|lp)\d+)', call)], group 1. *)
Definition match_cp_lp (call : string) : option string :=
  match call with
  | String a (String b rest) =>
      if bool_decide (String a (String b "") ∈ ["cp"; "lp"])
      then
        let '(digits, _) := span isdigit rest in
        if bool_decide (digits = "") then None
        else Some (String a (String b digits))
      else None
  | _ => None
  end.

Definition get_replicon_family (call : string) : option string :=
  let call := normalize_call (strip_suffix call) in
  if bool_decide (call = "") || bool_decide (call = "unclassified")
  then None
  else
    match match_cp_lp call with
    | Some g => Some g
    | None => Some call
    end.

(** *** Name lookup

    A name that a function never assigns is looked up among the module's
    globals and then among the builtins (neither of the two names read
    below is a builtin); what the module binds are the imported modules
    and its own functions. *)
Inductive pyobj : Type :=
  | SetObj (s : gset string)
  | Callable.

Definition module_globals : list string :=
  ["argparse"; "csv"; "re"; "sys"; "Path"; "Counter";
   "normalize_call"; "is_empty"; "extract_base_plasmid_calls";
   "strip_suffix"; "get_replicon_family"; "categorize"; "read_tsv";
   "_load_overrides"; "main"; "_discover_db_dirs";
   "_load_all_hits_for_assembly"; "_grep_contig"; "_write_review"].

Definition load_global (name : string) : result pyobj :=
  if bool_decide (name ∈ module_globals) then Ok Callable
  else Raise (NameError name).

(** Truth value of an object: a set is true when it is not empty. *)
Definition truthy (o : pyobj) : bool :=
  match o with
  | SetObj s => negb (bool_decide (s = ∅))
  | Callable => true
  end.

(** [a.issubset(b)] *)
Definition issubset (a b : pyobj) : result bool :=
  match a, b with
  | SetObj x, SetObj y => Ok (bool_decide (x ⊆ y))
  | _, _ => Raise (AttributeError "issubset")
  end.

(** [a & b], as a truth value. *)
Definition overlaps (a b : pyobj) : result bool :=
  match a, b with
  | SetObj x, SetObj y => Ok (negb (bool_decide (x ∩ y = ∅)))
  | _, _ => Raise (AttributeError "__and__")
  end.

(** [x and x.issubset(y)], the names read left to right. *)
Definition nonempty_subset (x y : string) : result bool :=
  a ←! load_global x;
  if truthy a
  then a' ←! load_global x; b ←! load_global y; issubset a' b
  else Ok false.

Definition categorize (old_call new_call : string)
  : result (string * string) :=
  let old_norm := normalize_call old_call in
  let new_norm := normalize_call new_call in
  if is_empty old_call && is_empty new_call then
    Ok ("exact_match", "")
  else if negb (is_empty old_call) && is_empty new_call then
    Ok ("new_unclassified", strip old_call)
  else if is_empty old_call && negb (is_empty new_call) then
    Ok ("old_unclassified", strip new_call)
  else if bool_decide (old_norm = new_norm) then
    Ok ("exact_match", strip old_call)
  else if bool_decide (strip_suffix old_norm = strip_suffix new_norm) then
    Ok ("annotation_suffix", strip old_call)
  else
    (* the two sets are bound to old_base_calls and new_base_calls,
       which nothing below reads *)
    let old_base_calls := extract_base_plasmid_calls old_call in
    let new_base_calls := extract_base_plasmid_calls new_call in
    c1 ←! nonempty_subset "old_base_plasmid_calls" "new_base_plasmid_calls";
    if c1 then Ok ("extra_annotation", strip old_call) else
    c2 ←! nonempty_subset "new_base_plasmid_calls" "old_base_plasmid_calls";
    if c2 then Ok ("base_match", strip old_call) else
    c3 ←! (a ←! load_global "old_base_plasmid_calls";
           b ←! load_global "new_base_plasmid_calls";
           overlaps a b);
    if c3 then Ok ("partial_overlap", strip old_call) else
    let old_fam := get_replicon_family old_call in
    let new_fam := get_replicon_family new_call in
    if bool_decide (is_Some old_fam) && bool_decide (is_Some new_fam)
       && bool_decide (old_fam = new_fam)
    then Ok ("same_family_tiebreak", strip old_call)
    else Ok ("different", strip old_call).

(** The categories of the five returns before the sets are compared, and
    those of the returns after. *)
Definition early_categories : list string :=
  ["exact_match"; "new_unclassified"; "old_unclassified"; "annotation_suffix"].

Definition late_categories : list string :=
  ["extra_annotation"; "base_match"; "partial_overlap";
   "same_family_tiebreak"; "different"].

(** *** The loop of [main] *)

(** A fragment key: (assembly_id, contig_id). *)
Abbreviation key := (string * string)%type.

Record row : Type := mk_row {
  assembly_id : string;
  contig_id : string;
  contig_len : Z;
  old_call : string;
  new_call : string;
  category : string;
  resolved_call : string;
}.

Section Main.
(** [args.auto_chromosome_bp] and the tables read before the loop. *)
Variable auto_chromosome_bp : Z.
Variables old_calls new_calls : gmap key string.
Variable contig_lengths : gmap key Z.
Variable overrides : gmap key string.

(** Category and resolution before the heuristics and the overrides
    (lines 264-269). *)
Definition first_pass (k : key) : result (string * string) :=
  let old_call := default "" (old_calls !! k) in
  let new_call := default "" (new_calls !! k) in
  if bool_decide (k ∉ dom new_calls) then Ok ("old_only", old_call)
  else if bool_decide (k ∉ dom old_calls) then Ok ("new_only", new_call)
  else categorize old_call new_call.

(** The two chromosome heuristics (lines 274-292), each tested on the
    category the previous step left. *)
Definition auto_chromosome (k : key) (cr : string * string)
  : string * string :=
  let old_call := default "" (old_calls !! k) in
  let new_call := default "" (new_calls !! k) in
  let clen := default 0 (contig_lengths !! k) in
  let '(cat, resolved) := cr in
  let '(cat, resolved) :=
    if bool_decide (0 < auto_chromosome_bp)
       && bool_decide (cat = "different")
       && bool_decide (normalize_call new_call = "chromosome")
       && bool_decide (auto_chromosome_bp ≤ clen)
    then ("auto_chromosome", strip new_call)
    else (cat, resolved) in
  if bool_decide (0 < auto_chromosome_bp)
     && bool_decide (cat = "different")
     && bool_decide (normalize_call old_call = "chromosome")
     && negb (is_empty new_call)
     && bool_decide (normalize_call new_call ≠ "chromosome")
     && bool_decide (clen < auto_chromosome_bp)
  then ("auto_chromosome", strip new_call)
  else (cat, resolved).

(** Manual overrides (lines 295-299). *)
Definition apply_override (k : key) (cr : string * string)
  : string * string :=
  let '(cat, resolved) := cr in
  match overrides !! k with
  | Some v =>
      (if bool_decide (cat ∈ ["exact_match"]) then cat
       else "manual_override", v)
  | None => (cat, resolved)
  end.

(** One turn of the loop: the row appended for [k]. *)
Definition process_key (k : key) : result row :=
  cr ←! first_pass k;
  let '(cat, resolved) := apply_override k (auto_chromosome k cr) in
  Ok {| assembly_id := k.1; contig_id := k.2;
        contig_len := default 0 (contig_lengths !! k);
        old_call := default "" (old_calls !! k);
        new_call := default "" (new_calls !! k);
        category := cat; resolved_call := resolved |}.

(** Keys compare as tuples of strings. *)
Definition key_leb (a b : key) : bool :=
if bool_decide (a.1 = b.1) then bool_decide (String.le a.2 b.2)
else bool_decide (String.le a.1 b.1).

Definition key_le (a b : key) : Prop := key_leb a b.

Global Instance key_le_dec : RelDecision key_le.
Proof. intros a b. unfold key_le. apply _. Defined.

(** [sorted(set(old_calls.keys()) | set(new_calls.keys()))] *)
Definition all_keys : list key :=
  merge_sort key_le (elements (dom old_calls ∪ dom new_calls)).

(** The rows of the comparison table; an exception in one turn ends the
    run before anything is written. *)
Definition main_rows : result (list row) := rmapM process_key all_keys.
End Main.

(** Lines 356-357: the rows listed for manual review. *)
Definition needs_review (rows : list row) : list row :=
  filter (λ r, category r ∈ ["different"; "partial_overlap";
                              "new_unclassified"]) rows.

(** The categories that rows of a finished run carry. *)
Definition run_categories : list string :=
  ["old_only"; "new_only"; "exact_match"; "new_unclassified";
   "old_unclassified"; "annotation_suffix"; "manual_override"].

End CompareCalls.

(** ** Lists and counters *)

Module PyList.

(** [l.sort(key=f, reverse=True)]: the stable sort by descending key; an
    element goes behind those of greater or equal key already placed. *)
Fixpoint insert_desc {A} (f : A → Z) (x : A) (l : list A) : list A :=
  match l with
  | [] => [x]
  | y :: l' =>
      if bool_decide (f y < f x) then x :: l else y :: insert_desc f x l'
  end.

Definition sort_desc {A} (f : A → Z) (l : list A) : list A :=
  foldl (λ acc x, insert_desc f x acc) [] l.

(** [Counter]: the counts, in the order the keys were first met. *)
Fixpoint counter_add (x : string) (c : list (string * N))
  : list (string * N) :=
  match c with
  | [] => [(x, 1%N)]
  | (y, n) :: c' =>
      if bool_decide (x = y) then (y, (n + 1)%N) :: c'
      else (y, n) :: counter_add x c'
  end.

Definition Counter (l : list string) : list (string * N) :=
  foldl (λ c x, counter_add x c) [] l.

(** [c[x]]: the count of [x], 0 for a key not met. *)
Fixpoint counter_get (x : string) (c : list (string * N)) : N :=
  match c with
  | [] => 0%N
  | (y, n) :: c' => if bool_decide (x = y) then n else counter_get x c'
  end.

(** [sum(c.values())] *)
Definition counter_total (c : list (string * N)) : N :=
  foldr (λ p acc, (p.2 + acc)%N) 0%N c.

(** The number of occurrences of [x] in [l]. *)
Definition count (x : string) (l : list string) : N :=
  N.of_nat (length (filter (λ y, y = x) l)).

(** The distinct elements of [l], each where it is first met. *)
Fixpoint first_seen (l : list string) : list string :=
  match l with
  | [] => []
  | x :: l' => x :: filter (λ y, y ≠ x) (first_seen l')
  end.

(** [max(items, key=itemgetter(1))]: the first item of greatest count. *)
Fixpoint first_max (best : string * N) (c : list (string * N))
  : string * N :=
  match c with
  | [] => best
  | x :: c' =>
      if bool_decide (best.2 < x.2)%N then first_max x c'
      else first_max best c'
  end.

(** [c.most_common(1)]: [heapq.nlargest(1, ...)], which is [max]. *)
Definition most_common_1 (c : list (string * N)) : list (string * N) :=
  match c with
  | [] => []
  | x :: c' => [first_max x c']
  end.

(** [c.most_common()]: [sorted(items, key=itemgetter(1), reverse=True)]. *)
Definition most_common (c : list (string * N)) : list (string * N) :=
  sort_desc (λ x, Z.of_N x.2) c.

(** [l[0]] *)
Definition item0 {A} (l : list A) : result A :=
  match l with
  | x :: _ => Ok x
  | [] => Raise IndexError
  end.

(** [l[i]] for an index that is not negative. *)
Definition item {A} (i : nat) (l : list A) : result A :=
  match l !! i with
  | Some x => Ok x
  | None => Raise IndexError
  end.

End PyList.

(** ** Binary64 *)

Module PyFloat.

(** [float(n)] for a count; exact below 2^53. *)
Definition of_N (n : N) : float :=
  PrimFloat.of_uint63 (Uint63.of_Z (Z.of_N n)).

(** [a / b] on two counts below 2^53, [b] not zero: the quotient rounded
    once. *)
Definition truediv (a b : N) : float := PrimFloat.div (of_N a) (of_N b).

(** [x >= y] *)
Definition ge (x y : float) : bool := PrimFloat.leb y x.

(** The integer nearest to [num / den] for [0 < den], ties to even. *)
Definition round_half_even (num den : Z) : Z :=
  let q := num `div` den in
  let r := num `mod` den in
  if bool_decide (2 * r < den) then q
  else if bool_decide (den < 2 * r) then q + 1
  else if Z.even q then q else q + 1.

(** [round(x, 3)]: the decimal with three places nearest to the exact value
    of [x], ties to even, read back as the nearest binary64.  Written for
    [|x| < 2^53 / 1000], where the thousandths fit a binary64 exactly; an
    integral [x], a zero, an infinity and a NaN round to themselves. *)
Definition round3 (x : float) : float :=
  match Prim2SF x with
  | S754_finite s m e =>
      if bool_decide (0 ≤ e) then x
      else
        let k := round_half_even (Z.pos m * 1000) (2 ^ (- e)) in
        let r := PrimFloat.div (PrimFloat.of_uint63 (Uint63.of_Z k))
                               (PrimFloat.of_uint63 1000) in
        if s then PrimFloat.opp r else r
  | _ => x
  end.

(** [int(x)]: truncation; [ValueError] on a NaN is [None] here, and
    [OverflowError] on an infinity is raised. *)
Definition to_int (x : float) : result (option Z) :=
  match Prim2SF x with
  | S754_zero _ => Ok (Some 0)
  | S754_finite s m e =>
      let a := if bool_decide (0 ≤ e) then Z.pos m * 2 ^ e
               else Z.pos m `div` 2 ^ (- e) in
      Ok (Some (if s then - a else a))
  | S754_infinity _ => Raise OverflowError
  | S754_nan => Ok None
  end.

End PyFloat.

(** ** add_replicon_to_gml.py *)

Module AddReplicon.
Import PyStr PyList.

Record consensus : Type := mk_consensus {
  consensus_replicon : string;
  top_replicon : string;
  consensus_fraction : float;
  n_isolates : N;
  all_replicons : string;
}.

(** [f"{rep}({cnt})"] *)
Definition detail (x : string * N) : string :=
  x.1 +:+ "(" +:+ pretty x.2 +:+ ")".

Definition assign_consensus_replicon (replicon_list : list string)
    (threshold : float) : result consensus :=
  let counts := Counter replicon_list in
  let total := N.of_nat (length replicon_list) in
  if bool_decide (total = 0%N) then
    Ok {| consensus_replicon := "unknown"; top_replicon := "unknown";
          consensus_fraction := 0%float; n_isolates := 0;
          all_replicons := "unknown" |}
  else
    top ←! item0 (most_common_1 counts);
    let '(top_replicon, top_count) := top in
    let fraction := PyFloat.truediv top_count total in
    let consensus :=
      if PyFloat.ge fraction threshold then top_replicon
      else "multi-replicon" in
    Ok {| consensus_replicon := consensus; top_replicon := top_replicon;
          consensus_fraction := PyFloat.round3 fraction;
          n_isolates := total;
          all_replicons := join "," (detail <$> most_common counts) |}.

(** [re.match(r'^([a-z]+\d+)', s)], group 1: the letters are taken greedily
    and a digit has to follow them. *)
Definition match_az_digits (s : string) : option string :=
  let '(letters, rest) := span is_az s in
  let '(digits, _) := span isdigit rest in
  if bool_decide (letters = "") || bool_decide (digits = "") then None
  else Some (letters +:+ digits).

Definition classify_replicon_family (replicon : string) : string :=
  if bool_decide
       (replicon ∈ ["unknown"; "unmatched"; "multi-replicon";
                    "unknownreplicon"])
  then replicon
  else if bool_decide (replicon = "chromosome") then "chromosome"
  else
    let fused :=
      if contains "+" replicon || contains "-cp" replicon
         || contains "-lp" replicon
      then match_az_digits (before "-lp" (before "-cp" (before "+" replicon)))
      else None in
    match fused with
    | Some g => g
    | None =>
        match match_az_digits replicon with
        | Some g => g
        | None => replicon
        end
    end.

(** [re.match(r'^[a-z]{2}\d{6}\.\d+$', s)]: two letters, a run of exactly
    six digits, a dot, and digits up to the end of the string or up to a
    newline that ends it. *)
Definition is_accession (s : string) : bool :=
  match s with
  | String a (String b rest) =>
      is_az a && is_az b
      && let '(six, rest') := span isdigit rest in
         bool_decide (String.length six = 6%nat)
         && match rest' with
            | String dot version =>
                bool_decide (dot = "."%char)
                && let '(digits, tail) := span isdigit version in
                   negb (bool_decide (digits = ""))
                   && bool_decide (tail ∈ [""; String "010"%char ""])
            | EmptyString => false
            end
  | _ => false
  end.

Definition parse_replicon_from_scaffold (scaffold_name : string)
    (accession_lookup : gmap string string) : string :=
  let parts := split "_" scaffold_name in
  let replicon :=
    match list_find (λ p, lower p = "contig") parts with
    | Some (contig_idx, _) =>
        if bool_decide (1 < contig_idx)%nat
        then Some (lower (join "_" (take (contig_idx - 1) (drop 1 parts))))
        else None
    | None =>
        if bool_decide (1 < length parts)%nat
        then Some (lower (join "_" (drop 1 parts)))
        else None
    end in
  match replicon with
  | None => "unknown"
  | Some replicon =>
      if is_accession replicon
      then default replicon (accession_lookup !! replicon)
      else replicon
  end.

Definition classify_replicon_type (replicon : string) : string :=
  if bool_decide (replicon = "multi-replicon") then "multi-replicon"
  else if bool_decide (replicon = "chromosome") then "chromosome"
  else if startswith replicon "cp" then "circular_plasmid"
  else if startswith replicon "lp" then "linear_plasmid"
  else if bool_decide (replicon ∈ ["unknown"; "unmatched"]) then replicon
  else "other".

(** *** The pie chart of a node *)

Definition color_map : gmap string string :=
  list_to_map
    [("chromosome", "#bceddb"); ("cp26", "#d60000");
     ("cp32-1", "#ff28fd"); ("cp32-2", "#f2cdff"); ("cp32-3", "#d3008c");
     ("cp32-4", "#c86e66"); ("cp32-5", "#ff6200"); ("cp32-6", "#93ac83");
     ("cp32-7", "#ff8ec8"); ("cp32-8", "#b8ba01"); ("cp32-9", "#afa5ff");
     ("cp32-10", "#953f1f"); ("cp32-11", "#9a6900"); ("cp32-12", "#9ee2ff");
     ("cp32-13", "#a0e491"); ("cp32-1+5", "#fdf490");
     ("cp32-3+10", "#72b8ff"); ("cp32-9-4", "#bc9157");
     ("cp9", "#56642a"); ("cp9-3", "#ae083f"); ("lp54", "#018700");
     ("lp28-1", "#366962"); ("lp28-2", "#f4bfb1"); ("lp28-3", "#97ff00");
     ("lp28-4", "#79525e"); ("lp28-5", "#009e7c"); ("lp28-6", "#a877ac");
     ("lp28-7", "#90318e"); ("lp28-8", "#ff3464"); ("lp28-9", "#e48eff");
     ("lp28-11", "#c6a5c1"); ("lp17", "#b500ff"); ("lp25", "#ffa52f");
     ("lp36", "#05acc6"); ("lp38", "#00fdcf"); ("lp56", "#00c846");
     ("lp5", "#8c9ab1"); ("lp21", "#829026"); ("lp21-cp9", "#77c6ba");
     ("lp32-3", "#ff9070"); ("unknown", "#d3c37c");
     ("unmatched", "#FDFEFE"); ("unknownreplicon", "#d3c37c")].

(** [color_map.get(replicon, "#d3c37c")] *)
Definition get_replicon_color (replicon : string) : string :=
  default "#d3c37c" (color_map !! replicon).

(** One turn of the loop over the parts of the detail string: the
    replicon, its count and its colour, for a part that holds both
    brackets. *)
Definition pie_part (part : string)
  : result (option (string * string * string)) :=
  if contains "(" part && contains ")" part then
    a ←! item 0 (split "(" part);
    let replicon := strip a in
    b ←! item 1 (split "(" part);
    let count := strip (remove_char ")" b) in
    Ok (Some (replicon, count, get_replicon_color replicon))
  else Ok None.

(** The double quote. *)
Definition dq : string := String "034"%char "".

Definition pie_str (replicons colors values : list string) : string :=
  "piechart: attributelist=" +:+ dq +:+ join "," replicons +:+ dq
  +:+ " colorlist=" +:+ dq +:+ join "," colors +:+ dq
  +:+ " valuelist=" +:+ dq +:+ join "," values +:+ dq
  +:+ " showlabels=" +:+ dq +:+ "false" +:+ dq.

Definition generate_pie_chart_string (replicon_detail : string)
  : result string :=
  if bool_decide (replicon_detail = "")
     || bool_decide (replicon_detail = "unknown")
  then Ok ""
  else
    entries ←! rmapM pie_part (split "," replicon_detail);
    let entries := omap (λ e, e) entries in
    let replicons := (λ e, e.1.1) <$> entries in
    let values := (λ e, e.1.2) <$> entries in
    let colors := (λ e, e.2) <$> entries in
    if bool_decide (replicons = []) then Ok ""
    else Ok (pie_str replicons colors values).

(** *** Family diversity

    [math.log2] is a function of the C library that the binary64 of the
    kernel does not have, and [sum] over floats adds from 0, left to right,
    up to Python 3.11 and compensates the rounding errors from Python 3.12:
    both are parameters of the functions that call them.  The counts stay
    below 2^53 and the quotients are positive. *)

Record diversity : Type := mk_diversity {
  families : list string;
  family_counts : list (string * N);
  n_families : N;
  top_family : string;
  top_family_count : N;
  family_consensus_frac : float;
  is_single_family : bool;
  cross_family_score : float;
}.

Section Diversity.
Variable log2 : float → float.
Variable float_sum : list float → float.

(** [-sum((c/total) * math.log2(c/total) for c in family_counts.values() if c > 0)] *)
Definition entropy (family_counts : list (string * N)) (total : N) : float :=
  PrimFloat.opp
    (float_sum
       ((λ c, PrimFloat.mul (PyFloat.truediv c total)
                            (log2 (PyFloat.truediv c total)))
          <$> filter (λ c, 0 < c)%N (snd <$> family_counts))).

Definition analyze_family_diversity (replicon_list : list string)
  : result diversity :=
  match replicon_list with
  | [] =>
      Ok {| families := []; family_counts := []; n_families := 0;
            top_family := "unknown"; top_family_count := 0;
            family_consensus_frac := 0; is_single_family := true;
            cross_family_score := 0 |}
  | _ =>
      let fams := classify_replicon_family <$> replicon_list in
      let counts := Counter fams in
      let n := N.of_nat (length counts) in
      let total := N.of_nat (length fams) in
      top ←! item0 (most_common_1 counts);
      let '(top_family, top_count) := top in
      let frac :=
        if bool_decide (0 < total)%N then PyFloat.truediv top_count total
        else 0%float in
      let score :=
        if bool_decide (n ≤ 1)%N then 0%float
        else
          let e := entropy counts total in
          let max_entropy :=
            if bool_decide (1 < n)%N then log2 (PyFloat.of_N n)
            else 1%float in
          if PrimFloat.ltb 0 max_entropy then PrimFloat.div e max_entropy
          else 0%float in
      Ok {| families := fst <$> counts; family_counts := counts;
            n_families := n; top_family := top_family;
            top_family_count := top_count;
            family_consensus_frac := PyFloat.round3 frac;
            is_single_family := bool_decide (n = 1%N);
            cross_family_score := PyFloat.round3 score |}
  end.
End Diversity.

End AddReplicon.

(** ** generate_chromosome_lists.py *)

Module ChromosomeLists.
Import PyStr PyList.

(** A numeric column of one table row, as [float()] reads it: the column is
    missing from the table ([row.get] gives its default), or the cell holds
    something [float()] rejects with [ValueError] or [TypeError] ([NaF]: a
    text that is no number, or the [None] of a short row), or the cell
    holds the text of a binary64. *)
Inductive cell : Type :=
  | Missing
  | NaF
  | Num (x : float).

(** A row of the classifier table as [csv.DictReader] yields it.  A text
    cell holds what [row.get(column, "")] gives: the text, the empty
    string when the header lacks the column, and [None] in a row too short
    to reach the column.  [plasmid_name] is the column [args.call_col]. *)
Record row : Type := mk_row {
  assembly_id : option string;
  contig_id : option string;
  plasmid_name : option string;
  contig_len : cell;
  ref_covered_length : cell;
  ref_length : cell;
  query_coverage_percent : cell;
  overall_percent_identity : cell;
}.

Definition tab : string := String "009"%char "".

(** [contig_id.strip().split()[0]] *)
Definition parse_contig_name (contig_id : string) : result string :=
  item0 (words (strip contig_id)).

Definition infer_topology (plasmid_name : string) : string :=
  let n := strip (lower plasmid_name) in
  if startswith n "cp" then "circular"
  else if startswith n "lp" || bool_decide (n = "chromosome") then "linear"
  else "linear".

Definition sanitize_replicon_name (name : string) : string :=
  let name := replace_char "+" "-" name in
  if bool_decide (lower name = "chromosome") then "main" else name.

Definition infer_chromosome_type (plasmid_name : string) : string :=
  if bool_decide (strip (lower plasmid_name) = "chromosome")
  then "Chromosome"
  else "Plasmid".

Definition format_topology (topology chrom_type : string) : string :=
  capitalize topology +:+ "-" +:+ chrom_type.

(** [float(v)] inside a [try]: [None] stands for the [except] branch;
    [dflt] is what [row.get] gives for a missing column. *)
Definition try_float (dflt : option float) (c : cell) : option float :=
  match c with
  | Missing => dflt
  | NaF => None
  | Num x => Some x
  end.

Definition compute_ref_coverage (ref_covered_length ref_length : cell)
  : option float :=
  rcl ← try_float None ref_covered_length;
  rl ← try_float None ref_length;
  if PrimFloat.leb rl 0 then None else Some (PrimFloat.div rcl rl).

Definition passes_completeness (r : row)
    (ref_cov_thresh query_cov_thresh identity_thresh : float) : bool :=
  let ref_cov := compute_ref_coverage (ref_covered_length r) (ref_length r) in
  let q_cov :=
    match try_float (Some 0%float) (query_coverage_percent r) with
    | Some x => PrimFloat.div x 100
    | None => 0%float
    end in
  let ident :=
    match try_float (Some 0%float) (overall_percent_identity r) with
    | Some x => PrimFloat.div x 100
    | None => 0%float
    end in
  match ref_cov with
  | None => false
  | Some ref_cov =>
      PyFloat.ge ref_cov ref_cov_thresh
      && PyFloat.ge q_cov query_cov_thresh
      && PyFloat.ge ident identity_thresh
  end.

(** [int(float(row.get("contig_len", 0)))] with [ValueError] and
    [TypeError] caught; the [OverflowError] of an infinity is not. *)
Definition contig_length (c : cell) : result Z :=
  match try_float (Some 0%float) c with
  | None => Ok 0
  | Some x => n ←! PyFloat.to_int x; Ok (default 0 n)
  end.

(** The column reads as an infinity, of which [int()] raises
    [OverflowError]. *)
Definition is_infinite (c : cell) : bool :=
  match c with
  | Num x => PrimFloat.is_infinity x
  | _ => false
  end.

(** The length a row is ranked by, 0 where [contig_length] raises. *)
Definition length_of (r : row) : Z :=
  match contig_length (contig_len r) with
  | Ok n => n
  | Raise _ => 0
  end.

(** What the loop over one assembly leaves: the two lists of lines and what
    it adds to the three totals. *)
Record lists : Type := mk_lists {
  chrom_lines : list string;
  unloc_lines : list string;
  placed : N;
  unlocalised : N;
  unplaced : N;
}.

Definition chrom_line (object_name ena_name topo_type : string) : string :=
  object_name +:+ tab +:+ ena_name +:+ tab +:+ topo_type.

Definition unloc_line (object_name ena_name : string) : string :=
  object_name +:+ tab +:+ ena_name.

(** *** The entry of one row

    Both modes write the same three fields for a row they place: the first
    word of the contig id, the sanitized call, and the topology and type of
    the call. *)

(** The text of a cell, empty for the [None] of a short row. *)
Definition text (c : option string) : string := default "" c.

Definition replicon_of (r : row) : string := strip (text (plasmid_name r)).

Definition object_name (r : row) : string :=
  default "" (head (words (strip (strip (text (contig_id r)))))).

Definition topo_type (replicon : string) : string :=
  format_topology (infer_topology replicon) (infer_chromosome_type replicon).

Definition placement_line (r : row) : string :=
  chrom_line (object_name r) (sanitize_replicon_name (replicon_of r))
             (topo_type (replicon_of r)).

Definition fragment_line (r : row) : string :=
  unloc_line (object_name r) (sanitize_replicon_name (replicon_of r)).

(** The row has a call that is not "unclassified" (line 187). *)
Definition is_classified (r : row) : bool :=
  negb (bool_decide (replicon_of r = "")
        || bool_decide (lower (replicon_of r) = "unclassified")).

(** A numeric column read with the default 0 and 0.0 for what [float()]
    rejects. *)
Definition stat_or_zero (c : cell) : float :=
  match c with
  | Num x => x
  | _ => 0%float
  end.

(** The row has a contig id and a call (line 227). *)
Definition has_names (r : row) : bool :=
  negb (bool_decide (strip (text (contig_id r)) = ""))
  && negb (bool_decide (strip (text (plasmid_name r)) = "")).

(** *** Classified mode *)

(** Lines 185-194: the calls of the classified rows, each with its rows
    and their lengths in table order, and the number of rows left out. *)
Fixpoint group_by_replicon (contigs : list row)
    (by_replicon : gmap string (list (Z * row))) (n_unplaced : N)
  : result (gmap string (list (Z * row)) * N) :=
  match contigs with
  | [] => Ok (by_replicon, n_unplaced)
  | r :: rest =>
      call ←! strip_cell (plasmid_name r);
      if bool_decide (call = "") || bool_decide (lower call = "unclassified")
      then group_by_replicon rest by_replicon (n_unplaced + 1)%N
      else
        clen ←! contig_length (contig_len r);
        group_by_replicon rest
          (<[call := default [] (by_replicon !! call) ++ [(clen, r)]]>
             by_replicon)
          n_unplaced
  end.

(** Lines 202-220 for one call: the line of the primary and the lines of
    the other rows. *)
Definition place_group (replicon : string) (contig_list : list (Z * row))
  : result (list string * list string) :=
  let ena_name := sanitize_replicon_name replicon in
  lines ←! rmapM
    (λ cr : Z * row,
       contig_id ←! strip_cell (contig_id cr.2);
       object_name ←! parse_contig_name contig_id;
       let topo_type :=
         format_topology (infer_topology replicon)
                         (infer_chromosome_type replicon) in
       Ok (chrom_line object_name ena_name topo_type,
           unloc_line object_name ena_name))
    (sort_desc fst contig_list);
  Ok (fst <$> take 1 lines, snd <$> drop 1 lines).

Definition item_le (a b : string * list (Z * row)) : Prop :=
  String.le a.1 b.1.

Global Instance item_le_dec : RelDecision item_le.
Proof. intros a b. unfold item_le. apply _. Defined.

Definition classified (contigs : list row) : result lists :=
  g ←! group_by_replicon contigs ∅ 0%N;
  let '(by_replicon, n_unplaced) := g in
  (* sorted(by_replicon.items()): the keys differ, so they decide *)
  per_group ←! rmapM (λ it : string * list (Z * row), place_group it.1 it.2)
                     (merge_sort item_le (map_to_list by_replicon));
  let chrom := concat (fst <$> per_group) in
  let unloc := concat (snd <$> per_group) in
  Ok {| chrom_lines := chrom; unloc_lines := unloc;
        placed := N.of_nat (length chrom);
        unlocalised := N.of_nat (length unloc);
        unplaced := n_unplaced |}.

(** The primary of a group, the first of its rows by descending length,
    and the other rows (lines 198, 209 and 215). *)
Definition primary_of (contig_list : list (Z * row)) : list row :=
  snd <$> take 1 (sort_desc fst contig_list).

Definition fragments_of (contig_list : list (Z * row)) : list row :=
  snd <$> drop 1 (sort_desc fst contig_list).

(** What holds of every group the first loop builds: it is not empty, its
    rows carry the call of the group, their length, and a contig id. *)
Definition group_ok (replicon : string) (contig_list : list (Z * row))
  : Prop :=
  contig_list ≠ []
  ∧ ∀ cr, cr ∈ contig_list →
      replicon_of cr.2 = replicon ∧ cr.1 = length_of cr.2
      ∧ ∃ c, contig_id cr.2 = Some c ∧ strip c ≠ "".

(** The rows the loop can work through: no call cell is the [None] of a
    short row, and every classified row has a contig id and a length that
    is not infinite. *)
Definition well_formed (contigs : list row) : Prop :=
  ∀ r, r ∈ contigs →
    is_Some (plasmid_name r)
    ∧ (is_classified r →
       (∃ c, contig_id r = Some c ∧ strip c ≠ "")
       ∧ is_infinite (contig_len r) = false).

(** *** Complete mode *)

Fixpoint complete_go (ref_cov query_cov identity : float)
    (contigs : list row) (acc : lists) : result lists :=
  match contigs with
  | [] => Ok acc
  | r :: rest =>
      contig_id ←! strip_cell (contig_id r);
      plasmid_name ←! strip_cell (plasmid_name r);
      if bool_decide (contig_id = "") || bool_decide (plasmid_name = "")
      then complete_go ref_cov query_cov identity rest acc
      else if passes_completeness r ref_cov query_cov identity then
        object_name ←! parse_contig_name contig_id;
        let topo_type :=
          format_topology (infer_topology plasmid_name)
                          (infer_chromosome_type plasmid_name) in
        let ena_name := sanitize_replicon_name plasmid_name in
        complete_go ref_cov query_cov identity rest
          {| chrom_lines :=
               chrom_lines acc ++ [chrom_line object_name ena_name topo_type];
             unloc_lines := unloc_lines acc;
             placed := (placed acc + 1)%N;
             unlocalised := unlocalised acc;
             unplaced := unplaced acc |}
      else
        complete_go ref_cov query_cov identity rest
          {| chrom_lines := chrom_lines acc;
             unloc_lines := unloc_lines acc;
             placed := placed acc;
             unlocalised := unlocalised acc;
             unplaced := (unplaced acc + 1)%N |}
  end.

Definition complete (ref_cov query_cov identity : float)
    (contigs : list row) : result lists :=
  complete_go ref_cov query_cov identity contigs
    {| chrom_lines := []; unloc_lines := []; placed := 0; unlocalised := 0;
       unplaced := 0 |}.

(** The rows complete mode can work through: no contig id cell and no call
    cell is the [None] of a short row. *)
Definition names_present (contigs : list row) : Prop :=
  ∀ r, r ∈ contigs → is_Some (contig_id r) ∧ is_Some (plasmid_name r).

(** *** The loop over the assemblies *)

(** Lines 162-166: the rows of each assembly in table order; a row whose
    assembly id is blank belongs to none. *)
Definition assembly_step (assemblies : gmap string (list row)) (r : row)
  : result (gmap string (list row)) :=
  aid ←! strip_cell (assembly_id r);
  if bool_decide (aid = "") then Ok assemblies
  else Ok (<[aid := default [] (assemblies !! aid) ++ [r]]> assemblies).

Definition by_assembly (rows : list row)
  : result (gmap string (list row)) :=
  rfoldl assembly_step ∅ rows.

(** The assembly id of a row, trimmed; empty for the [None] of a short
    row, on which [by_assembly] raises. *)
Definition aid_of (r : row) : string := strip (text (assembly_id r)).

(** What a run that finishes leaves: the files written (none in a dry
    run), the three totals and the assemblies without entries. *)
Record summary : Type := mk_summary {
  chrom_files : list (string * list string);
  unloc_files : list (string * list string);
  total_placed : N;
  total_unlocalised : N;
  total_unplaced : N;
  assemblies_without_entries : list string;
}.

(** Lines 177-272, [mode] being the branch of one assembly: the
    assemblies are gone through in the ascending order of their ids; one
    with an empty chromosome list is noted and gets no file, and an
    unlocalised list is written only when it is not empty. *)
Definition run (dry_run : bool) (mode : list row → result lists)
    (rows : list row) : result summary :=
  assemblies ←! by_assembly rows;
  per ←! rmapM (λ assembly_id,
                  res ←! mode (default [] (assemblies !! assembly_id));
                  Ok (assembly_id, res))
               (merge_sort String.le (elements (dom assemblies)));
  let with_entries :=
    filter (λ p : string * lists, chrom_lines p.2 ≠ []) per in
  Ok {| chrom_files :=
          if dry_run then []
          else (λ p, (p.1, chrom_lines p.2)) <$> with_entries;
        unloc_files :=
          if dry_run then []
          else (λ p, (p.1, unloc_lines p.2))
                 <$> filter (λ p : string * lists, unloc_lines p.2 ≠ [])
                            with_entries;
        total_placed := foldl (λ n p, n + placed p.2)%N 0%N per;
        total_unlocalised := foldl (λ n p, n + unlocalised p.2)%N 0%N per;
        total_unplaced := foldl (λ n p, n + unplaced p.2)%N 0%N per;
        assemblies_without_entries :=
          fst <$> filter (λ p : string * lists, chrom_lines p.2 = []) per |}.

End ChromosomeLists.

(** ** The tables of calls and overrides *)

Module CallTables.
Import PyStr CompareCalls.

(** A row that [csv.DictReader] yields to [read_tsv], whose header holds
    the columns read: a text cell is [None] in a row too short to reach
    its column.  [r_len] is what [float()] makes of the length cell, [None]
    where it raises [ValueError] or [TypeError]. *)
Record call_row : Type := mk_call_row {
  r_contig : option string;
  r_call : option string;
  r_assembly : option string;
  r_len : option float;
}.

(** The body of the loop of [read_tsv] (lines 160-170). *)
Definition read_tsv_row (has_assembly has_len : bool)
    (tables : gmap key string * gmap key Z) (r : call_row)
  : result (gmap key string * gmap key Z) :=
  let '(records, lengths) := tables in
  contig ←! strip_cell (r_contig r);
  let call :=
    match r_call r with
    | Some v => if bool_decide (v = "") then "" else strip v
    | None => ""
    end in
  assembly ←! (if has_assembly then strip_cell (r_assembly r) else Ok "");
  let k := (assembly, contig) in
  let records := <[k := call]> records in
  if has_len then
    n ←! match r_len r with
         | Some x => n ←! PyFloat.to_int x; Ok (default 0 n)
         | None => Ok 0
         end;
    Ok (records, <[k := n]> lengths)
  else Ok (records, lengths).

Definition read_tsv (has_assembly has_len : bool) (rows : list call_row)
  : result (gmap key string * gmap key Z) :=
  rfoldl (read_tsv_row has_assembly has_len) (∅, ∅) rows.

(** A row of the override file: each field is what
    [row.get(column, "")] gives, the empty string for a column the header
    lacks and [None] in a row too short to reach it. *)
Record override_row : Type := mk_override_row {
  o_assembly : option string;
  o_contig : option string;
  o_call : option string;
}.

(** The body of the loop of [_load_overrides] (lines 184-189). *)
Definition load_overrides_row (overrides : gmap key string)
    (r : override_row) : result (gmap key string) :=
  assembly ←! strip_cell (o_assembly r);
  contig ←! strip_cell (o_contig r);
  call ←! strip_cell (o_call r);
  if negb (bool_decide (assembly = "")) && negb (bool_decide (contig = ""))
  then Ok (<[(assembly, contig) := call]> overrides)
  else Ok overrides.

Definition load_overrides (rows : list override_row)
  : result (gmap key string) :=
  rfoldl load_overrides_row ∅ rows.

End CallTables.

(** ** Sample tables *)

Module Samples.
Import CompareCalls.

Definition k1 : key := ("asm1", "contig_1").
Definition k2 : key := ("asm1", "contig_2").

(** Two fragments called before, one of them called again, and an override
    for each. *)
Definition old_t : gmap key string := {[k1 := "lp54"; k2 := "lp17"]}.
Definition new_t : gmap key string := {[k1 := "lp54"]}.
Definition over_t : gmap key string := {[k1 := "lp54*"; k2 := "lp36"]}.

(** A classifier row with its alignment statistics. *)
Definition stat_row (id call : string) (rcl rl q i : ChromosomeLists.cell)
  : ChromosomeLists.row :=
  ChromosomeLists.mk_row (Some "asm1") (Some id) (Some call)
    ChromosomeLists.Missing rcl rl q i.

(** A classifier row with its length only. *)
Definition len_row (id call : string) (len : ChromosomeLists.cell)
  : ChromosomeLists.row :=
  ChromosomeLists.mk_row (Some "asm1") (Some id) (Some call) len
    ChromosomeLists.Missing ChromosomeLists.Missing ChromosomeLists.Missing
    ChromosomeLists.Missing.

(** The assembly of the placement example: A and B called lp54, C called
    chromosome. *)
Definition abc : list ChromosomeLists.row :=
  [len_row "A" "lp54" (ChromosomeLists.Num 1000);
   len_row "B" "lp54" (ChromosomeLists.Num 400);
   len_row "C" "chromosome" (ChromosomeLists.Num 900)].

(** The same rows with the shortest first. *)
Definition bac : list ChromosomeLists.row :=
  [len_row "B" "lp54" (ChromosomeLists.Num 400);
   len_row "A" "lp54" (ChromosomeLists.Num 1000);
   len_row "C" "chromosome" (ChromosomeLists.Num 900)].

(** Four calls of four families. *)
Definition four_families : list string :=
  ["lp54"; "cp26"; "lp17"; "chromosome"].

End Samples.

(** * Properties *)

(** ** Strings *)

Section StringFacts.
Import PyStr.

Lemma lower_char_idem c : lower_char (lower_char c) = lower_char c.
Proof. destruct c as [[] [] [] [] [] [] [] []]; reflexivity. Qed.

Lemma isspace_lower_char c : isspace (lower_char c) = isspace c.
Proof. destruct c as [[] [] [] [] [] [] [] []]; reflexivity. Qed.

Lemma lower_idem s : lower (lower s) = lower s.
Proof. induction s as [|c s IH]; simpl; [done|]. by rewrite lower_char_idem, IH. Qed.

Lemma lower_empty s : lower s = "" ↔ s = "".
Proof. destruct s; simpl; split; intros; done. Qed.

Lemma lstrip_lower s : lstrip (lower s) = lower (lstrip s).
Proof.
  induction s as [|c s IH]; simpl; [done|].
  rewrite isspace_lower_char. by destruct (isspace c).
Qed.

Lemma rstrip_lower s : rstrip (lower s) = lower (rstrip s).
Proof.
  unfold rstrip. induction s as [|c s IH]; simpl; [done|].
  rewrite IH, isspace_lower_char.
  destruct (rstrip_with isspace s); simpl; [by destruct (isspace c)|done].
Qed.

Lemma strip_lower s : strip (lower s) = lower (strip s).
Proof. unfold strip. by rewrite lstrip_lower, rstrip_lower. Qed.

Lemma rstrip_with_idem p s : rstrip_with p (rstrip_with p s) = rstrip_with p s.
Proof.
  induction s as [|c s IH]; simpl; [done|].
  destruct (rstrip_with p s) as [|d r] eqn:E.
  - destruct (p c) eqn:Ec; simpl; [done|]. by rewrite Ec.
  - simpl. simpl in IH. by rewrite IH.
Qed.

(** A string that does not begin with a space keeps its first character
    under [rstrip], so [lstrip] has nothing to remove afterwards. *)
Lemma lstrip_rstrip_lstrip s : lstrip (rstrip (lstrip s)) = rstrip (lstrip s).
Proof.
  induction s as [|c s IH]; simpl; [done|].
  destruct (isspace c) eqn:Ec; [done|].
  unfold rstrip. simpl.
  destruct (rstrip_with isspace s); rewrite ?Ec; simpl; by rewrite Ec.
Qed.

Lemma strip_idem s : strip (strip s) = strip s.
Proof.
  unfold strip. rewrite lstrip_rstrip_lstrip. apply rstrip_with_idem.
Qed.

End StringFacts.

(** ** compare_calls.py: normalization *)

Section NormalizeFacts.
Import PyStr CompareCalls.

(** Membership in one of the literal word lists. *)
Ltac in_list :=
  unfold sentinel_words, empty_words in *;
  rewrite ?elem_of_cons, ?elem_of_nil in *;
  intuition (subst; try discriminate; auto).

Lemma normalize_call_empty_word x :
  lower x ∈ empty_words → normalize_call x = "".
Proof.
  intros H. unfold normalize_call.
  rewrite (bool_decide_eq_true_2 _ H). by rewrite orb_true_r.
Qed.

Lemma normalize_call_other x :
  x ≠ "" → lower x ∉ empty_words → normalize_call x = lower (strip x).
Proof.
  intros H1 H2. unfold normalize_call.
  by rewrite (bool_decide_eq_false_2 _ H1), (bool_decide_eq_false_2 _ H2).
Qed.

Lemma normalize_call_cases x :
  normalize_call x = "" ∨ normalize_call x = lower (strip x).
Proof.
  unfold normalize_call.
  destruct (bool_decide (x = "") || bool_decide (lower x ∈ empty_words)); auto.
Qed.

(** Normalizing twice: the second pass changes the result exactly when the
    first one produced one of the sentinel words. *)
Lemma normalize_call_twice x :
  normalize_call (normalize_call x) =
    if bool_decide (normalize_call x ∈ sentinel_words) then ""
    else normalize_call x.
Proof.
  destruct (normalize_call_cases x) as [E|E].
  { rewrite E. reflexivity. }
  remember (normalize_call x) as y eqn:Ey. clear Ey.
  assert (Hy : lower y = y) by (rewrite E; apply lower_idem).
  assert (Hs : strip y = y) by (rewrite E, strip_lower, strip_idem; done).
  case_bool_decide as Hin.
  - apply normalize_call_empty_word. rewrite Hy.
    in_list.
  - destruct (decide (y = "")) as [->|Hne]; [done|].
    rewrite normalize_call_other; [by rewrite Hs| done |].
    rewrite Hy. in_list.
Qed.

(** C3, as amended.  [normalize_call] applied twice gives the same as applied
    once exactly when the first result is not one of the words "na", "nan",
    "none", "unclassified"; this is so for every call without surrounding
    whitespace.  The empty string and those four words, in any letter case,
    normalize to the empty sentinel. *)
Theorem normalize_call_idempotent_trimmed :
  (∀ x, normalize_call (normalize_call x) = normalize_call x
        ↔ normalize_call x ∉ sentinel_words)
  ∧ (∀ x, strip x = x →
          normalize_call (normalize_call x) = normalize_call x)
  ∧ (∀ x w, w ∈ "" :: sentinel_words → lower x = lower w →
            normalize_call x = "").
Proof.
  split; [|split].
  - intros x. rewrite normalize_call_twice. case_bool_decide as Hin.
    + split; [|done]. intros E. rewrite <- E in Hin.
      in_list.
    + done.
  - intros x Hx. rewrite normalize_call_twice.
    case_bool_decide as Hin; [|done]. exfalso.
    destruct (normalize_call_cases x) as [E|E].
    + rewrite E in Hin. in_list.
    + assert (Hw : lower x ∈ empty_words).
      { rewrite E, Hx in Hin. in_list. }
      rewrite (normalize_call_empty_word _ Hw) in Hin.
      in_list.
  - intros x w Hw E. apply normalize_call_empty_word. rewrite E.
    in_list.
Qed.

Lemma normalize_call_idempotent_trimmed_witness :
  normalize_call (normalize_call "LP28-4*") = normalize_call "LP28-4*"
  ∧ normalize_call "Unclassified" = "".
Proof.
  destruct normalize_call_idempotent_trimmed as (_ & Hidem & Hword).
  split.
  - apply Hidem. reflexivity.
  - apply (Hword "Unclassified" "unclassified"); [|reflexivity].
    in_list.
Defined.

(** C3, as stated, fails: a sentinel word padded with a space is lower-cased
    and trimmed to the bare word, which a second pass then empties. *)
Lemma normalize_call_not_idempotent :
  ¬ (∀ x, normalize_call (normalize_call x) = normalize_call x).
Proof. intros H. specialize (H " na"). vm_compute in H. discriminate. Qed.

End NormalizeFacts.

(** ** compare_calls.py: categorization *)

Section CategorizeFacts.
Import PyStr CompareCalls.

Lemma load_unbound_old :
  load_global "old_base_plasmid_calls"
  = Raise (NameError "old_base_plasmid_calls").
Proof. reflexivity. Qed.

(** Past the five early returns the first thing evaluated is the unbound
    name. *)
Lemma categorize_tail old new :
  is_empty old = false → is_empty new = false →
  normalize_call old ≠ normalize_call new →
  strip_suffix (normalize_call old) ≠ strip_suffix (normalize_call new) →
  categorize old new = Raise (NameError "old_base_plasmid_calls").
Proof.
  intros Ho Hn Hne Hsuf. unfold categorize. rewrite Ho, Hn. simpl.
  rewrite (bool_decide_eq_false_2 _ Hne), (bool_decide_eq_false_2 _ Hsuf).
  reflexivity.
Qed.

Lemma categorize_early old new cat res :
  categorize old new = Ok (cat, res) → cat ∈ early_categories.
Proof.
  unfold categorize, early_categories.
  destruct (is_empty old) eqn:Ho, (is_empty new) eqn:Hn; simpl;
    try (intros [= <- <-]; rewrite !elem_of_cons; tauto).
  case_bool_decide as Hne;
    [intros [= <- <-]; rewrite !elem_of_cons; tauto|].
  case_bool_decide as Hsuf;
    [intros [= <- <-]; rewrite !elem_of_cons; tauto|].
  discriminate.
Qed.

(** C2.  When both calls are non-empty, their normalized forms differ and
    still differ once the trailing stars are stripped, [categorize] raises
    [NameError] on [old_base_plasmid_calls]; hence a category it returns is
    one of exact_match, new_unclassified, old_unclassified and
    annotation_suffix, and none of extra_annotation, base_match,
    partial_overlap, same_family_tiebreak and different. *)
Theorem categorize_raises_name_error old new :
  (is_empty old = false → is_empty new = false →
   normalize_call old ≠ normalize_call new →
   strip_suffix (normalize_call old) ≠ strip_suffix (normalize_call new) →
   categorize old new = Raise (NameError "old_base_plasmid_calls"))
  ∧ (∀ cat res, categorize old new = Ok (cat, res) →
       cat ∈ early_categories ∧ cat ∉ late_categories).
Proof.
  split; [apply categorize_tail|].
  intros cat res H. apply categorize_early in H. split; [done|].
  unfold early_categories, late_categories in *.
  rewrite ?elem_of_cons, ?elem_of_nil in *.
  intuition (subst; discriminate).
Qed.

Lemma categorize_raises_name_error_witness :
  categorize "cp32-12" "cp32-1" = Raise (NameError "old_base_plasmid_calls")
  ∧ "annotation_suffix" ∈ early_categories.
Proof.
  split.
  - apply (categorize_raises_name_error "cp32-12" "cp32-1");
      [reflexivity | reflexivity | by vm_compute | by vm_compute].
  - apply (proj2 (categorize_raises_name_error "lp28-1" "lp28-1*")
             "annotation_suffix" "lp28-1").
    reflexivity.
Defined.

(** C1, on the code: the subset case of the specification's own example
    ends in the [NameError] and no category is returned. *)
Lemma categorize_extra_annotation_raises :
  categorize "lp28-4" "lp28-4:::lp17"
  = Raise (NameError "old_base_plasmid_calls")
  ∧ extract_base_plasmid_calls "lp28-4" ≠ ∅
  ∧ extract_base_plasmid_calls "lp28-4"
    ⊆ extract_base_plasmid_calls "lp28-4:::lp17".
Proof.
  split; [reflexivity|]. split.
  - by vm_compute.
  - apply (bool_decide_unpack _). by vm_compute.
Qed.

(** C10.  A call compared with itself is an exact match, resolved to nothing
    when the call is empty or unclassified and to the trimmed call
    otherwise. *)
Theorem categorize_same c :
  categorize c c
  = Ok ("exact_match", if is_empty c then "" else strip c).
Proof.
  unfold categorize. destruct (is_empty c); simpl; [done|].
  by rewrite bool_decide_eq_true_2.
Qed.

End CategorizeFacts.

(** ** compare_calls.py: the loop of [main] *)

Section MainFacts.
Import PyStr CompareCalls.

Lemma rmapM_Ok_elem {A B} (f : A → result B) l bs b :
  rmapM f l = Ok bs → b ∈ bs → ∃ a, a ∈ l ∧ f a = Ok b.
Proof.
  revert bs. induction l as [|a l IH]; intros bs; simpl.
  - intros [= <-] Hb. by apply elem_of_nil in Hb.
  - destruct (f a) as [b0|] eqn:Ea; simpl; [|done].
    destruct (rmapM f l) as [bs0|] eqn:El; simpl; [|done].
    intros [= <-] Hb. apply elem_of_cons in Hb as [->|Hb].
    + exists a. split; [left|done].
    + destruct (IH bs0 eq_refl Hb) as (a' & Ha' & Hf).
      exists a'. split; [by right|done].
Qed.

Lemma rmapM_Raise {A B} (f : A → result B) l a e :
  a ∈ l → f a = Raise e → ∃ e', rmapM f l = Raise e'.
Proof.
  induction l as [|a0 l IH]; intros Ha Hf.
  - by apply elem_of_nil in Ha.
  - simpl. apply elem_of_cons in Ha as [<-|Ha].
    + rewrite Hf. by exists e.
    + destruct (f a0); simpl; [|by eexists].
      destruct (IH Ha Hf) as [e' ->]. by exists e'.
Qed.

Variable auto_chromosome_bp : Z.
Variables old_calls new_calls : gmap key string.
Variable contig_lengths : gmap key Z.
Variable overrides : gmap key string.

Lemma apply_override_Some k v cat resolved :
  overrides !! k = Some v →
  apply_override overrides k (cat, resolved)
  = (if bool_decide (cat = "exact_match") then "exact_match"
     else "manual_override", v).
Proof.
  intros Hk. unfold apply_override. rewrite Hk.
  case_bool_decide as H1; case_bool_decide as H2; try done;
    rewrite elem_of_cons, elem_of_nil in H1; [by subst | tauto | tauto].
Qed.

(** The row of a key is made whenever the first pass returns. *)
Lemma process_key_Ok k cr :
  first_pass old_calls new_calls k = Ok cr →
  ∃ r, process_key auto_chromosome_bp old_calls new_calls contig_lengths
         overrides k = Ok r
     ∧ (category r, resolved_call r)
       = apply_override overrides k
           (auto_chromosome auto_chromosome_bp old_calls new_calls
              contig_lengths k cr)
     ∧ (assembly_id r, contig_id r) = k.
Proof.
  intros H. unfold process_key. rewrite H. simpl.
  destruct (apply_override _ _ _) as [cat resolved].
  eexists. split; [done|]. simpl. split; [done|]. by destruct k.
Qed.

(** Lines 295-299 on a key whose first pass returns: the resolved call of
    its row is the override value, and the category the heuristics left
    becomes manual_override unless it is exact_match, which is kept; so it
    is for every row of a finished run. *)
Lemma manual_override_wins k v :
  overrides !! k = Some v →
  (∀ cr, first_pass old_calls new_calls k = Ok cr →
     ∃ r, process_key auto_chromosome_bp old_calls new_calls contig_lengths
            overrides k = Ok r
        ∧ resolved_call r = v
        ∧ category r =
            if bool_decide
                 ((auto_chromosome auto_chromosome_bp old_calls new_calls
                     contig_lengths k cr).1 = "exact_match")
            then "exact_match" else "manual_override")
  ∧ (∀ rows r,
       main_rows auto_chromosome_bp old_calls new_calls contig_lengths
         overrides = Ok rows →
       r ∈ rows → (assembly_id r, contig_id r) = k →
       resolved_call r = v
       ∧ category r ∈ ["exact_match"; "manual_override"]).
Proof.
  intros Hk. split.
  - intros cr Hcr.
    destruct (process_key_Ok k cr Hcr) as (r & Hr & Hcat & _).
    exists r. split; [done|].
    destruct (auto_chromosome _ _ _ _ _ _) as [cat resolved].
    rewrite (apply_override_Some _ _ _ _ Hk) in Hcat.
    injection Hcat as -> ->. done.
  - intros rows r Hrows Hr Hkey.
    destruct (rmapM_Ok_elem _ _ _ _ Hrows Hr) as (k' & _ & Hp).
    unfold process_key in Hp.
    destruct (first_pass old_calls new_calls k') as [cr|] eqn:Hcr;
      [|done].
    destruct (process_key_Ok k' cr Hcr) as (r' & Hr' & Hcat & Hk').
    unfold process_key in Hr'. rewrite Hcr in Hr'.
    rewrite Hp in Hr'. injection Hr' as <-.
    assert (k' = k) as -> by congruence.
    destruct (auto_chromosome _ _ _ _ _ _) as [cat resolved].
    rewrite (apply_override_Some _ _ _ _ Hk) in Hcat.
    injection Hcat as -> ->. split; [done|].
    case_bool_decide; rewrite !elem_of_cons; tauto.
Qed.

End MainFacts.

Section MainExamples.
Import PyStr CompareCalls Samples.

Lemma manual_override_wins_example :
  (∃ r, process_key 0 old_t new_t ∅ over_t k2 = Ok r
      ∧ resolved_call r = "lp36" ∧ category r = "manual_override")
  ∧ (∃ r, process_key 0 old_t new_t ∅ over_t k1 = Ok r
      ∧ resolved_call r = "lp54*" ∧ category r = "exact_match").
Proof.
  split.
  - destruct (manual_override_wins 0 old_t new_t ∅ over_t k2 "lp36")
      as [H _]; [by vm_compute|].
    destruct (H ("old_only", "lp17")) as (r & Hr & Hres & Hcat);
      [by vm_compute|].
    exists r. repeat split; [done..|]. rewrite Hcat. by vm_compute.
  - destruct (manual_override_wins 0 old_t new_t ∅ over_t k1 "lp54*")
      as [H _]; [by vm_compute|].
    destruct (H ("exact_match", "lp54")) as (r & Hr & Hres & Hcat);
      [by vm_compute|].
    exists r. repeat split; [done..|]. rewrite Hcat. by vm_compute.
Defined.

(** C4, on the code: with the threshold at 100000, the fragment of length
    200000 called "plasmid_x" before and "chromosome" now gets no row, since
    its first pass ends in the [NameError], and so the run writes nothing;
    had the first pass answered different, the heuristic would have made it
    auto_chromosome, resolved to "chromosome". *)
Lemma auto_chromosome_unreached :
  process_key 100000 {[k1 := "plasmid_x"]} {[k1 := "chromosome"]}
    {[k1 := 200000]} ∅ k1
  = Raise (NameError "old_base_plasmid_calls")
  ∧ main_rows 100000 {[k1 := "plasmid_x"]} {[k1 := "chromosome"]}
      {[k1 := 200000]} ∅
    = Raise (NameError "old_base_plasmid_calls")
  ∧ auto_chromosome 100000 {[k1 := "plasmid_x"]} {[k1 := "chromosome"]}
      {[k1 := 200000]} k1 ("different", "plasmid_x")
    = ("auto_chromosome", "chromosome").
Proof. repeat split; by vm_compute. Qed.

(** C5, on the code: the fragment called "lp28-4" before and "lp17" now has
    the override "lp17".  Its first pass ends in the [NameError], so the
    key gets no row and the run writes nothing; the override is not
    applied, though lines 295-299, on the category different that the first
    pass was written to return, give manual_override resolved to "lp17". *)
Lemma manual_override_unreached :
  process_key 0 {[k1 := "lp28-4"]} {[k1 := "lp17"]} ∅ {[k1 := "lp17"]} k1
  = Raise (NameError "old_base_plasmid_calls")
  ∧ main_rows 0 {[k1 := "lp28-4"]} {[k1 := "lp17"]} ∅ {[k1 := "lp17"]}
    = Raise (NameError "old_base_plasmid_calls")
  ∧ apply_override {[k1 := "lp17"]} k1 ("different", "lp28-4")
    = ("manual_override", "lp17").
Proof. repeat split; by vm_compute. Qed.

End MainExamples.

(** ** Counters *)

Section CounterFacts.
Import PyList.

Lemma counter_add_keys x c :
  (counter_add x c).*1 = if decide (x ∈ c.*1) then c.*1 else c.*1 ++ [x].
Proof.
  induction c as [|[y n] c IH].
  - destruct (decide (x ∈ ([] : list (string * N)).*1)) as [Hin|Hin];
      [by apply elem_of_nil in Hin|done].
  - change ((y, n) :: c).*1 with (y :: c.*1). cbn [counter_add].
    case_bool_decide as E; rewrite fmap_cons; cbn [fst].
    + subst y. destruct (decide (x ∈ x :: c.*1)) as [Hin|Hin]; [done|].
      exfalso. apply Hin. left.
    + rewrite IH.
      destruct (decide (x ∈ c.*1)) as [Hin|Hin],
               (decide (x ∈ y :: c.*1)) as [Hin'|Hin']; try done.
      * exfalso. apply Hin'. by right.
      * exfalso. apply elem_of_cons in Hin'. tauto.
Qed.

Lemma filter_first_seen_skip (K : list string) y (l : list string) :
  y ∈ K →
  filter (λ z, z ∉ K) (filter (λ z, z ≠ y) l) = filter (λ z, z ∉ K) l.
Proof.
  intros Hy. rewrite list_filter_filter. apply list_filter_iff.
  intros z. split; [tauto|]. intros Hz. split; [done|]. by intros ->.
Qed.

Lemma counter_keys_foldl l c :
  (foldl (λ c x, counter_add x c) c l).*1
  = c.*1 ++ filter (λ y, y ∉ c.*1) (first_seen l).
Proof.
  revert c. induction l as [|y l IH]; intros c; simpl.
  - by rewrite app_nil_r.
  - rewrite IH, counter_add_keys. destruct (decide (y ∈ c.*1)) as [Hin|Hin].
    + rewrite filter_cons_False by tauto. by rewrite filter_first_seen_skip.
    + rewrite filter_cons_True by done. rewrite <- app_assoc. simpl.
      do 2 f_equal. rewrite list_filter_filter. apply list_filter_iff.
      intros z. rewrite elem_of_app, list_elem_of_singleton. tauto.
Qed.

Lemma Counter_keys l : (Counter l).*1 = first_seen l.
Proof.
  unfold Counter. rewrite counter_keys_foldl. simpl.
  induction (first_seen l) as [|x k IH]; [done|].
  rewrite filter_cons_True by apply not_elem_of_nil. by rewrite IH.
Qed.

Lemma first_seen_NoDup l : NoDup (first_seen l).
Proof.
  induction l as [|x l IH]; simpl; [constructor|].
  constructor; [|by apply NoDup_filter].
  rewrite list_elem_of_filter. tauto.
Qed.

Lemma first_seen_elem x l : x ∈ first_seen l ↔ x ∈ l.
Proof.
  induction l as [|y l IH]; simpl; [done|].
  rewrite !elem_of_cons, list_elem_of_filter, IH.
  destruct (decide (x = y)); tauto.
Qed.

Lemma counter_get_add x y c :
  counter_get x (counter_add y c)
  = (counter_get x c + if bool_decide (x = y) then 1 else 0)%N.
Proof.
  induction c as [|[z n] c IH]; simpl.
  - by case_bool_decide.
  - destruct (decide (y = z)) as [->|Eyz].
    + rewrite (bool_decide_eq_true_2 (z = z)) by done. simpl.
      case_bool_decide; lia.
    + rewrite (bool_decide_eq_false_2 (y = z)) by done. simpl.
      destruct (decide (x = z)) as [->|Exz].
      * rewrite (bool_decide_eq_true_2 (z = z)) by done.
        rewrite (bool_decide_eq_false_2 (z = y)) by done. lia.
      * rewrite (bool_decide_eq_false_2 (x = z)) by done. apply IH.
Qed.

Lemma count_cons x y l :
  count x (y :: l) = (count x l + if bool_decide (y = x) then 1 else 0)%N.
Proof.
  unfold count. rewrite filter_cons.
  destruct (decide (y = x)) as [E|E].
  - rewrite bool_decide_eq_true_2 by done. simpl. lia.
  - rewrite bool_decide_eq_false_2 by done. lia.
Qed.

Lemma counter_get_foldl x l c :
  counter_get x (foldl (λ c x, counter_add x c) c l)
  = (counter_get x c + count x l)%N.
Proof.
  revert c. induction l as [|y l IH]; intros c; simpl.
  - unfold count. simpl. lia.
  - rewrite IH, counter_get_add, count_cons.
    destruct (decide (x = y)) as [->|E].
    + rewrite !bool_decide_eq_true_2 by done. lia.
    + rewrite !bool_decide_eq_false_2 by done. lia.
Qed.

Lemma Counter_get x l : counter_get x (Counter l) = count x l.
Proof. unfold Counter. by rewrite counter_get_foldl. Qed.

Lemma counter_get_elem x n c :
  NoDup c.*1 → (x, n) ∈ c → counter_get x c = n.
Proof.
  induction c as [|[y m] c IH]; simpl; intros Hnd Hin.
  - by apply elem_of_nil in Hin.
  - apply NoDup_cons in Hnd as [Hy Hnd].
    apply elem_of_cons in Hin as [[= <- <-]|Hin].
    + by rewrite bool_decide_eq_true_2.
    + rewrite bool_decide_eq_false_2; [by apply IH|].
      intros ->. apply Hy. apply list_elem_of_fmap. by exists (y, n).
Qed.

(** An item of [Counter l] carries the number of occurrences of its key. *)
Lemma Counter_elem x n l : (x, n) ∈ Counter l → n = count x l.
Proof.
  intros Hin. rewrite <- Counter_get. symmetry.
  apply counter_get_elem; [|done].
  rewrite Counter_keys. apply first_seen_NoDup.
Qed.

(** [first_max] returns the first of the items whose count is greatest. *)
Lemma first_max_spec best c :
  ∃ pre post,
    best :: c = pre ++ first_max best c :: post
    ∧ Forall (λ p, p.2 < (first_max best c).2)%N pre
    ∧ Forall (λ p, p.2 ≤ (first_max best c).2)%N post.
Proof.
  revert best. induction c as [|x c IH]; intros best; simpl.
  - exists [], []. by repeat split.
  - case_bool_decide as Hlt.
    + destruct (IH x) as (pre & post & E & Hpre & Hpost).
      exists (best :: pre), post.
      split; [simpl; by rewrite <- E|]. split; [|done].
      constructor; [|done]. simpl.
      destruct pre as [|p pre]; simpl in E.
      * injection E as <- _. done.
      * injection E as <- _. apply Forall_cons in Hpre as [Hp _]. lia.
    + destruct (IH best) as (pre & post & E & Hpre & Hpost).
      destruct pre as [|p pre]; simpl in E.
      * injection E as E1 E2. subst c. rewrite <- E1 in Hpost |- *.
        exists [], (x :: post). split; [done|]. split; [done|].
        constructor; [lia|done].
      * injection E as <- E2. exists (best :: x :: pre), post.
        split; [simpl; by rewrite <- E2|]. split; [|done].
        apply Forall_cons in Hpre as [Hb Hpre].
        constructor; [done|]. constructor; [lia|done].
Qed.

End CounterFacts.

(** ** add_replicon_to_gml.py: consensus *)

Section ConsensusFacts.
Import PyList PyFloat AddReplicon.

Local Set Warnings "-inexact-float".

(** The top item of a non-empty list of calls: the first met among the most
    frequent. *)
Lemma most_common_1_Counter l :
  l ≠ [] →
  ∃ top pre post,
    most_common_1 (Counter l) = [(top, count top l)]
    ∧ first_seen l = pre ++ top :: post
    ∧ (∀ x, x ∈ pre → (count x l < count top l)%N)
    ∧ (∀ x, x ∈ l → (count x l ≤ count top l)%N).
Proof.
  intros Hl.
  destruct (Counter l) as [|p0 c'] eqn:Ec.
  { exfalso. apply Hl. pose proof (Counter_keys l) as Hk. rewrite Ec in Hk.
    destruct l; [done|]. simpl in Hk. done. }
  destruct (first_max_spec p0 c') as (pre & post & E & Hpre & Hpost).
  destruct (first_max p0 c') as [top cnt] eqn:Er. simpl in *.
  assert (Hin : ∀ p, p ∈ pre ++ (top, cnt) :: post → p.2 = count p.1 l).
  { intros [x n] Hp. apply Counter_elem. by rewrite Ec, E. }
  assert (Hcnt : cnt = count top l).
  { apply (Hin (top, cnt)). apply elem_of_app. right. left. }
  pose proof (Counter_keys l) as Hk.
  rewrite Ec, E, fmap_app, fmap_cons in Hk. simpl in Hk.
  assert (Hlt : ∀ x, x ∈ pre.*1 → (count x l < count top l)%N).
  { intros x Hx. apply list_elem_of_fmap in Hx as ([y n] & -> & Hp).
    rewrite Forall_forall in Hpre. specialize (Hpre _ Hp). simpl in *.
    assert (Hn : n = count y l).
    { apply (Hin (y, n)). apply elem_of_app. by left. }
    by rewrite <- Hcnt, <- Hn. }
  exists top, (pre.*1), (post.*1). rewrite Er, <- Hcnt.
  split; [done|]. split; [done|]. rewrite Hcnt. split; [done|].
  intros x Hx. apply first_seen_elem in Hx. rewrite <- Hk in Hx.
  apply elem_of_app in Hx as [Hx|Hx]; [specialize (Hlt _ Hx); lia|].
  apply elem_of_cons in Hx as [->|Hx]; [lia|].
  apply list_elem_of_fmap in Hx as ([y n] & -> & Hp).
  rewrite Forall_forall in Hpost. specialize (Hpost _ Hp). simpl in *.
  assert (Hn : n = count y l).
  { apply (Hin (y, n)). apply elem_of_app. right. by right. }
  by rewrite <- Hcnt, <- Hn.
Qed.

(** C6, as amended.  No calls: every output is the "unknown" sentinel, the
    fraction 0.0 and the count 0.  Otherwise top_replicon is the most
    frequent call, the first met among equals; consensus_replicon is
    top_replicon when the quotient top_count / N is at least the threshold
    and "multi-replicon" if not; and consensus_fraction is that quotient
    rounded to three decimals.  Nine "lp54" and one "lp17" give "lp54" with
    fraction 0.9 at threshold 0.9 and "multi-replicon" at 0.95. *)
Theorem assign_consensus_replicon_rounded :
  (∀ τ, assign_consensus_replicon [] τ
        = Ok {| consensus_replicon := "unknown"; top_replicon := "unknown";
                consensus_fraction := 0%float; n_isolates := 0;
                all_replicons := "unknown" |})
  ∧ (∀ l τ, l ≠ [] →
       ∃ top pre post c,
         first_seen l = pre ++ top :: post
         ∧ (∀ x, x ∈ pre → (count x l < count top l)%N)
         ∧ (∀ x, x ∈ l → (count x l ≤ count top l)%N)
         ∧ assign_consensus_replicon l τ = Ok c
         ∧ top_replicon c = top
         ∧ n_isolates c = N.of_nat (length l)
         ∧ consensus_fraction c
           = round3 (truediv (count top l) (N.of_nat (length l)))
         ∧ consensus_replicon c
           = if ge (truediv (count top l) (N.of_nat (length l))) τ
             then top else "multi-replicon")
  ∧ (∃ c, assign_consensus_replicon (replicate 9 "lp54" ++ ["lp17"]) 0.9
          = Ok c
        ∧ consensus_replicon c = "lp54" ∧ consensus_fraction c = 0.9%float)
  ∧ (∃ c, assign_consensus_replicon (replicate 9 "lp54" ++ ["lp17"]) 0.95
          = Ok c
        ∧ consensus_replicon c = "multi-replicon").
Proof.
  split; [done|]. split.
  - intros l τ Hl.
    destruct (most_common_1_Counter l Hl)
      as (top & pre & post & Hmc & Hseen & Hlt & Hle).
    exists top, pre, post. unfold assign_consensus_replicon.
    rewrite bool_decide_eq_false_2 by (destruct l; [done|simpl; lia]).
    rewrite Hmc. simpl. eexists. repeat split; try done.
  - split; eexists; (split; [by vm_compute|]); by vm_compute.
Qed.

Lemma assign_consensus_replicon_rounded_witness :
  ∃ c, assign_consensus_replicon ["cp26"; "lp54"; "cp26"; "lp54"] 0.5 = Ok c
     ∧ top_replicon c = "cp26" ∧ consensus_replicon c = "cp26".
Proof.
  destruct assign_consensus_replicon_rounded as (_ & H & _).
  destruct (H ["cp26"; "lp54"; "cp26"; "lp54"] 0.5%float)
    as (top & pre & post & c & Hseen & Hlt & _ & Hc & Htop & _ & _ & Hcons);
    [done|].
  assert (top = "cp26") as ->.
  { destruct pre as [|x pre]; [by injection Hseen as <-|].
    injection Hseen as <- Hrest. exfalso.
    destruct pre as [|y pre]; [|by destruct pre].
    injection Hrest as <- _. specialize (Hlt "cp26"). vm_compute in Hlt.
    by specialize (Hlt ltac:(left)). }
  exists c. split; [done|]. split; [done|]. rewrite Hcons. by vm_compute.
Defined.

(** C6, as stated, fails: the fraction returned is the rounded one, which is
    not the quotient for one call out of three. *)
Lemma consensus_fraction_not_quotient :
  ¬ (∀ l τ c,
       l ≠ [] → assign_consensus_replicon l τ = Ok c →
       consensus_fraction c
       = truediv (count (top_replicon c) l) (N.of_nat (length l))).
Proof.
  intros H.
  specialize (H ["cp26"; "lp17"; "lp54"] 0.9%float _ ltac:(done) eq_refl).
  apply (f_equal (PrimFloat.eqb 0.333)) in H. vm_compute in H. done.
Qed.

End ConsensusFacts.

(** ** Words and white space *)

Section WordsFacts.
Import PyStr.

Lemma lstrip_all_space s : all_space (lstrip s) = all_space s.
Proof.
  induction s as [|c s IH]; simpl; [done|].
  destruct (isspace c) eqn:Ec; simpl; [done|]. by rewrite Ec.
Qed.

Lemma rstrip_empty s : rstrip s = "" ↔ all_space s = true.
Proof.
  unfold rstrip. induction s as [|c s IH]; simpl; [done|].
  destruct (rstrip_with isspace s) eqn:E.
  - destruct (isspace c); simpl; [tauto|]. split; intros; done.
  - split; [done|]. intros [_ H]%andb_true_iff. apply IH in H. done.
Qed.

Lemma strip_empty s : strip s = "" ↔ all_space s = true.
Proof. unfold strip. by rewrite rstrip_empty, lstrip_all_space. Qed.

Lemma words_go_Some w s : words_go (Some w) s ≠ [].
Proof.
  revert w. induction s as [|c s IH]; intros w; simpl; [done|].
  destruct (isspace c); [done|]. apply IH.
Qed.

Lemma words_nil s : words s = [] → all_space s = true.
Proof.
  unfold words. induction s as [|c s IH]; simpl; [done|].
  destruct (isspace c); simpl; [done|].
  intros H. by apply words_go_Some in H.
Qed.

(** A string that [strip] leaves non-empty has a first word. *)
Lemma first_word_exists s :
  strip s ≠ "" → ∃ w ws, words (strip (strip s)) = w :: ws.
Proof.
  intros H. rewrite strip_idem.
  destruct (words (strip s)) as [|w ws] eqn:E; [|by eauto].
  exfalso. apply words_nil in E. apply H.
  apply strip_empty. by rewrite <- strip_empty, strip_idem, strip_empty in E.
Qed.

End WordsFacts.

(** ** Binary64 comparisons *)

Section FloatFacts.

Lemma Prim2SF_zero : Prim2SF 0 = S754_zero false.
Proof. reflexivity. Qed.

(** A divisor that is not [<= 0] and gives a quotient that compares is
    greater than 0: the NaN, which passes [rl <= 0], makes the quotient a
    NaN. *)
Lemma divisor_positive t rcl rl :
  PrimFloat.leb rl 0 = false →
  PrimFloat.leb t (PrimFloat.div rcl rl) = true →
  PrimFloat.ltb 0 rl = true.
Proof.
  rewrite !FloatAxioms.leb_spec, FloatAxioms.ltb_spec, FloatAxioms.div_spec,
    Prim2SF_zero.
  unfold SF64div, SFdiv.
  destruct (Prim2SF rl) as [s|s| |s m e]; try (destruct s; done).
  intros _. destruct (Prim2SF rcl), (Prim2SF t); done.
Qed.

(** Zero does not reach a positive threshold. *)
Lemma zero_below_positive t :
  PrimFloat.ltb 0 t = true → PyFloat.ge 0 t = false.
Proof.
  unfold PyFloat.ge.
  rewrite FloatAxioms.leb_spec, FloatAxioms.ltb_spec, Prim2SF_zero.
  destruct (Prim2SF t) as [s|s| |s m e]; try (destruct s; done). done.
Qed.

Lemma zero_div_100 : PrimFloat.div 0 100 = 0%float.
Proof. reflexivity. Qed.

Lemma is_infinity_Prim2SF x :
  PrimFloat.is_infinity x = true ↔ ∃ s, Prim2SF x = S754_infinity s.
Proof.
  unfold PrimFloat.is_infinity.
  rewrite FloatAxioms.eqb_spec, FloatAxioms.abs_spec.
  change (Prim2SF infinity) with (S754_infinity false).
  destruct (Prim2SF x) as [s|s| |s m e]; simpl.
  - split; [done|]. by intros [? ?].
  - split; [by eexists|done].
  - split; [done|]. by intros [? ?].
  - split; [done|]. by intros [? ?].
Qed.

End FloatFacts.

(** ** generate_chromosome_lists.py: complete mode *)

Section CompleteFacts.
Import PyStr ChromosomeLists.

Local Set Warnings "-inexact-float".

Lemma parse_contig_name_Ok r c :
  contig_id r = Some c → strip c ≠ "" →
  parse_contig_name (strip c) = Ok (object_name r).
Proof.
  intros E H. unfold parse_contig_name, object_name. rewrite E. simpl.
  destruct (first_word_exists _ H) as (w & ws & ->). done.
Qed.

Lemma positive_not_le x :
  PrimFloat.ltb 0 x = true → PrimFloat.leb x 0 = false.
Proof.
  rewrite FloatAxioms.leb_spec, FloatAxioms.ltb_spec, Prim2SF_zero.
  destruct (Prim2SF x) as [s|s| |s m e]; try (destruct s; done). done.
Qed.

(** The percentage columns enter as the value read, or 0, over 100. *)
Lemma percent_or_zero c :
  match try_float (Some 0%float) c with
  | Some x => PrimFloat.div x 100
  | None => 0%float
  end = PrimFloat.div (stat_or_zero c) 100.
Proof. destruct c; reflexivity. Qed.

Lemma passes_completeness_iff r t1 t2 t3 :
  passes_completeness r t1 t2 t3 = true ↔
  ∃ rcl rl,
    ref_covered_length r = Num rcl ∧ ref_length r = Num rl
    ∧ PrimFloat.ltb 0 rl = true
    ∧ PyFloat.ge (PrimFloat.div rcl rl) t1 = true
    ∧ PyFloat.ge (PrimFloat.div (stat_or_zero (query_coverage_percent r)) 100)
                 t2 = true
    ∧ PyFloat.ge
        (PrimFloat.div (stat_or_zero (overall_percent_identity r)) 100) t3
      = true.
Proof.
  unfold passes_completeness, compute_ref_coverage.
  rewrite !percent_or_zero. split.
  - destruct (ref_covered_length r) as [| |rcl]; simpl; try done.
    destruct (ref_length r) as [| |rl]; simpl; try done.
    destruct (PrimFloat.leb rl 0) eqn:Hrl; [done|].
    intros [[H1 H2]%andb_true_iff H3]%andb_true_iff.
    exists rcl, rl. repeat split; try done.
    by apply (divisor_positive t1 rcl).
  - intros (rcl & rl & -> & -> & Hrl & H1 & H2 & H3). simpl.
    rewrite (positive_not_le _ Hrl). by rewrite H1, H2, H3.
Qed.

Lemma names_present_cons r contigs :
  names_present (r :: contigs)
  ↔ (is_Some (contig_id r) ∧ is_Some (plasmid_name r))
    ∧ names_present contigs.
Proof.
  unfold names_present. split.
  - intros H. split; [apply H; left|]. intros r' Hr'. apply H. by right.
  - intros [Hr H] r' [->|Hr']%elem_of_cons; [done|by apply H].
Qed.

(** The loop of complete mode, from any state of its accumulators, on rows
    without the [None] of a short row. *)
Lemma complete_go_spec t1 t2 t3 contigs acc :
  names_present contigs →
  complete_go t1 t2 t3 contigs acc
  = Ok {| chrom_lines :=
            chrom_lines acc
            ++ (placement_line <$>
                filter (λ r, has_names r && passes_completeness r t1 t2 t3)
                       contigs);
          unloc_lines := unloc_lines acc;
          placed :=
            (placed acc
             + N.of_nat (length
                 (filter (λ r, has_names r && passes_completeness r t1 t2 t3)
                         contigs)))%N;
          unlocalised := unlocalised acc;
          unplaced :=
            (unplaced acc
             + N.of_nat (length
                 (filter (λ r, has_names r
                               && negb (passes_completeness r t1 t2 t3))
                         contigs)))%N |}.
Proof.
  revert acc. induction contigs as [|r contigs IH]; intros acc Hnp.
  - simpl. rewrite app_nil_r, !N.add_0_r. by destruct acc.
  - apply names_present_cons in Hnp as [[[c Ec] [pn Epn]] Hnp].
    cbn [complete_go]. rewrite Ec, Epn. cbn [strip_cell rbind].
    assert (Hh : has_names r
                 = negb (bool_decide (strip c = "")
                         || bool_decide (strip pn = ""))).
    { unfold has_names. rewrite Ec, Epn. by rewrite negb_orb. }
    destruct (bool_decide (strip c = "") || bool_decide (strip pn = ""))
      eqn:E; simpl in Hh.
    { rewrite !filter_cons_False by (rewrite Hh; simpl; tauto).
      by apply IH. }
    apply orb_false_iff in E as [Hid%bool_decide_eq_false _].
    destruct (passes_completeness r t1 t2 t3) eqn:Hp.
    + rewrite (parse_contig_name_Ok _ _ Ec Hid). cbn [rbind].
      rewrite IH by done. cbn [chrom_lines unloc_lines placed unlocalised
                               unplaced].
      rewrite filter_cons_True by (by rewrite Hh, Hp).
      rewrite filter_cons_False by (rewrite Hh, Hp; simpl; tauto).
      rewrite fmap_cons. cbn [length]. f_equal. f_equal; [|lia].
      rewrite <- app_assoc. do 2 f_equal.
      unfold placement_line, replicon_of, topo_type. by rewrite Epn.
    + rewrite IH by done. cbn [chrom_lines unloc_lines placed unlocalised
                               unplaced].
      rewrite filter_cons_False by (rewrite Hh, Hp; simpl; tauto).
      rewrite filter_cons_True by (by rewrite Hh, Hp).
      cbn [length]. f_equal. f_equal. lia.
Qed.

(** Complete mode raises nothing but the [AttributeError] of a [None]
    cell. *)
Lemma complete_go_Raise t1 t2 t3 contigs acc e :
  complete_go t1 t2 t3 contigs acc = Raise e →
  e = AttributeError "strip" ∧ ¬ names_present contigs.
Proof.
  revert acc. induction contigs as [|r contigs IH]; intros acc; [done|].
  cbn [complete_go]. rewrite names_present_cons.
  destruct (contig_id r) as [c|] eqn:Ec; cbn [strip_cell rbind];
    [|intros [= <-]; split; [done|]; by intros [[[? [=]] _] _]].
  destruct (plasmid_name r) as [pn|] eqn:Epn; cbn [strip_cell rbind];
    [|intros [= <-]; split; [done|]; by intros [[_ [? [=]]] _]].
  assert (Hrec : ∀ acc', complete_go t1 t2 t3 contigs acc' = Raise e →
                         e = AttributeError "strip"
                         ∧ ¬ (( is_Some (Some c) ∧ is_Some (Some pn))
                              ∧ names_present contigs)).
  { intros acc' H. destruct (IH acc' H) as [-> Hn]. split; [done|].
    intros [_ H']. by apply Hn. }
  destruct (bool_decide (strip c = "") || bool_decide (strip pn = "")) eqn:E;
    [apply Hrec|].
  apply orb_false_iff in E as [Hid%bool_decide_eq_false _].
  destruct (passes_completeness r t1 t2 t3); [|apply Hrec].
  rewrite (parse_contig_name_Ok _ _ Ec Hid). cbn [rbind]. apply Hrec.
Qed.

Lemma complete_go_Ok t1 t2 t3 contigs acc res :
  complete_go t1 t2 t3 contigs acc = Ok res → names_present contigs.
Proof.
  revert acc. induction contigs as [|r contigs IH]; intros acc.
  - intros _ r Hr. by apply elem_of_nil in Hr.
  - cbn [complete_go]. rewrite names_present_cons.
    destruct (contig_id r) as [c|] eqn:Ec; cbn [strip_cell rbind]; [|done].
    destruct (plasmid_name r) as [pn|] eqn:Epn; cbn [strip_cell rbind];
      [|done].
    assert (Hrec : ∀ acc', complete_go t1 t2 t3 contigs acc' = Ok res →
                           (is_Some (Some c) ∧ is_Some (Some pn))
                           ∧ names_present contigs).
    { intros acc' H. split; [by split|]. by apply (IH acc'). }
    destruct (bool_decide (strip c = "") || bool_decide (strip pn = ""))
      eqn:E; [apply Hrec|].
    apply orb_false_iff in E as [Hid%bool_decide_eq_false _].
    destruct (passes_completeness r t1 t2 t3); [|apply Hrec].
    rewrite (parse_contig_name_Ok _ _ Ec Hid). cbn [rbind]. apply Hrec.
Qed.

(** C9, as amended.  In complete mode, on a table without the missing
    cells of a short row, the chromosome list holds, in table order, the
    rows that have a contig id and a call and pass the three thresholds,
    and there is no unlocalised entry; the mode returns exactly on such
    tables.  A row passes exactly when its two reference columns read as
    numbers, the reference length is greater than 0, covered / reference
    length reaches [ref_cov], and the query coverage and the identity, each
    read as 0 when the column is missing or unreadable, reach [query_cov]
    and [identity] once divided by 100.  Unreadable reference columns keep
    a row out; an unreadable percentage keeps it out when its threshold is
    greater than 0. *)
Theorem complete_mode_placement :
  (∀ t1 t2 t3 contigs,
     names_present contigs →
     ∃ res, complete t1 t2 t3 contigs = Ok res
          ∧ chrom_lines res
            = placement_line <$>
              filter (λ r, has_names r && passes_completeness r t1 t2 t3)
                     contigs
          ∧ unloc_lines res = [] ∧ unlocalised res = 0%N)
  ∧ (∀ t1 t2 t3 contigs,
       (∃ res, complete t1 t2 t3 contigs = Ok res) ↔ names_present contigs)
  ∧ (∀ r t1 t2 t3,
       passes_completeness r t1 t2 t3 = true ↔
       ∃ rcl rl,
         ref_covered_length r = Num rcl ∧ ref_length r = Num rl
         ∧ PrimFloat.ltb 0 rl = true
         ∧ PyFloat.ge (PrimFloat.div rcl rl) t1 = true
         ∧ PyFloat.ge
             (PrimFloat.div (stat_or_zero (query_coverage_percent r)) 100) t2
           = true
         ∧ PyFloat.ge
             (PrimFloat.div (stat_or_zero (overall_percent_identity r)) 100)
             t3
           = true)
  ∧ (∀ r t1 t2 t3,
       (∀ x, ref_covered_length r ≠ Num x) ∨ (∀ x, ref_length r ≠ Num x) →
       passes_completeness r t1 t2 t3 = false)
  ∧ (∀ r t1 t2 t3,
       ((∀ x, query_coverage_percent r ≠ Num x)
        ∧ PrimFloat.ltb 0 t2 = true)
       ∨ ((∀ x, overall_percent_identity r ≠ Num x)
          ∧ PrimFloat.ltb 0 t3 = true) →
       passes_completeness r t1 t2 t3 = false).
Proof.
  split; [|split; [|split; [|split]]].
  - intros t1 t2 t3 contigs Hnp. unfold complete.
    rewrite complete_go_spec by done.
    eexists. split; [done|]. simpl. done.
  - intros t1 t2 t3 contigs. split.
    + intros [res Hres]. by apply complete_go_Ok in Hres.
    + intros Hnp. unfold complete. rewrite complete_go_spec by done.
      by eexists.
  - apply passes_completeness_iff.
  - intros r t1 t2 t3 H. apply not_true_is_false.
    intros (rcl & rl & H1 & H2 & _)%passes_completeness_iff.
    destruct H as [H|H]; [by apply (H rcl)|by apply (H rl)].
  - intros r t1 t2 t3 H. apply not_true_is_false.
    intros (rcl & rl & _ & _ & _ & _ & Hq & Hi)%passes_completeness_iff.
    destruct H as [[H Ht]|[H Ht]].
    + destruct (query_coverage_percent r) as [| |x]; [| |by apply (H x)];
        unfold stat_or_zero in Hq; rewrite ?zero_div_100 in Hq;
        rewrite (zero_below_positive _ Ht) in Hq; done.
    + destruct (overall_percent_identity r) as [| |x]; [| |by apply (H x)];
        unfold stat_or_zero in Hi; rewrite ?zero_div_100 in Hi;
        rewrite (zero_below_positive _ Ht) in Hi; done.
Qed.

Lemma complete_mode_placement_witness :
  passes_completeness
    (Samples.stat_row "contig_7" "lp54" (Num 96) (Num 100) NaF (Num 99))
    0.95 0.9 0.9 = false.
Proof.
  destruct complete_mode_placement as (_ & _ & _ & H).
  apply H. left. split; [done|]. by vm_compute.
Defined.

(** C9, as stated, fails: with the query-coverage threshold at 0 a row whose
    query coverage cannot be read counts as 0, passes, and is placed; and a
    row that passes the three thresholds but is too short to have a contig
    id cell is not placed, the mode ending in [AttributeError]. *)
Lemma unreadable_coverage_placed :
  (¬ (∀ r t1 t2 t3,
        query_coverage_percent r = NaF →
        passes_completeness r t1 t2 t3 = false)
   ∧ ∃ res,
       complete 0.95 0 0.9
         [Samples.stat_row "contig_7" "lp54" (Num 96) (Num 100) NaF (Num 99)]
       = Ok res
       ∧ chrom_lines res = [chrom_line "contig_7" "lp54" "Linear-Plasmid"])
  ∧ passes_completeness
      (mk_row (Some "asm1") None (Some "lp54") Missing (Num 96) (Num 100)
              (Num 99) (Num 99)) 0.95 0.9 0.9 = true
  ∧ complete 0.95 0.9 0.9
      [mk_row (Some "asm1") None (Some "lp54") Missing (Num 96) (Num 100)
              (Num 99) (Num 99)]
    = Raise (AttributeError "strip").
Proof.
  split; [|split; by vm_compute].
  split.
  - intros H.
    specialize (H (Samples.stat_row "contig_7" "lp54" (Num 96) (Num 100) NaF
                     (Num 99)) 0.95%float 0%float 0.9%float eq_refl).
    vm_compute in H. done.
  - eexists. split; by vm_compute.
Qed.

End CompleteFacts.

(** ** Sorting by descending key *)

Section SortFacts.
Import PyList.
Context {A : Type} (f : A → Z).

Lemma insert_desc_Permutation x l : insert_desc f x l ≡ₚ x :: l.
Proof.
  induction l as [|y l IH]; simpl; [done|].
  case_bool_decide; [done|]. rewrite IH. apply Permutation_swap.
Qed.

Lemma insert_desc_sorted x l :
  StronglySorted (λ a b, f b ≤ f a) l →
  StronglySorted (λ a b, f b ≤ f a) (insert_desc f x l).
Proof.
  induction 1 as [|y l Hs IH Hy]; simpl.
  - by repeat constructor.
  - case_bool_decide as Hlt.
    + constructor; [by constructor|].
      constructor; [lia|]. eapply Forall_impl; [exact Hy|].
      intros z Hz. simpl in Hz. lia.
    + constructor; [done|]. rewrite insert_desc_Permutation.
      constructor; [lia|done].
Qed.

Lemma sort_desc_go acc l :
  StronglySorted (λ a b, f b ≤ f a) acc →
  StronglySorted (λ a b, f b ≤ f a) (foldl (λ acc x, insert_desc f x acc) acc l)
  ∧ foldl (λ acc x, insert_desc f x acc) acc l ≡ₚ acc ++ l.
Proof.
  revert acc. induction l as [|x l IH]; intros acc Hacc; simpl.
  - by rewrite app_nil_r.
  - destruct (IH (insert_desc f x acc)) as [Hs Hp];
      [by apply insert_desc_sorted|].
    split; [done|]. rewrite Hp, insert_desc_Permutation. simpl.
    apply Permutation_middle.
Qed.

Lemma sort_desc_Permutation l : sort_desc f l ≡ₚ l.
Proof. apply (sort_desc_go [] l). constructor. Qed.

Lemma sort_desc_sorted l : StronglySorted (λ a b, f b ≤ f a) (sort_desc f l).
Proof. apply (sort_desc_go [] l). constructor. Qed.

(** The first element of the sorted list has the greatest key. *)
Lemma sort_desc_head x rest l :
  sort_desc f l = x :: rest → ∀ y, y ∈ l → f y ≤ f x.
Proof.
  intros E y Hy. pose proof (sort_desc_sorted l) as Hs.
  rewrite <- sort_desc_Permutation, E in Hy. rewrite E in Hs.
  apply StronglySorted_inv in Hs as [_ Hall].
  apply elem_of_cons in Hy as [->|Hy]; [lia|].
  rewrite Forall_forall in Hall. by apply Hall.
Qed.

(** The stable sort puts first the earliest element of greatest key: what
    comes before it in the input has a smaller key. *)
Lemma sort_desc_foldl_split l h t pre post :
  Forall (λ y, f y < f h) pre → Forall (λ y, f y ≤ f h) post →
  ∃ h' t' pre' post',
    foldl (λ acc x, insert_desc f x acc) (h :: t) l = h' :: t'
    ∧ (pre ++ h :: post) ++ l = pre' ++ h' :: post'
    ∧ Forall (λ y, f y < f h') pre' ∧ Forall (λ y, f y ≤ f h') post'.
Proof.
  revert h t pre post. induction l as [|x l IH]; intros h t pre post Hpre Hpost.
  - exists h, t, pre, post. by rewrite app_nil_r.
  - cbn [foldl insert_desc]. case_bool_decide as Hlt.
    + destruct (IH x (h :: t) (pre ++ h :: post) []) as (h' & t' & pre' & post' & E1 & E2 & H1 & H2).
      * apply Forall_app. split.
        -- eapply Forall_impl; [exact Hpre|]. intros y Hy. simpl in Hy. lia.
        -- constructor; [done|].
           eapply Forall_impl; [exact Hpost|]. intros y Hy. simpl in Hy. lia.
      * constructor.
      * exists h', t', pre', post'. split; [done|]. split; [|done].
        rewrite <- E2. by list_simplifier.
    + destruct (IH h (insert_desc f x t) pre (post ++ [x]))
        as (h' & t' & pre' & post' & E1 & E2 & H1 & H2).
      * done.
      * apply Forall_app. split; [done|]. constructor; [lia|constructor].
      * exists h', t', pre', post'. split; [done|]. split; [|done].
        rewrite <- E2. by list_simplifier.
Qed.

Lemma sort_desc_head_split x rest l :
  sort_desc f l = x :: rest →
  ∃ l1 l2, l = l1 ++ x :: l2
         ∧ Forall (λ y, f y < f x) l1 ∧ Forall (λ y, f y ≤ f x) l2.
Proof.
  destruct l as [|a l]; [done|]. unfold sort_desc. cbn [foldl insert_desc].
  intros E.
  destruct (sort_desc_foldl_split l a [] [] []) as (h' & t' & pre' & post' & E1 & E2 & H1 & H2);
    [constructor..|].
  rewrite E1 in E. injection E as -> ->. by exists pre', post'.
Qed.

End SortFacts.

Section ResultFacts.

Lemma rmapM_Ok_all {A B} (f : A → result B) (g : A → B) l :
  (∀ a, a ∈ l → f a = Ok (g a)) → rmapM f l = Ok (g <$> l).
Proof.
  induction l as [|a l IH]; intros H; simpl; [done|].
  rewrite (H a) by left. simpl. rewrite IH; [done|].
  intros a' Ha'. apply H. by right.
Qed.

Lemma concat_fmap_fmap {A B C} (f : B → C) (g : A → list B) (l : list A) :
  concat ((λ a, f <$> g a) <$> l) = f <$> concat (g <$> l).
Proof.
  induction l as [|a l IH]; [done|].
  rewrite !fmap_cons. cbn [concat]. by rewrite IH, fmap_app.
Qed.

End ResultFacts.

(** ** generate_chromosome_lists.py: classified mode *)

Section ClassifiedFacts.
Import PyStr PyList ChromosomeLists.

Lemma concat_fmap_bind {A B} (f : A → list B) (l : list A) :
  concat (f <$> l) = l ≫= f.
Proof.
  induction l as [|a l IH]; [done|].
  rewrite fmap_cons, bind_cons. cbn [concat]. by rewrite IH.
Qed.

(** Appending a row to its group appends it to the rows of the table. *)
Lemma group_insert_rows (m : gmap string (list (Z * row))) c x :
  map_to_list (<[c := default [] (m !! c) ++ [x]]> m) ≫= snd
  ≡ₚ (map_to_list m ≫= snd) ++ [x].
Proof.
  destruct (m !! c) as [lst|] eqn:E; simpl.
  - rewrite <- insert_delete_eq.
    rewrite map_to_list_insert by apply lookup_delete_eq.
    rewrite <- (map_to_list_delete m c lst E).
    rewrite !bind_cons. simpl. rewrite <- !app_assoc.
    apply Permutation_app_head. apply Permutation_app_comm.
  - rewrite map_to_list_insert by done. rewrite bind_cons. simpl.
    apply Permutation_cons_append.
Qed.

Lemma replicon_of_Some r pn : plasmid_name r = Some pn → replicon_of r = strip pn.
Proof. intros E. unfold replicon_of. by rewrite E. Qed.

Lemma is_classified_test r :
  bool_decide (replicon_of r = "")
  || bool_decide (lower (replicon_of r) = "unclassified")
  = negb (is_classified r).
Proof. unfold is_classified. by rewrite negb_involutive. Qed.

(** [int(float(...))] returns for every column but an infinity. *)
Lemma contig_length_Ok_iff c :
  (∃ n, contig_length c = Ok n) ↔ is_infinite c = false.
Proof.
  unfold contig_length, is_infinite.
  destruct c as [| |x]; cbn [try_float]; [split; [done|by eexists]..|].
  rewrite <- not_true_iff_false, is_infinity_Prim2SF.
  unfold PyFloat.to_int.
  destruct (Prim2SF x) as [s|s| |s m e]; cbn [rbind].
  - split; [by intros _ [? ?]|by eexists].
  - split; [by intros [? ?]|]. intros H. exfalso. apply H. by eexists.
  - split; [by intros _ [? ?]|by eexists].
  - split; [by intros _ [? ?]|by eexists].
Qed.

Lemma well_formed_cons r contigs :
  well_formed (r :: contigs) → well_formed contigs.
Proof. intros Hwf r' Hr'. apply Hwf. by right. Qed.

(** The first loop of classified mode, from any state of the table. *)
Lemma group_by_replicon_spec contigs m0 n0 :
  well_formed contigs →
  (∀ c lst, m0 !! c = Some lst → group_ok c lst) →
  ∃ m,
    group_by_replicon contigs m0 n0
    = Ok (m, (n0 + N.of_nat
                     (length (filter (λ r, ¬ is_classified r) contigs)))%N)
    ∧ (∀ c lst, m !! c = Some lst → group_ok c lst)
    ∧ map_to_list m ≫= snd
      ≡ₚ (map_to_list m0 ≫= snd)
         ++ ((λ r, (length_of r, r)) <$> filter is_classified contigs)
    ∧ (∀ c, default [] (m !! c)
            = default [] (m0 !! c)
              ++ ((λ r, (length_of r, r))
                    <$> filter (λ r, is_classified r ∧ replicon_of r = c)
                               contigs)).
Proof.
  revert m0 n0. induction contigs as [|r contigs IH]; intros m0 n0 Hwf Hm0.
  { exists m0. simpl. rewrite N.add_0_r, app_nil_r.
    split; [done|]. split; [done|]. split; [done|].
    intros c. by rewrite app_nil_r. }
  pose proof (well_formed_cons _ _ Hwf) as Hwf'.
  destruct (Hwf r) as [[pn Epn] Hcl]; [left|].
  cbn [group_by_replicon]. rewrite Epn. cbn [strip_cell rbind].
  rewrite <- (replicon_of_Some r pn Epn), is_classified_test.
  destruct (is_classified r) eqn:Hc; cbn [negb].
  - destruct Hcl as ((cid & Ecid & Hid) & (n & Hn)%contig_length_Ok_iff);
      [done|].
    rewrite Hn. cbn [rbind].
    assert (Hlen : length_of r = n) by (unfold length_of; by rewrite Hn).
    destruct (IH (<[replicon_of r :=
                     default [] (m0 !! replicon_of r) ++ [(n, r)]]>
                    m0) n0 Hwf') as (m & Hg & Hok & Hperm & Hlook).
    { intros c lst Hl. apply lookup_insert_Some in Hl as [[<- <-]|[Hne Hl]];
        [|by apply Hm0].
      split; [by destruct (default [] _)|].
      intros cr [Hcr|Hcr%list_elem_of_singleton]%elem_of_app.
      - destruct (m0 !! replicon_of r) as [old|] eqn:E; simpl in Hcr;
          [|by apply elem_of_nil in Hcr].
        by apply (Hm0 _ _ E).
      - subst cr. simpl. rewrite Hlen. split; [done|]. split; [done|].
        by exists cid. }
    exists m. rewrite Hg.
    rewrite filter_cons_False by (rewrite Hc; simpl; tauto).
    rewrite filter_cons_True by (by rewrite Hc).
    split; [done|]. split; [done|]. split.
    + rewrite Hperm, group_insert_rows, fmap_cons, Hlen.
      by rewrite <- app_assoc.
    + intros c. rewrite Hlook.
      destruct (decide (replicon_of r = c)) as [<-|Hne].
      * rewrite lookup_insert_eq. simpl.
        rewrite filter_cons_True by (by rewrite Hc).
        rewrite fmap_cons, Hlen. by rewrite <- app_assoc.
      * rewrite lookup_insert_ne by done.
        by rewrite filter_cons_False by tauto.
  - destruct (IH m0 (n0 + 1)%N Hwf' Hm0) as (m & Hg & Hok & Hperm & Hlook).
    exists m. rewrite Hg.
    rewrite filter_cons_True by (rewrite Hc; simpl; tauto).
    rewrite filter_cons_False by (rewrite Hc; simpl; tauto).
    split; [|split; [done|split; [done|]]].
    + simpl. do 2 f_equal. lia.
    + intros c. rewrite Hlook.
      by rewrite filter_cons_False by (rewrite Hc; simpl; tauto).
Qed.

Lemma place_group_Ok c lst :
  group_ok c lst →
  place_group c lst
  = Ok (placement_line <$> primary_of lst, fragment_line <$> fragments_of lst).
Proof.
  intros [_ Hok]. unfold place_group.
  rewrite (rmapM_Ok_all _ (λ cr, (placement_line cr.2, fragment_line cr.2))).
  - simpl. unfold primary_of, fragments_of.
    by rewrite <- fmap_take, <- fmap_drop, <- !list_fmap_compose.
  - intros cr Hcr. rewrite sort_desc_Permutation in Hcr.
    destruct (Hok cr Hcr) as (Hc & _ & cid & Ecid & Hid).
    rewrite Ecid. cbn [strip_cell rbind].
    rewrite (parse_contig_name_Ok _ _ Ecid Hid). simpl.
    unfold placement_line, fragment_line, topo_type. by rewrite Hc.
Qed.

(** A group that is not empty has one primary, and its call is the
    group's. *)
Lemma primary_of_group c lst :
  group_ok c lst →
  ∃ p rest,
    sort_desc fst lst = p :: rest ∧ primary_of lst = [p.2]
    ∧ p ∈ lst ∧ replicon_of p.2 = c.
Proof.
  intros [Hne Hok]. unfold primary_of.
  destruct (sort_desc fst lst) as [|p rest] eqn:E.
  - exfalso. apply Hne. apply Permutation_nil_r.
    by rewrite <- (sort_desc_Permutation fst lst), E.
  - assert (Hp : p ∈ lst).
    { rewrite <- (sort_desc_Permutation fst lst), E. left. }
    exists p, rest. repeat split; try done. by apply Hok.
Qed.

Lemma primaries_calls items :
  (∀ it, it ∈ items → group_ok it.1 it.2) →
  replicon_of <$> (items ≫= λ it, primary_of it.2) = items.*1.
Proof.
  induction items as [|it items IH]; intros H; [done|].
  rewrite bind_cons, fmap_app, fmap_cons, IH
    by (intros it' Hit'; apply H; by right).
  destruct (primary_of_group it.1 it.2) as (p & rest & _ & -> & _ & Hc);
    [apply H; left|].
  simpl. by rewrite Hc.
Qed.

Lemma primaries_fragments_rows (items : list (string * list (Z * row))) :
  (items ≫= λ it, primary_of it.2) ++ (items ≫= λ it, fragments_of it.2)
  ≡ₚ snd <$> (items ≫= snd).
Proof.
  induction items as [|it items IH]; [done|].
  rewrite !bind_cons, fmap_app, <- IH.
  assert (E : primary_of it.2 ++ fragments_of it.2 ≡ₚ it.2.*2).
  { unfold primary_of, fragments_of.
    rewrite <- fmap_app, take_drop. by rewrite sort_desc_Permutation. }
  rewrite <- E, <- !app_assoc. apply Permutation_app_head.
  rewrite !app_assoc. apply Permutation_app_tail. apply Permutation_app_comm.
Qed.

(** What classified mode returns on rows it can work through: [items] are
    the calls in ascending order, each with its rows in table order. *)
Lemma classified_well_formed contigs :
  well_formed contigs →
  ∃ items : list (string * list (Z * row)),
    classified contigs
    = Ok {| chrom_lines := placement_line <$> (items ≫= λ it, primary_of it.2);
            unloc_lines :=
              fragment_line <$> (items ≫= λ it, fragments_of it.2);
            placed :=
              N.of_nat (length (placement_line <$>
                                (items ≫= λ it, primary_of it.2)));
            unlocalised :=
              N.of_nat (length (fragment_line <$>
                                (items ≫= λ it, fragments_of it.2)));
            unplaced :=
              N.of_nat (length (filter (λ r, ¬ is_classified r) contigs)) |}
    ∧ (∀ it, it ∈ items → group_ok it.1 it.2)
    ∧ StronglySorted item_le items
    ∧ NoDup items.*1
    ∧ snd <$> (items ≫= snd) ≡ₚ filter is_classified contigs
    ∧ (∀ it, it ∈ items →
         it.2 = (λ r, (length_of r, r))
                  <$> filter (λ r, is_classified r ∧ replicon_of r = it.1)
                             contigs).
Proof.
  intros Hwf.
  destruct (group_by_replicon_spec contigs ∅ 0%N Hwf)
    as (m & Hg & Hok & Hperm & Hlook); [intros c lst; by rewrite lookup_empty|].
  rewrite map_to_list_empty in Hperm. simpl in Hperm.
  exists (merge_sort item_le (map_to_list m)).
  set (items := merge_sort item_le (map_to_list m)).
  assert (Hitems : items ≡ₚ map_to_list m) by apply merge_sort_Permutation.
  assert (Hgroups : ∀ it, it ∈ items → group_ok it.1 it.2).
  { intros [c lst] Hit. rewrite Hitems in Hit.
    apply elem_of_map_to_list in Hit. by apply (Hok c lst). }
  split; [|split; [done|split; [|split; [|split]]]].
  - unfold classified. rewrite Hg. simpl. fold items.
    rewrite (rmapM_Ok_all _
               (λ it, (placement_line <$> primary_of it.2,
                       fragment_line <$> fragments_of it.2)))
      by (intros it Hit; by apply place_group_Ok, Hgroups).
    simpl. rewrite <- !list_fmap_compose.
    change (fst ∘ _)
      with (λ it : string * list (Z * row),
              placement_line <$> primary_of it.2).
    change (snd ∘ _)
      with (λ it : string * list (Z * row),
              fragment_line <$> fragments_of it.2).
    rewrite (concat_fmap_fmap placement_line (λ it, primary_of it.2) items).
    rewrite (concat_fmap_fmap fragment_line (λ it, fragments_of it.2) items).
    by rewrite !concat_fmap_bind, N.add_0_l.
  - apply StronglySorted_merge_sort.
    + intros a b c. unfold item_le. apply transitivity.
    + intros a b. unfold item_le. apply (total String.le).
  - rewrite Hitems. apply NoDup_fst_map_to_list.
  - rewrite Hitems, Hperm. clear.
    induction (filter is_classified contigs) as [|r l IH]; [done|].
    rewrite !fmap_cons. simpl. by rewrite IH.
  - intros [c lst] Hit. rewrite Hitems in Hit.
    apply elem_of_map_to_list in Hit. simpl.
    specialize (Hlook c). rewrite Hit, lookup_empty in Hlook. exact Hlook.
Qed.

(** The primary of a call is the first of its rows, in table order, that
    none exceeds. *)
Lemma primary_first_longest contigs c :
  ∀ p, p ∈ primary_of ((λ r, (length_of r, r))
                         <$> filter (λ r, is_classified r ∧ replicon_of r = c)
                                    contigs) →
  ∃ before after,
    filter (λ r, is_classified r ∧ replicon_of r = c) contigs
    = before ++ p :: after
    ∧ Forall (λ r, length_of r < length_of p) before
    ∧ Forall (λ r, length_of r ≤ length_of p) after.
Proof.
  intros p. unfold primary_of.
  set (rows := filter (λ r, is_classified r ∧ replicon_of r = c) contigs).
  destruct (sort_desc fst ((λ r, (length_of r, r)) <$> rows))
    as [|q rest] eqn:E; [by intros ?%elem_of_nil|].
  cbn [take fmap list_fmap]. intros ->%list_elem_of_singleton.
  apply sort_desc_head_split in E as (l1 & l2 & E & H1 & H2).
  apply fmap_app_inv in E as (before & rest' & -> & E & ->).
  symmetry in E. apply fmap_cons_inv in E as (r & after & -> & -> & ->).
  exists before, after. split; [done|]. simpl. split.
  - apply Forall_forall. intros y Hy. rewrite Forall_forall in H1.
    apply (H1 (length_of y, y)). apply list_elem_of_fmap. by exists y.
  - apply Forall_forall. intros y Hy. rewrite Forall_forall in H2.
    apply (H2 (length_of y, y)). apply list_elem_of_fmap. by exists y.
Qed.

End ClassifiedFacts.

Section ClassifiedPlacement.
Import PyStr PyList ChromosomeLists.

(** C8, as amended.  In classified mode, for the rows of one assembly
    whose call cells are present and whose classified rows have a contig id
    and a length that is not infinite: the rows whose call is empty or
    "unclassified" are counted as unplaced and appear in neither list;
    every other row appears exactly once, as the primary of its call in the
    chromosome list or as a fragment in the unlocalised list, under the
    sanitized call.  Each call has one primary: the first of its rows, in
    table order, whose length no row of the call exceeds, the length being
    the integer part of contig_len and 0 when it cannot be read.  For
    A (1000, lp54), B (400, lp54) and C (900, chromosome), in this order or
    with B first, the chromosome list is C as main, Linear-Chromosome, and
    A as lp54, Linear-Plasmid, and the unlocalised list is B as lp54. *)
Theorem classified_mode_placement :
  (∀ contigs, well_formed contigs →
     ∃ res prim frag,
       classified contigs = Ok res
       ∧ chrom_lines res = placement_line <$> prim
       ∧ unloc_lines res = fragment_line <$> frag
       ∧ prim ++ frag ≡ₚ filter is_classified contigs
       ∧ NoDup (replicon_of <$> prim)
       ∧ (∀ r, r ∈ contigs → is_classified r →
            ∃ p, p ∈ prim ∧ replicon_of p = replicon_of r
               ∧ length_of r ≤ length_of p)
       ∧ (∀ p, p ∈ prim →
            ∃ before after,
              filter (λ r, is_classified r ∧ replicon_of r = replicon_of p)
                     contigs
              = before ++ p :: after
              ∧ Forall (λ r, length_of r < length_of p) before
              ∧ Forall (λ r, length_of r ≤ length_of p) after)
       ∧ unplaced res
         = N.of_nat (length (filter (λ r, ¬ is_classified r) contigs)))
  ∧ (∀ r, length_of r
          = match contig_len r with
            | Num x => match PyFloat.to_int x with
                       | Ok (Some n) => n
                       | _ => 0
                       end
            | _ => 0
            end)
  ∧ length_of <$> Samples.abc = [1000; 400; 900]
  ∧ classified Samples.abc
    = Ok {| chrom_lines := [chrom_line "C" "main" "Linear-Chromosome";
                            chrom_line "A" "lp54" "Linear-Plasmid"];
            unloc_lines := [unloc_line "B" "lp54"];
            placed := 2; unlocalised := 1; unplaced := 0 |}
  ∧ classified Samples.bac
    = Ok {| chrom_lines := [chrom_line "C" "main" "Linear-Chromosome";
                            chrom_line "A" "lp54" "Linear-Plasmid"];
            unloc_lines := [unloc_line "B" "lp54"];
            placed := 2; unlocalised := 1; unplaced := 0 |}.
Proof.
  split; [|split; [|repeat split; by vm_compute]].
  2: { intros r. unfold length_of, contig_length.
       destruct (contig_len r) as [| |x]; [by vm_compute|done|].
       cbn [try_float]. by destruct (PyFloat.to_int x) as [[n|]|]. }
  intros contigs Hwf.
  destruct (classified_well_formed contigs Hwf)
    as (items & E & Hgroups & _ & Hnd & Hrows & Hlook).
  eexists _, (items ≫= λ it, primary_of it.2),
    (items ≫= λ it, fragments_of it.2).
  split; [exact E|]. cbn [chrom_lines unloc_lines unplaced].
  split; [done|]. split; [done|].
  split; [by rewrite primaries_fragments_rows|].
  split; [by rewrite primaries_calls|].
  split; [|split; [|done]].
  - intros r Hr Hc.
    assert (Hin : r ∈ snd <$> (items ≫= snd)).
    { rewrite Hrows. by apply list_elem_of_filter. }
    apply list_elem_of_fmap in Hin as (x & -> & Hx).
    apply list_elem_of_bind in Hx as (it & Hrl & Hit).
    destruct (primary_of_group it.1 it.2 (Hgroups it Hit))
      as (p & rest & Hsort & Hprim & Hp & Hpc).
    destruct (Hgroups it Hit) as [_ Hall].
    destruct (Hall _ Hrl) as (Hrc & Hxl & _).
    destruct (Hall _ Hp) as (_ & Hpl & _).
    exists p.2. split; [|split].
    + apply list_elem_of_bind. exists it. split; [|done]. rewrite Hprim. left.
    + congruence.
    + rewrite <- Hpl, <- Hxl. apply (sort_desc_head fst p rest it.2 Hsort _ Hrl).
  - intros p (it & Hp & Hit)%list_elem_of_bind.
    destruct (primary_of_group it.1 it.2 (Hgroups it Hit))
      as (q & rest & _ & Hprim & _ & Hqc).
    assert (Hpc : replicon_of p = it.1).
    { rewrite Hprim in Hp. by apply list_elem_of_singleton in Hp as ->. }
    rewrite Hpc. apply primary_first_longest. by rewrite <- (Hlook it Hit).
Qed.

Lemma classified_mode_placement_witness :
  ∃ res prim frag,
    classified Samples.bac = Ok res
    ∧ chrom_lines res = placement_line <$> prim
    ∧ unloc_lines res = fragment_line <$> frag
    ∧ NoDup (replicon_of <$> prim).
Proof.
  destruct (proj1 classified_mode_placement Samples.bac)
    as (res & prim & frag & H1 & H2 & H3 & _ & H4 & _).
  - intros r Hr. unfold Samples.bac in Hr.
    rewrite !elem_of_cons, elem_of_nil in Hr.
    destruct Hr as [->|[->|[->|[]]]];
      (split; [by eexists|]; intros _;
       split; [eexists; split; [done|by vm_compute]|by vm_compute]).
  - exists res, prim, frag.
    split; [exact H1|]. split; [exact H2|]. split; [exact H3|exact H4].
Defined.

(** C8, as stated, fails: a classified row without contig id ends the mode
    in [IndexError], one with an infinite length in [OverflowError], and a
    row too short to have a call cell in [AttributeError], so that nothing
    is placed; and of two rows of one call with the lengths 1000.25 and
    1000.75 the first is the primary, the integer parts being equal, though
    the second is the longer. *)
Lemma classified_mode_not_always_longest :
  classified [Samples.len_row "" "lp54" (Num 1000)] = Raise IndexError
  ∧ classified [Samples.len_row "A" "lp54" (Num infinity)]
    = Raise OverflowError
  ∧ classified [mk_row (Some "asm1") (Some "A") None (Num 1000) Missing
                       Missing Missing Missing]
    = Raise (AttributeError "strip")
  ∧ classified [Samples.len_row "B" "lp54" (Num 1000.25);
                Samples.len_row "A" "lp54" (Num 1000.75)]
    = Ok {| chrom_lines := [chrom_line "B" "lp54" "Linear-Plasmid"];
            unloc_lines := [unloc_line "A" "lp54"];
            placed := 1; unlocalised := 1; unplaced := 0 |}.
Proof. repeat split; by vm_compute. Qed.

End ClassifiedPlacement.

(** ** Counters: totals *)

Section DistributionFacts.
Import PyList AddReplicon.

Lemma counter_total_add x c :
  counter_total (counter_add x c) = (counter_total c + 1)%N.
Proof.
  induction c as [|[y n] c IH]; simpl; [done|].
  case_bool_decide; simpl; [lia|]. rewrite IH. lia.
Qed.

Lemma counter_total_foldl l c :
  counter_total (foldl (λ c x, counter_add x c) c l)
  = (counter_total c + N.of_nat (length l))%N.
Proof.
  revert c. induction l as [|x l IH]; intros c; simpl; [lia|].
  rewrite IH, counter_total_add. lia.
Qed.

Lemma Counter_total l : counter_total (Counter l) = N.of_nat (length l).
Proof. unfold Counter. by rewrite counter_total_foldl. Qed.

Lemma counter_total_elem p c : p ∈ c → (p.2 ≤ counter_total c)%N.
Proof.
  induction c as [|q c IH]; intros Hp; [by apply elem_of_nil in Hp|].
  simpl. apply elem_of_cons in Hp as [->|Hp]; [lia|].
  specialize (IH Hp). lia.
Qed.

Lemma Counter_positive p l : p ∈ Counter l → (0 < p.2)%N.
Proof.
  destruct p as [x n]. intros Hp. rewrite (Counter_elem x n l Hp). simpl.
  assert (Hx : x ∈ l).
  { apply first_seen_elem. rewrite <- Counter_keys.
    apply list_elem_of_fmap. by exists (x, n). }
  unfold count. apply list_elem_of_split in Hx as (l1 & l2 & ->).
  rewrite filter_app, filter_cons_True by done.
  rewrite length_app. simpl. lia.
Qed.

Lemma Counter_length l : length (Counter l) = length (first_seen l).
Proof. by rewrite <- Counter_keys, length_fmap. Qed.

(** [Counter l] lists the distinct elements where each is first met, with
    the number of its occurrences. *)
Lemma Counter_eq l : Counter l = (λ x, (x, count x l)) <$> first_seen l.
Proof.
  rewrite <- Counter_keys, <- list_fmap_compose.
  rewrite <- (list_fmap_id (Counter l)) at 1.
  apply list_fmap_ext. intros i [x n] Hi. simpl.
  f_equal. apply Counter_elem. by apply list_elem_of_lookup_2 in Hi.
Qed.

End DistributionFacts.

(** * Further properties *)

(** ** Strings: lengths and appended characters *)

Section StringAppFacts.
Import PyStr.

Lemma length_app_string a b :
  String.length (a +:+ b) = (String.length a + String.length b)%nat.
Proof. induction a as [|c a IH]; simpl; [done|]. by rewrite IH. Qed.

Lemma lower_app a b : lower (a +:+ b) = lower a +:+ lower b.
Proof. induction a as [|c a IH]; simpl; [done|]. by rewrite IH. Qed.

Lemma lower_length s : String.length (lower s) = String.length s.
Proof. induction s as [|c s IH]; simpl; [done|]. by rewrite IH. Qed.

Lemma lstrip_length s : (String.length (lstrip s) ≤ String.length s)%nat.
Proof.
  induction s as [|c s IH]; simpl; [done|]. destruct (isspace c); simpl; lia.
Qed.

Lemma rstrip_with_length p s :
  (String.length (rstrip_with p s) ≤ String.length s)%nat.
Proof.
  induction s as [|c s IH]; simpl; [done|].
  destruct (rstrip_with p s); [destruct (p c)|]; simpl in *; lia.
Qed.

(** A trimmed string does not begin with a space. *)
Lemma strip_fixed_head a s : strip (String a s) = String a s → isspace a = false.
Proof.
  intros H. destruct (isspace a) eqn:Ea; [|done]. exfalso.
  unfold strip in H. simpl in H. rewrite Ea in H.
  pose proof (rstrip_with_length isspace (lstrip s)) as H1.
  pose proof (lstrip_length s) as H2.
  unfold rstrip in H. rewrite H in H1. simpl in H1. lia.
Qed.

(** A last character that [p] rejects protects the whole string. *)
Lemma rstrip_with_app_keep p s c :
  p c = false →
  rstrip_with p (s +:+ String c "") = s +:+ String c "".
Proof.
  intros Hc. induction s as [|x s IH]; simpl; [by rewrite Hc|].
  rewrite IH. by destruct s.
Qed.

(** A last character that [p] accepts goes with the rest of the run. *)
Lemma rstrip_with_app_drop p s c :
  p c = true → rstrip_with p (s +:+ String c "") = rstrip_with p s.
Proof.
  intros Hc. induction s as [|x s IH]; simpl; [by rewrite Hc|].
  by rewrite IH.
Qed.

Lemma strip_app_char s c :
  s ≠ "" → strip s = s → isspace c = false →
  strip (s +:+ String c "") = s +:+ String c "".
Proof.
  intros Hs Hfix Hc. destruct s as [|a s]; [done|].
  pose proof (strip_fixed_head a s Hfix) as Ha.
  unfold strip. change (String a s +:+ String c "")
    with (String a (s +:+ String c "")).
  simpl. rewrite Ha.
  change (String a (s +:+ String c "")) with (String a s +:+ String c "").
  by apply rstrip_with_app_keep.
Qed.

End StringAppFacts.

(** ** compare_calls.py: the normal form of a call *)

Section NormalFormFacts.
Import PyStr CompareCalls.

(** X1.  A normalized call is lower-cased and trimmed, and normalizing does
    not see the letter case of its argument. *)
Theorem normalize_call_normal_form x :
  lower (normalize_call x) = normalize_call x
  ∧ strip (normalize_call x) = normalize_call x
  ∧ normalize_call (lower x) = normalize_call x.
Proof.
  split; [|split].
  - destruct (normalize_call_cases x) as [->| ->]; [done|apply lower_idem].
  - destruct (normalize_call_cases x) as [->| ->]; [done|].
    by rewrite strip_lower, strip_idem.
  - unfold normalize_call. rewrite lower_idem, strip_lower, lower_idem.
    destruct x; done.
Qed.

(** X2.  A call is empty exactly when it is one of the sentinel words in
    any letter case, untrimmed, or consists of white space only. *)
Theorem is_empty_iff x :
  is_empty x = true ↔ lower x ∈ empty_words ∨ all_space x = true.
Proof.
  unfold is_empty. rewrite bool_decide_eq_true.
  destruct (decide (lower x ∈ empty_words)) as [Hw|Hw].
  { rewrite normalize_call_empty_word by done. tauto. }
  destruct (decide (x = "")) as [->|Hx].
  { split; [by right|done]. }
  rewrite normalize_call_other by done.
  rewrite lower_empty, strip_empty. tauto.
Qed.

End NormalFormFacts.

(** ** compare_calls.py: a call and its starred form *)

Section SuffixFacts.
Import PyStr CompareCalls.

Lemma is_star_star : bool_decide ("*"%char = "*"%char) = true.
Proof. reflexivity. Qed.

(** A string that ends in a star is none of the sentinel words. *)
Lemma starred_not_word s : s +:+ "*" ∉ empty_words.
Proof.
  intros H.
  assert (E : rstrip_with (λ c, bool_decide (c = "*"%char)) (s +:+ "*")
              = s +:+ "*").
  { unfold empty_words in H. rewrite !elem_of_cons, elem_of_nil in H.
    destruct H as [->|[->|[->|[->|[->|[]]]]]]; reflexivity. }
  rewrite rstrip_with_app_drop in E by done.
  pose proof (rstrip_with_length (λ c, bool_decide (c = "*"%char)) s) as Hl.
  rewrite E, length_app_string in Hl. simpl in Hl. lia.
Qed.

Lemma normalize_call_trimmed c :
  strip c = c → is_empty c = false → normalize_call c = lower c ∧ c ≠ "".
Proof.
  intros Hc He. unfold is_empty in He. apply bool_decide_eq_false in He.
  destruct (normalize_call_cases c) as [E|E]; [done|].
  rewrite Hc in E. split; [done|]. intros ->. by apply He.
Qed.

Lemma normalize_call_starred c :
  strip c = c → c ≠ "" → normalize_call (c +:+ "*") = lower c +:+ "*".
Proof.
  intros Hc Hne. rewrite normalize_call_other.
  - rewrite strip_app_char by done. by rewrite lower_app.
  - by destruct c.
  - rewrite lower_app. apply starred_not_word.
Qed.

(** X3.  A trimmed, non-empty call and the same call with a star added are
    an annotation_suffix pair, whichever of the two is the old call, and
    the old call is the resolution. *)
Theorem categorize_starred c :
  strip c = c → is_empty c = false →
  categorize c (c +:+ "*") = Ok ("annotation_suffix", c)
  ∧ categorize (c +:+ "*") c = Ok ("annotation_suffix", c +:+ "*").
Proof.
  intros Hc He.
  destruct (normalize_call_trimmed c Hc He) as [Hn Hne].
  pose proof (normalize_call_starred c Hc Hne) as Hs.
  assert (Hes : is_empty (c +:+ "*") = false).
  { unfold is_empty. apply bool_decide_eq_false_2. rewrite Hs.
    by destruct (lower c). }
  assert (Hdiff : lower c ≠ lower c +:+ "*").
  { intros E. apply (f_equal String.length) in E.
    rewrite length_app_string in E. simpl in E. lia. }
  assert (Hlc : strip (lower c) = lower c) by (by rewrite strip_lower, Hc).
  assert (Hlne : lower c ≠ "") by (by rewrite lower_empty).
  assert (Hsuf : strip_suffix (lower c +:+ "*") = strip_suffix (lower c)).
  { unfold strip_suffix. rewrite strip_app_char, Hlc by done.
    by apply rstrip_with_app_drop. }
  assert (Hstar : strip (c +:+ "*") = c +:+ "*")
    by (by apply strip_app_char).
  unfold categorize. rewrite He, Hes, Hn, Hs. simpl.
  rewrite (bool_decide_eq_false_2 (lower c = lower c +:+ "*")) by done.
  rewrite (bool_decide_eq_false_2 (lower c +:+ "*" = lower c))
    by (by intros E; apply Hdiff).
  rewrite Hsuf, !bool_decide_eq_true_2 by done.
  by rewrite Hc, Hstar.
Qed.

Lemma categorize_starred_witness :
  categorize "lp28-1" "lp28-1*" = Ok ("annotation_suffix", "lp28-1").
Proof. apply (categorize_starred "lp28-1"); reflexivity. Defined.

End SuffixFacts.

(** ** compare_calls.py: what a run can write *)

Section RunFacts.
Import PyStr CompareCalls.

Lemma rmapM_Forall2 {A B} (f : A → result B) l bs :
  rmapM f l = Ok bs → Forall2 (λ a b, f a = Ok b) l bs.
Proof.
  revert bs. induction l as [|a l IH]; intros bs; simpl.
  - intros [= <-]. constructor.
  - destruct (f a) as [b|] eqn:Ea; simpl; [|done].
    destruct (rmapM f l) as [bs'|] eqn:El; simpl; [|done].
    intros [= <-]. constructor; [done|]. by apply IH.
Qed.

Lemma rmapM_Raise_inv {A B} (f : A → result B) l e :
  rmapM f l = Raise e → ∃ a, a ∈ l ∧ f a = Raise e.
Proof.
  induction l as [|a l IH]; simpl; [done|].
  destruct (f a) as [b|e'] eqn:Ea; simpl.
  - destruct (rmapM f l) as [bs|e'] eqn:El; simpl; [done|].
    intros [= <-]. destruct (IH eq_refl) as (a' & Ha' & Hf).
    exists a'. split; [by right|done].
  - intros [= <-]. exists a. split; [left|done].
Qed.

(** The only exception [categorize] raises. *)
Lemma categorize_Raise_inv old new e :
  categorize old new = Raise e → e = NameError "old_base_plasmid_calls".
Proof.
  unfold categorize.
  destruct (is_empty old), (is_empty new); simpl; try done.
  case_bool_decide as H1; [done|]. case_bool_decide as H2; [done|].
  by intros [= <-].
Qed.

Variable auto_chromosome_bp : Z.
Variables old_calls new_calls : gmap key string.
Variable contig_lengths : gmap key Z.
Variable overrides : gmap key string.

Lemma first_pass_categories k cat res :
  first_pass old_calls new_calls k = Ok (cat, res) →
  cat ∈ "old_only" :: "new_only" :: early_categories.
Proof.
  unfold first_pass. case_bool_decide as H1; [intros [= <- <-]; left|].
  case_bool_decide as H2; [intros [= <- <-]; right; left|].
  intros H%categorize_early. by do 2 right.
Qed.

Lemma auto_chromosome_other k cat res :
  cat ≠ "different" →
  auto_chromosome auto_chromosome_bp old_calls new_calls contig_lengths k
    (cat, res) = (cat, res).
Proof.
  intros H. unfold auto_chromosome.
  rewrite (bool_decide_eq_false_2 (cat = "different")) by done.
  rewrite andb_false_r. simpl.
  rewrite (bool_decide_eq_false_2 (cat = "different")) by done.
  by rewrite andb_false_r.
Qed.

Lemma process_key_Raise_inv k e :
  process_key auto_chromosome_bp old_calls new_calls contig_lengths overrides
    k = Raise e →
  e = NameError "old_base_plasmid_calls".
Proof.
  unfold process_key, first_pass.
  case_bool_decide as H1;
    [simpl; by destruct (apply_override overrides k _)|].
  case_bool_decide as H2;
    [simpl; by destruct (apply_override overrides k _)|].
  destruct (categorize _ _) as [cr|e'] eqn:E; simpl.
  - by destruct (apply_override overrides k _).
  - intros [= <-]. by apply categorize_Raise_inv in E.
Qed.

Lemma process_key_category k r :
  process_key auto_chromosome_bp old_calls new_calls contig_lengths overrides
    k = Ok r →
  category r ∈ run_categories.
Proof.
  intros Hr.
  destruct (first_pass old_calls new_calls k) as [[cat res]|] eqn:Hfp;
    [|by unfold process_key in Hr; rewrite Hfp in Hr].
  destruct (process_key_Ok auto_chromosome_bp old_calls new_calls
              contig_lengths overrides k _ Hfp) as (r' & Hr' & Hcat & _).
  rewrite Hr in Hr'. injection Hr' as <-.
  pose proof (first_pass_categories _ _ _ Hfp) as Hin.
  assert (Hnd : cat ≠ "different").
  { intros ->. unfold early_categories in Hin.
    rewrite !elem_of_cons, elem_of_nil in Hin.
    intuition discriminate. }
  rewrite (auto_chromosome_other _ _ _ Hnd) in Hcat.
  unfold apply_override in Hcat.
  assert (Hrun : cat ∈ run_categories).
  { unfold run_categories, early_categories in *.
    rewrite !elem_of_cons, elem_of_nil in Hin.
    rewrite !elem_of_cons. tauto. }
  destruct (overrides !! k) as [v|]; [|by injection Hcat as -> _].
  case_bool_decide; injection Hcat as -> _; [done|].
  unfold run_categories. rewrite !elem_of_cons. tauto.
Qed.

(** X4.  Every row of a finished run carries one of seven categories;
    different, partial_overlap, extra_annotation, base_match,
    same_family_tiebreak and auto_chromosome are not among them, so the
    rows listed for manual review are all new_unclassified. *)
Theorem finished_run_categories rows :
  main_rows auto_chromosome_bp old_calls new_calls contig_lengths overrides
  = Ok rows →
  (∀ r, r ∈ rows →
     category r ∈ run_categories
     ∧ category r ∉ "auto_chromosome" :: late_categories)
  ∧ (∀ r, r ∈ needs_review rows → category r = "new_unclassified").
Proof.
  intros Hrows.
  assert (Hall : ∀ r, r ∈ rows → category r ∈ run_categories).
  { intros r Hr. destruct (rmapM_Ok_elem _ _ _ _ Hrows Hr) as (k & _ & Hk).
    by apply (process_key_category k). }
  split.
  - intros r Hr. specialize (Hall r Hr). split; [done|].
    unfold run_categories, late_categories in *.
    rewrite !elem_of_cons, elem_of_nil in *.
    intuition (match goal with H : category r = _ |- _ => rewrite H in * end;
               discriminate).
  - intros r [Hcat Hr]%list_elem_of_filter. specialize (Hall r Hr).
    unfold run_categories in Hall.
    rewrite !elem_of_cons, elem_of_nil in *.
    intuition (try done;
               match goal with H : category r = _, H' : category r = _ |- _ =>
                 rewrite H in H'; discriminate end).
Qed.

(** X7.  One differing pair of calls stops the run: when a key of both
    tables has two non-empty calls that differ after their stars are
    stripped, the run ends in the [NameError] and writes no row, whatever
    the threshold and the overrides. *)
Theorem differing_calls_abort_run k old new :
  old_calls !! k = Some old → new_calls !! k = Some new →
  is_empty old = false → is_empty new = false →
  strip_suffix (normalize_call old) ≠ strip_suffix (normalize_call new) →
  main_rows auto_chromosome_bp old_calls new_calls contig_lengths overrides
  = Raise (NameError "old_base_plasmid_calls").
Proof.
  intros Ho Hn Heo Hen Hsuf.
  assert (Hk : process_key auto_chromosome_bp old_calls new_calls
                 contig_lengths overrides k
               = Raise (NameError "old_base_plasmid_calls")).
  { unfold process_key, first_pass. rewrite Ho, Hn. simpl.
    rewrite !bool_decide_eq_false_2
      by (intros H; apply H; apply elem_of_dom; eauto).
    rewrite categorize_tail; [done..| |done].
    intros E. apply Hsuf. by rewrite E. }
  assert (Hin : k ∈ all_keys old_calls new_calls).
  { unfold all_keys. rewrite merge_sort_Permutation.
    apply elem_of_elements, elem_of_union. left. apply elem_of_dom. eauto. }
  destruct (rmapM_Raise _ _ _ _ Hin Hk) as [e He].
  unfold main_rows. rewrite He. f_equal.
  apply rmapM_Raise_inv in He as (k' & _ & Hk').
  by apply process_key_Raise_inv in Hk'.
Qed.

End RunFacts.

Section RunExamples.
Import PyStr CompareCalls Samples.

Lemma finished_run_categories_witness :
  ∃ rows,
    main_rows 0 old_t new_t ∅ over_t = Ok rows
    ∧ ∀ r, r ∈ needs_review rows → category r = "new_unclassified".
Proof.
  destruct (main_rows 0 old_t new_t ∅ over_t) as [rows|] eqn:E;
    [|by vm_compute in E].
  exists rows. split; [done|].
  apply (finished_run_categories 0 old_t new_t ∅ over_t rows E).
Defined.

Lemma differing_calls_abort_run_witness :
  main_rows 100000 {[k1 := "lp28-4"; k2 := "lp17"]}
    {[k1 := "lp28-4:::lp17"; k2 := "lp17"]} ∅ {[k1 := "lp28-4"]}
  = Raise (NameError "old_base_plasmid_calls").
Proof.
  apply (differing_calls_abort_run 100000 _ _ ∅ _ k1 "lp28-4"
           "lp28-4:::lp17"); by vm_compute.
Defined.

End RunExamples.

(** ** compare_calls.py: the keys of the rows *)

Section KeyFacts.
Import PyStr CompareCalls.

Lemma key_le_total : Total key_le.
Proof.
  intros a b. unfold key_le, key_leb.
  destruct (decide (a.1 = b.1)) as [E|E].
  - rewrite (bool_decide_eq_true_2 _ E),
            (bool_decide_eq_true_2 (b.1 = a.1)) by done.
    destruct (total String.le a.2 b.2); [left|right];
      by apply bool_decide_pack.
  - rewrite (bool_decide_eq_false_2 _ E),
            (bool_decide_eq_false_2 (b.1 = a.1)) by done.
    destruct (total String.le a.1 b.1); [left|right];
      by apply bool_decide_pack.
Qed.

Lemma key_le_trans : Transitive key_le.
Proof.
  intros a b c. unfold key_le, key_leb.
  destruct (decide (a.1 = b.1)) as [Eab|Eab],
           (decide (b.1 = c.1)) as [Ebc|Ebc].
  - rewrite (bool_decide_eq_true_2 _ Eab), (bool_decide_eq_true_2 _ Ebc),
            (bool_decide_eq_true_2 (a.1 = c.1)) by congruence.
    intros H1%bool_decide_unpack H2%bool_decide_unpack.
    apply bool_decide_pack. by etrans.
  - rewrite (bool_decide_eq_true_2 _ Eab), (bool_decide_eq_false_2 _ Ebc),
            (bool_decide_eq_false_2 (a.1 = c.1)) by congruence.
    intros _ H2%bool_decide_unpack. apply bool_decide_pack. by rewrite Eab.
  - rewrite (bool_decide_eq_false_2 _ Eab), (bool_decide_eq_true_2 _ Ebc),
            (bool_decide_eq_false_2 (a.1 = c.1)) by congruence.
    intros H1%bool_decide_unpack _. apply bool_decide_pack. by rewrite <- Ebc.
  - rewrite (bool_decide_eq_false_2 _ Eab), (bool_decide_eq_false_2 _ Ebc).
    intros H1%bool_decide_unpack H2%bool_decide_unpack.
    destruct (decide (a.1 = c.1)) as [Eac|Eac].
    + exfalso. apply Eab. rewrite <- Eac in H2. by apply (anti_symm String.le).
    + rewrite (bool_decide_eq_false_2 _ Eac). apply bool_decide_pack.
      by etrans.
Qed.

Variable auto_chromosome_bp : Z.
Variables old_calls new_calls : gmap key string.
Variable contig_lengths : gmap key Z.
Variable overrides : gmap key string.

Lemma process_key_fields k r :
  process_key auto_chromosome_bp old_calls new_calls contig_lengths overrides
    k = Ok r →
  (assembly_id r, contig_id r) = k
  ∧ old_call r = default "" (old_calls !! k)
  ∧ new_call r = default "" (new_calls !! k)
  ∧ contig_len r = default 0 (contig_lengths !! k).
Proof.
  unfold process_key.
  destruct (first_pass old_calls new_calls k) as [cr|]; simpl; [|done].
  destruct (apply_override overrides k _). intros [= <-]. simpl.
  by destruct k.
Qed.

(** X5.  A finished run writes exactly one row for every key of the old or
    the new table and no other row, in the ascending order of the keys;
    each row carries the two calls and the length its key has in the
    tables, the empty call and 0 where the key is missing. *)
Theorem one_row_per_key rows :
  main_rows auto_chromosome_bp old_calls new_calls contig_lengths overrides
  = Ok rows →
  (λ r, (assembly_id r, contig_id r)) <$> rows
  = all_keys old_calls new_calls
  ∧ NoDup (all_keys old_calls new_calls)
  ∧ StronglySorted key_le (all_keys old_calls new_calls)
  ∧ (∀ k, k ∈ all_keys old_calls new_calls
          ↔ is_Some (old_calls !! k) ∨ is_Some (new_calls !! k))
  ∧ (∀ r, r ∈ rows →
       old_call r = default "" (old_calls !! (assembly_id r, contig_id r))
       ∧ new_call r = default "" (new_calls !! (assembly_id r, contig_id r))
       ∧ contig_len r
         = default 0 (contig_lengths !! (assembly_id r, contig_id r))).
Proof.
  intros Hrows. split; [|split; [|split; [|split]]].
  - apply rmapM_Forall2 in Hrows. unfold main_rows in *.
    induction Hrows as [|k r ks rs Hk _ IH]; [done|].
    apply process_key_fields in Hk as [Hk _].
    by rewrite fmap_cons, IH, Hk.
  - unfold all_keys. rewrite merge_sort_Permutation. apply NoDup_elements.
  - apply StronglySorted_merge_sort; [apply key_le_trans|apply key_le_total].
  - intros k. unfold all_keys.
    rewrite merge_sort_Permutation, elem_of_elements, elem_of_union,
            !elem_of_dom. done.
  - intros r Hr. destruct (rmapM_Ok_elem _ _ _ _ Hrows Hr) as (k & _ & Hk).
    apply process_key_fields in Hk as (<- & H1 & H2 & H3). done.
Qed.

(** X6.  A key of one table only does not go through [categorize]: without
    an override its row is old_only resolved to the old call, or new_only
    resolved to the new call, and with an override it is manual_override
    resolved to the override. *)
Theorem single_source_key k call :
  (old_calls !! k = Some call ∧ new_calls !! k = None
   ∨ old_calls !! k = None ∧ new_calls !! k = Some call) →
  ∃ r,
    process_key auto_chromosome_bp old_calls new_calls contig_lengths
      overrides k = Ok r
    ∧ (category r, resolved_call r)
      = match overrides !! k with
        | Some v => ("manual_override", v)
        | None =>
            (if bool_decide (is_Some (old_calls !! k)) then "old_only"
             else "new_only", call)
        end.
Proof.
  intros H.
  assert (Hfp : first_pass old_calls new_calls k
                = Ok (if bool_decide (is_Some (old_calls !! k))
                      then "old_only" else "new_only", call)).
  { unfold first_pass. destruct H as [[Ho Hn]|[Ho Hn]]; rewrite Ho, Hn.
    - rewrite bool_decide_eq_true_2 by (by rewrite not_elem_of_dom).
      by rewrite bool_decide_eq_true_2.
    - rewrite bool_decide_eq_false_2
        by (intros E; apply E; apply elem_of_dom; eauto).
      rewrite bool_decide_eq_true_2 by (by rewrite not_elem_of_dom).
      rewrite bool_decide_eq_false_2; [done|]. by intros [? [=]]. }
  destruct (process_key_Ok auto_chromosome_bp old_calls new_calls
              contig_lengths overrides k _ Hfp) as (r & Hr & Hcat & _).
  exists r. split; [done|]. rewrite Hcat.
  rewrite auto_chromosome_other by (by case_bool_decide).
  unfold apply_override. destruct (overrides !! k); [|done].
  rewrite bool_decide_eq_false_2; [done|].
  rewrite elem_of_cons, elem_of_nil. by case_bool_decide; intros [|[]].
Qed.

End KeyFacts.

Section KeyExamples.
Import PyStr CompareCalls Samples.

Lemma one_row_per_key_witness :
  ∃ rows,
    main_rows 0 old_t new_t ∅ over_t = Ok rows
    ∧ (λ r, (assembly_id r, contig_id r)) <$> rows = [k1; k2].
Proof.
  destruct (main_rows 0 old_t new_t ∅ over_t) as [rows|] eqn:E;
    [|by vm_compute in E].
  exists rows. split; [done|].
  rewrite (proj1 (one_row_per_key 0 old_t new_t ∅ over_t rows E)).
  by vm_compute.
Defined.

Lemma single_source_key_witness :
  ∃ r, process_key 0 old_t new_t ∅ ∅ k2 = Ok r
     ∧ (category r, resolved_call r) = ("old_only", "lp17").
Proof.
  destruct (single_source_key 0 old_t new_t ∅ ∅ k2 "lp17") as (r & Hr & Hc).
  - left. split; by vm_compute.
  - exists r. split; [done|]. rewrite Hc. by vm_compute.
Defined.

End KeyExamples.

(** ** generate_chromosome_lists.py: names, topology and type *)

Section NameFacts.
Import PyStr ChromosomeLists.

Lemma contains_char_cons (a x : ascii) s :
  contains (String a "") (String x s)
  = bool_decide (a = x) || contains (String a "") s.
Proof.
  cbn [contains String.prefix].
  destruct (Ascii.ascii_dec a x) as [E|E].
  - rewrite (bool_decide_eq_true_2 _ E). by destruct s.
  - by rewrite (bool_decide_eq_false_2 _ E).
Qed.

Lemma replace_plus_no_plus s : contains "+" (replace_char "+" "-" s) = false.
Proof.
  induction s as [|c s IH]; [done|].
  cbn [replace_char]. rewrite contains_char_cons, IH, orb_false_r.
  apply bool_decide_eq_false_2. case_bool_decide as E; [done|].
  intros E'. by apply E.
Qed.

(** X8.  A sanitized replicon name holds no plus sign and is not the word
    "chromosome" in any letter case. *)
Theorem sanitize_replicon_name_safe name :
  contains "+" (sanitize_replicon_name name) = false
  ∧ lower (sanitize_replicon_name name) ≠ "chromosome".
Proof.
  unfold sanitize_replicon_name. case_bool_decide as E.
  - split; [reflexivity|discriminate].
  - split; [apply replace_plus_no_plus|done].
Qed.

(** X9.  The third field of a chromosome-list line is one of three values,
    never Circular-Chromosome: Linear-Chromosome exactly for the call
    "chromosome" (trimmed, any letter case), Circular-Plasmid exactly for
    the calls that begin with "cp", and Linear-Plasmid for all others. *)
Theorem topo_type_values replicon :
  let n := strip (lower replicon) in
  topo_type replicon
  = if bool_decide (n = "chromosome") then "Linear-Chromosome"
    else if startswith n "cp" then "Circular-Plasmid"
    else "Linear-Plasmid".
Proof.
  intros n. unfold topo_type, infer_topology, infer_chromosome_type.
  fold n. case_bool_decide as E.
  - rewrite E. reflexivity.
  - destruct (startswith n "cp"); [reflexivity|].
    destruct (startswith n "lp"); reflexivity.
Qed.

End NameFacts.

(** ** generate_chromosome_lists.py: the object name *)

Section ObjectNameFacts.
Import PyStr ChromosomeLists.

Lemma app_empty_r (s : string) : s +:+ "" = s.
Proof.
  induction s as [|a s IH]; [done|].
  change (String a s +:+ "") with (String a (s +:+ "")). by rewrite IH.
Qed.

Lemma app_snoc_cons (s : string) c t :
  (s +:+ String c "") +:+ t = s +:+ String c t.
Proof.
  induction s as [|a s IH]; [done|].
  change ((String a s +:+ String c "") +:+ t)
    with (String a ((s +:+ String c "") +:+ t)).
  by rewrite IH.
Qed.

(** The word that [words_go] is reading is extended by the characters up to
    the next space. *)
Lemma words_go_Some_first cur s :
  ∃ t ws, words_go (Some cur) s = (cur +:+ t) :: ws ∧ has_space t = false.
Proof.
  revert cur. induction s as [|c s IH]; intros cur; simpl.
  - exists "", []. by rewrite app_empty_r.
  - destruct (isspace c) eqn:Ec.
    + exists "", (words_go None s). by rewrite app_empty_r.
    + destruct (IH (cur +:+ String c "")) as (t & ws & E & Ht).
      exists (String c t), ws. rewrite E, app_snoc_cons.
      split; [done|]. simpl. by rewrite Ec.
Qed.

Lemma words_first_no_space s w ws :
  words s = w :: ws → w ≠ "" ∧ has_space w = false.
Proof.
  unfold words. induction s as [|c s IH]; simpl; [done|].
  destruct (isspace c) eqn:Ec; simpl; [done|].
  destruct (words_go_Some_first (String c "") s) as (t & ws' & E & Ht).
  rewrite E. intros [= <- _]. simpl. by rewrite Ec.
Qed.

Lemma lstrip_no_space w : w ≠ "" → has_space w = false → lstrip w = w.
Proof. destruct w as [|c w]; [done|]. simpl. by intros _ [-> _]%orb_false_iff. Qed.

Lemma rstrip_no_space w : has_space w = false → rstrip w = w.
Proof.
  unfold rstrip. induction w as [|c w IH]; simpl; [done|].
  intros [Hc Hw]%orb_false_iff. rewrite IH, Hc by done. by destruct w.
Qed.

Lemma words_go_no_space cur w :
  has_space w = false → words_go (Some cur) w = [cur +:+ w].
Proof.
  revert cur. induction w as [|c w IH]; intros cur; simpl.
  - intros _. by rewrite app_empty_r.
  - intros [Hc Hw]%orb_false_iff. by rewrite Hc, IH, app_snoc_cons.
Qed.

(** X10.  The object name of a contig id is its first word: it is not empty,
    holds no white space and is its own object name; a contig id of white
    space only, or empty, has none and the call raises [IndexError]. *)
Theorem parse_contig_name_first_word contig_id :
  (∀ w, parse_contig_name contig_id = Ok w →
        w ≠ "" ∧ has_space w = false ∧ parse_contig_name w = Ok w)
  ∧ (parse_contig_name contig_id = Raise IndexError
     ↔ all_space contig_id = true).
Proof.
  unfold parse_contig_name. split.
  - intros w Hw.
    destruct (words (strip contig_id)) as [|w' ws] eqn:E; [done|].
    injection Hw as ->.
    destruct (words_first_no_space _ _ _ E) as [Hne Hns].
    split; [done|]. split; [done|].
    unfold strip. rewrite lstrip_no_space, rstrip_no_space by done.
    destruct w as [|c w]; [done|]. unfold words. simpl in *.
    apply orb_false_iff in Hns as [Hc Hns]. rewrite Hc.
    by rewrite words_go_no_space.
  - destruct (words (strip contig_id)) as [|w ws] eqn:E; simpl.
    + split; [intros _|done]. apply words_nil in E.
      by rewrite <- strip_empty, strip_idem, strip_empty in E.
    + split; [done|]. intros H%strip_empty. by rewrite H in E.
Qed.

Lemma parse_contig_name_first_word_witness :
  parse_contig_name "contig_1" = Ok "contig_1".
Proof.
  apply (proj1 (parse_contig_name_first_word
                  "contig_1 [gcode=11] [topology=linear]") "contig_1").
  reflexivity.
Defined.

End ObjectNameFacts.

(** ** generate_chromosome_lists.py: the totals of complete mode *)

Section CompleteCounts.
Import PyStr ChromosomeLists.

Lemma filter_split_length {A} (P : A → bool) (Q : A → bool) (l : list A) :
  (length (filter (λ x, P x && Q x) l)
   + length (filter (λ x, P x && negb (Q x)) l)
   = length (filter (λ x, P x) l))%nat.
Proof.
  induction l as [|x l IH]; [done|].
  rewrite !filter_cons. destruct (P x), (Q x); simpl; lia.
Qed.

(** X11.  Complete mode returns exactly when no contig id cell and no call
    cell is the [None] of a short row; otherwise it raises the
    [AttributeError] of [None.strip()], and nothing else.  When it
    returns, it has placed as many rows as it wrote lines, counted every
    row that has a contig id and a call once, as placed or as unplaced,
    and written no unlocalised entry. *)
Theorem complete_mode_counts t1 t2 t3 contigs :
  ((∃ res, complete t1 t2 t3 contigs = Ok res) ↔ names_present contigs)
  ∧ (∀ e, complete t1 t2 t3 contigs = Raise e → e = AttributeError "strip")
  ∧ (∀ res, complete t1 t2 t3 contigs = Ok res →
       placed res = N.of_nat (length (chrom_lines res))
       ∧ (placed res + unplaced res)%N
         = N.of_nat (length (filter (λ r, has_names r) contigs))
       ∧ unlocalised res = 0%N ∧ unloc_lines res = []).
Proof.
  split; [split|split].
  - intros [res Hres]. by apply complete_go_Ok in Hres.
  - intros Hnp. unfold complete. rewrite complete_go_spec by done.
    by eexists.
  - intros e He. by apply complete_go_Raise in He as [-> _].
  - intros res Hres. pose proof (complete_go_Ok _ _ _ _ _ _ Hres) as Hnp.
    unfold complete in Hres. rewrite complete_go_spec in Hres by done.
    injection Hres as <-. simpl. rewrite length_fmap.
    pose proof (filter_split_length has_names
                  (λ r, passes_completeness r t1 t2 t3) contigs).
    repeat split; lia.
Qed.

End CompleteCounts.

(** ** generate_chromosome_lists.py: when classified mode returns *)

Section ClassifiedErrors.
Import PyStr PyList ChromosomeLists.

Lemma rmapM_Ok_each {A B} (f : A → result B) l bs a :
  rmapM f l = Ok bs → a ∈ l → ∃ b, f a = Ok b.
Proof.
  intros Hl Ha. destruct (f a) as [b|e] eqn:E; [by exists b|].
  destruct (rmapM_Raise f l a e Ha E) as [e' He']. by rewrite He' in Hl.
Qed.

Lemma contig_length_Raise_inv c e :
  contig_length c = Raise e → e = OverflowError.
Proof.
  unfold contig_length. destruct (try_float _ c) as [x|]; [|done].
  unfold PyFloat.to_int. destruct (Prim2SF x); simpl; try done.
  by intros [= <-].
Qed.

Lemma group_by_replicon_Raise_inv contigs m0 n0 e :
  group_by_replicon contigs m0 n0 = Raise e →
  e = OverflowError ∨ e = AttributeError "strip".
Proof.
  revert m0 n0. induction contigs as [|r contigs IH]; intros m0 n0; [done|].
  cbn [group_by_replicon].
  destruct (plasmid_name r) as [pn|]; cbn [strip_cell rbind];
    [|intros [= <-]; by right].
  destruct (_ || _); [apply IH|].
  destruct (contig_length (contig_len r)) as [n|e'] eqn:E; simpl; [apply IH|].
  intros [= <-]. left. by apply contig_length_Raise_inv in E.
Qed.

Lemma place_group_Raise_inv c lst e :
  place_group c lst = Raise e →
  e = IndexError ∨ e = AttributeError "strip".
Proof.
  unfold place_group.
  destruct (rmapM _ (sort_desc fst lst)) as [lines|e'] eqn:E; [done|].
  simpl. intros [= <-].
  apply rmapM_Raise_inv in E as (cr & _ & Hcr).
  destruct (contig_id cr.2) as [cid|]; cbn [strip_cell rbind] in Hcr;
    [|injection Hcr as <-; by right].
  unfold parse_contig_name, item0 in Hcr.
  destruct (words _); [|done]. simpl in Hcr. injection Hcr as <-. by left.
Qed.

(** The groups built by the first loop hold every classified row, with a
    length that [contig_length] returned; every call cell was a string. *)
Lemma group_by_replicon_Ok_inv contigs m0 n0 m n :
  group_by_replicon contigs m0 n0 = Ok (m, n) →
  (∀ r, r ∈ contigs → is_Some (plasmid_name r))
  ∧ (∀ r, r ∈ contigs → is_classified r →
       ∃ len lst, contig_length (contig_len r) = Ok len
                ∧ m !! replicon_of r = Some lst ∧ (len, r) ∈ lst)
  ∧ (∀ c lst0 x, m0 !! c = Some lst0 → x ∈ lst0 →
       ∃ lst, m !! c = Some lst ∧ x ∈ lst).
Proof.
  revert m0 n0. induction contigs as [|r contigs IH]; intros m0 n0.
  { intros [= <- <-].
    split; [intros r Hr; by apply elem_of_nil in Hr|].
    split; [intros r Hr; by apply elem_of_nil in Hr|].
    intros c lst0 x H1 H2. by exists lst0. }
  cbn [group_by_replicon].
  destruct (plasmid_name r) as [pn|] eqn:Epn; cbn [strip_cell rbind]; [|done].
  rewrite <- (replicon_of_Some r pn Epn), is_classified_test.
  destruct (is_classified r) eqn:Hc; cbn [negb].
  - destruct (contig_length (contig_len r)) as [len|] eqn:El; simpl; [|done].
    intros Hg. destruct (IH _ _ Hg) as (Hsome & Hrows & Hkeep).
    split; [|split].
    + intros r' [->|Hr']%elem_of_cons; [by rewrite Epn|by apply Hsome].
    + intros r' Hr' Hc'.
      apply elem_of_cons in Hr' as [->|Hr']; [|by apply Hrows].
      destruct (Hkeep (replicon_of r)
                  (default [] (m0 !! replicon_of r) ++ [(len, r)])
                  (len, r)) as (lst & Hl & Hin).
      * apply lookup_insert_eq.
      * apply elem_of_app. right. left.
      * by exists len, lst.
    + intros c lst0 x H1 H2.
      destruct (decide (c = replicon_of r)) as [->|Hne].
      * apply (Hkeep _ (default [] (m0 !! replicon_of r) ++ [(len, r)]) x).
        -- apply lookup_insert_eq.
        -- rewrite H1. simpl. apply elem_of_app. by left.
      * apply (Hkeep c lst0 x); [|done]. by rewrite lookup_insert_ne.
  - intros Hg. destruct (IH _ _ Hg) as (Hsome & Hrows & Hkeep).
    split; [|split; [|done]].
    + intros r' [->|Hr']%elem_of_cons; [by rewrite Epn|by apply Hsome].
    + intros r' Hr' Hc'.
      apply elem_of_cons in Hr' as [->|Hr']; [|by apply Hrows].
      by rewrite Hc in Hc'.
Qed.

Lemma classified_Ok_well_formed contigs res :
  classified contigs = Ok res → well_formed contigs.
Proof.
  intros Hres r Hr. unfold classified in Hres.
  destruct (group_by_replicon contigs ∅ 0%N) as [[m n]|] eqn:Hg; [|done].
  simpl in Hres.
  destruct (rmapM _ (merge_sort item_le (map_to_list m)))
    as [per_group|] eqn:Hpg; [|done].
  destruct (group_by_replicon_Ok_inv _ _ _ _ _ Hg) as (Hsome & Hrows & _).
  split; [by apply Hsome|]. intros Hc.
  destruct (Hrows r Hr Hc) as (len & lst & Hlen & Hl & Hin).
  split; [|apply contig_length_Ok_iff; by exists len].
  assert (Hit : (replicon_of r, lst) ∈ merge_sort item_le (map_to_list m)).
  { rewrite merge_sort_Permutation. by apply elem_of_map_to_list. }
  destruct (rmapM_Ok_each _ _ _ _ Hpg Hit) as [out Hplace].
  simpl in Hplace. unfold place_group in Hplace.
  destruct (rmapM _ (sort_desc fst lst)) as [lines|] eqn:Hlines; [|done].
  assert (Hin' : (len, r) ∈ sort_desc fst lst)
    by (by rewrite sort_desc_Permutation).
  destruct (rmapM_Ok_each _ _ _ _ Hlines Hin') as [b Hb].
  simpl in Hb.
  destruct (contig_id r) as [cid|]; cbn [strip_cell rbind] in Hb; [|done].
  exists cid. split; [done|]. intros Hblank. by rewrite Hblank in Hb.
Qed.

(** X12.  Classified mode returns exactly when no call cell is the [None]
    of a short row and every classified row has a contig id and a
    contig_len that is not infinite; otherwise it raises [AttributeError]
    (the [None] of a short row), [IndexError] (no first word in the contig
    id) or [OverflowError] (the integer of an infinity). *)
Theorem classified_returns_iff contigs :
  ((∃ res, classified contigs = Ok res) ↔ well_formed contigs)
  ∧ (∀ e, classified contigs = Raise e →
          e = AttributeError "strip" ∨ e = IndexError ∨ e = OverflowError).
Proof.
  split; [split|].
  - intros [res Hres]. by apply (classified_Ok_well_formed contigs res).
  - intros Hwf. destruct (classified_well_formed contigs Hwf) as (? & -> & _).
    by eexists.
  - intros e. unfold classified.
    destruct (group_by_replicon contigs ∅ 0%N) as [[m n]|e'] eqn:Hg.
    + simpl.
      destruct (rmapM _ (merge_sort item_le (map_to_list m)))
        as [per_group|e'] eqn:Hpg; [done|].
      simpl. intros [= <-].
      apply rmapM_Raise_inv in Hpg as (it & _ & Hit).
      apply place_group_Raise_inv in Hit as [->| ->]; tauto.
    + simpl. intros [= <-].
      apply group_by_replicon_Raise_inv in Hg as [->| ->]; tauto.
Qed.

(** X13.  When classified mode returns, every row of the assembly is counted
    once, as placed, as unlocalised or as unplaced.  The chromosome list
    holds one line for every call that a classified row of the assembly
    has, and no other line, in the ascending order of the calls; its rows
    and those of the unlocalised list are together the classified rows. *)
Theorem classified_mode_counts contigs res :
  classified contigs = Ok res →
  (placed res + unlocalised res + unplaced res)%N = N.of_nat (length contigs)
  ∧ placed res = N.of_nat (length (chrom_lines res))
  ∧ unlocalised res = N.of_nat (length (unloc_lines res))
  ∧ ∃ prim frag,
      chrom_lines res = placement_line <$> prim
      ∧ unloc_lines res = fragment_line <$> frag
      ∧ prim ++ frag ≡ₚ filter is_classified contigs
      ∧ StronglySorted (λ a b : string, String.le a b) (replicon_of <$> prim)
      ∧ NoDup (replicon_of <$> prim)
      ∧ (∀ c, c ∈ replicon_of <$> prim
              ↔ ∃ r, r ∈ contigs ∧ is_classified r ∧ replicon_of r = c).
Proof.
  intros Hres.
  assert (Hwf : well_formed contigs).
  { by apply (classified_Ok_well_formed contigs res). }
  destruct (classified_well_formed contigs Hwf)
    as (items & E & Hgroups & Hsorted & Hnd & Hrows & _).
  rewrite E in Hres. injection Hres as <-. simpl.
  split; [|split; [done|split; [done|]]].
  - pose proof (primaries_fragments_rows items) as Hp.
    rewrite Hrows in Hp. apply Permutation_length in Hp.
    rewrite length_app in Hp. rewrite !length_fmap.
    pose proof (filter_app_complement (λ r, is_classified r) contigs) as Hc.
    apply Permutation_length in Hc. rewrite length_app in Hc. lia.
  - exists (items ≫= λ it, primary_of it.2), (items ≫= λ it, fragments_of it.2).
    split; [done|]. split; [done|].
    split; [by rewrite primaries_fragments_rows|].
    rewrite primaries_calls by done.
    split; [by apply (StronglySorted_fmap fst item_le)|]. split; [done|].
    intros c. split.
    + intros (it & -> & Hit)%list_elem_of_fmap.
      destruct (Hgroups it Hit) as [Hne Hall].
      destruct it.2 as [|cr lst] eqn:Eit; [done|].
      assert (Hcr : cr ∈ it.2) by (rewrite Eit; left).
      exists cr.2.
      destruct (Hall cr) as (Hc & _); [left|].
      assert (Hin : cr.2 ∈ snd <$> (items ≫= snd)).
      { apply list_elem_of_fmap. exists cr. split; [done|].
        apply list_elem_of_bind. by exists it. }
      rewrite Hrows in Hin. apply list_elem_of_filter in Hin as [H1 H2].
      done.
    + intros (r & Hr & Hc & <-).
      assert (Hin : r ∈ snd <$> (items ≫= snd)).
      { rewrite Hrows. by apply list_elem_of_filter. }
      apply list_elem_of_fmap in Hin as (x & -> & Hx).
      apply list_elem_of_bind in Hx as (it & Hx & Hit).
      destruct (Hgroups it Hit) as [_ Hall].
      destruct (Hall x Hx) as (Ec & _). rewrite Ec.
      apply list_elem_of_fmap. by exists it.
Qed.

End ClassifiedErrors.

Section ClassifiedErrorExamples.
Import PyStr PyList ChromosomeLists.

Lemma classified_mode_counts_witness :
  ∃ res, classified Samples.abc = Ok res
       ∧ (placed res + unlocalised res + unplaced res)%N = 3%N.
Proof.
  destruct (classified Samples.abc) as [res|] eqn:E; [|by vm_compute in E].
  exists res. split; [done|].
  apply (classified_mode_counts Samples.abc res E).
Defined.

End ClassifiedErrorExamples.

(** ** Splitting and spans *)

Section SplitFacts.
Import PyStr.

Lemma app_string_assoc (a b c : string) : (a +:+ b) +:+ c = a +:+ (b +:+ c).
Proof.
  induction a as [|x a IH]; [done|].
  change (String x (a +:+ b) +:+ c = String x (a +:+ (b +:+ c))).
  change (String x ((a +:+ b) +:+ c) = String x (a +:+ (b +:+ c))).
  by rewrite IH.
Qed.

Lemma prefix_app sep s : String.prefix sep s = true → ∃ rest, s = sep +:+ rest.
Proof.
  revert s. induction sep as [|c sep IH]; intros s H.
  - by exists s.
  - destruct s as [|x s]; [done|]. simpl in H.
    destruct (Ascii.ascii_dec c x) as [->|]; [|done].
    destruct (IH s H) as [rest ->]. by exists rest.
Qed.

(** The first piece of a split is what comes before the first separator,
    or the whole string. *)
Lemma split_go_head sep cur s :
  ∃ p tl,
    split_go sep 0 cur s = (cur +:+ p) :: tl
    ∧ (s = p ∨ ∃ rest, s = p +:+ sep +:+ rest).
Proof.
  revert cur. induction s as [|c s IH]; intros cur.
  - exists "", []. split; [by rewrite app_empty_r|by left].
  - cbn [split_go]. destruct (String.prefix sep (String c s)) eqn:E.
    + apply prefix_app in E as [rest E].
      exists "", (split_go sep (String.length sep - 1) "" s).
      split; [by rewrite app_empty_r|]. right. by exists rest.
    + destruct (IH (cur +:+ String c "")) as (p & tl & -> & Hs).
      exists (String c p), tl. split; [by rewrite app_snoc_cons|].
      destruct Hs as [->|[rest ->]]; [by left|]. right. by exists rest.
Qed.

Lemma before_spec sep s :
  s = before sep s ∨ ∃ rest, s = before sep s +:+ sep +:+ rest.
Proof.
  unfold before, split.
  by destruct (split_go_head sep "" s) as (p & tl & -> & Hs).
Qed.

(** A string that does not hold the separator is not split. *)
Lemma split_go_absent sep cur s :
  contains sep s = false → split_go sep 0 cur s = [cur +:+ s].
Proof.
  revert cur. induction s as [|c s IH]; intros cur H.
  - by rewrite app_empty_r.
  - cbn [contains] in H. apply orb_false_iff in H as [Hp Hs].
    cbn [split_go]. rewrite Hp, IH by done. by rewrite app_snoc_cons.
Qed.

Lemma split_absent sep s : contains sep s = false → split sep s = [s].
Proof. apply (split_go_absent sep ""). Qed.

(** Splitting on one character at the first place where it stands. *)
Lemma split_go_char c cur a b :
  contains (String c "") a = false →
  split_go (String c "") 0 cur (a +:+ String c b)
  = (cur +:+ a) :: split (String c "") b.
Proof.
  revert cur. induction a as [|x a IH]; intros cur H.
  - change ("" +:+ String c b) with (String c b). cbn [split_go String.prefix].
    destruct (Ascii.ascii_dec c c); [|done].
    rewrite app_empty_r. by destruct b.
  - rewrite contains_char_cons in H. apply orb_false_iff in H as [Hx Ha].
    apply bool_decide_eq_false in Hx.
    change (String x a +:+ String c b) with (String x (a +:+ String c b)).
    cbn [split_go String.prefix].
    destruct (Ascii.ascii_dec c x) as [?|_]; [done|].
    rewrite IH by done. by rewrite app_snoc_cons.
Qed.

(** [sep.join(l).split(sep)] gives [l] back when no piece holds the
    separator. *)
Lemma split_join c l :
  l ≠ [] → Forall (λ a, contains (String c "") a = false) l →
  split (String c "") (join (String c "") l) = l.
Proof.
  intros Hne Hall. induction Hall as [|a l Ha Hall IH]; [done|].
  destruct l as [|b l].
  - by apply split_absent.
  - change (join (String c "") (a :: b :: l))
      with (a +:+ String c "" +:+ join (String c "") (b :: l)).
    change (String c "" +:+ join (String c "") (b :: l))
      with (String c (join (String c "") (b :: l))).
    unfold split at 1. rewrite split_go_char by done.
    change ("" +:+ a) with a. by rewrite IH.
Qed.

(** A string that holds a character splits on it into two pieces at
    least. *)
Lemma split_go_contains c cur s :
  contains (String c "") s = true →
  ∃ a b tl, split_go (String c "") 0 cur s = a :: b :: tl.
Proof.
  revert cur. induction s as [|x s IH]; intros cur H; [done|].
  rewrite contains_char_cons in H. cbn [split_go String.prefix].
  destruct (Ascii.ascii_dec c x) as [->|Hx].
  - destruct s as [|y s]; [by exists cur, "", []|].
    destruct (split_go_head (String x "") "" (String y s))
      as (p & tl & E & _).
    change (String.length (String x "") - 1)%nat with 0%nat.
    rewrite E. by eexists _, _, _.
  - rewrite bool_decide_eq_false_2 in H by done. by apply IH.
Qed.

(** [span] on a string followed by something the test stops at. *)
Lemma span_app_stop p s x :
  stops p x → span p (s +:+ x) = ((span p s).1, (span p s).2 +:+ x).
Proof.
  intros Hx. induction s as [|c s IH].
  - change ("" +:+ x) with x. destruct x as [|y x]; [done|].
    simpl in Hx. simpl. by rewrite Hx.
  - change (String c s +:+ x) with (String c (s +:+ x)). cbn [span].
    destruct (p c); [|done]. rewrite IH. by destruct (span p s).
Qed.

Lemma span_spec p s :
  s = (span p s).1 +:+ (span p s).2
  ∧ all_chars p (span p s).1 = true ∧ stops p (span p s).2.
Proof.
  induction s as [|c s (IH1 & IH2 & IH3)]; [done|].
  cbn [span]. destruct (p c) eqn:E.
  - destruct (span p s) as [a b]. cbn [fst snd] in *.
    change (String c a +:+ b) with (String c (a +:+ b)).
    cbn [all_chars]. rewrite E. by rewrite <- IH1.
  - simpl. by rewrite E.
Qed.

Lemma span_all p a b :
  all_chars p a = true → stops p b → span p (a +:+ b) = (a, b).
Proof.
  intros Ha Hb. induction a as [|c a IH].
  - change ("" +:+ b) with b. destruct b as [|y b]; [done|].
    simpl in Hb. simpl. by rewrite Hb.
  - simpl in Ha. apply andb_true_iff in Ha as [Hc Ha].
    change (String c a +:+ b) with (String c (a +:+ b)). cbn [span].
    by rewrite Hc, IH.
Qed.

End SplitFacts.

(** ** add_replicon_to_gml.py: families and types *)

Section FamilyFacts.
Import PyStr AddReplicon.

Lemma match_az_digits_app s x :
  stops is_az x → stops isdigit x →
  match_az_digits (s +:+ x) = match_az_digits s.
Proof.
  intros H1 H2. unfold match_az_digits.
  rewrite (span_app_stop is_az s x H1).
  destruct (span is_az s) as [letters rest]. cbn [fst snd].
  rewrite (span_app_stop isdigit rest x H2).
  by destruct (span isdigit rest) as [digits rest'].
Qed.

Lemma match_az_digits_before sep s :
  stops is_az sep → stops isdigit sep → sep ≠ "" →
  match_az_digits (before sep s) = match_az_digits s.
Proof.
  intros H1 H2 Hne. destruct (before_spec sep s) as [E|[rest E]].
  - by rewrite <- E.
  - rewrite E at 2. rewrite match_az_digits_app; [done|..];
      destruct sep; done.
Qed.

(** What [match_az_digits] returns: letters, then digits, neither empty. *)
Lemma match_az_digits_Some s g :
  match_az_digits s = Some g →
  ∃ letters digits rest,
    g = letters +:+ digits ∧ s = g +:+ rest
    ∧ letters ≠ "" ∧ digits ≠ ""
    ∧ all_chars is_az letters = true ∧ all_chars isdigit digits = true.
Proof.
  unfold match_az_digits. intros H.
  destruct (span_spec is_az s) as (E1 & A1 & _).
  destruct (span is_az s) as [letters rest]. cbn [fst snd] in *.
  destruct (span_spec isdigit rest) as (E2 & A2 & _).
  destruct (span isdigit rest) as [digits rest']. cbn [fst snd] in *.
  destruct (decide (letters = "")) as [->|Hl]; [done|].
  destruct (decide (digits = "")) as [->|Hd].
  { rewrite bool_decide_eq_false_2 in H by done. done. }
  rewrite !bool_decide_eq_false_2 in H by done. injection H as <-.
  exists letters, digits, rest'. rewrite app_string_assoc, <- E2. done.
Qed.

Lemma match_az_digits_fixed s g :
  match_az_digits s = Some g → match_az_digits g = Some g.
Proof.
  intros (letters & digits & rest & -> & _ & Hl & Hd & Al & Ad)%match_az_digits_Some.
  unfold match_az_digits. rewrite span_all; [|done|].
  - rewrite <- (app_empty_r digits) at 1. rewrite span_all by done.
    by rewrite !bool_decide_eq_false_2 by done.
  - destruct digits as [|d digits]; [done|]. simpl in Ad |- *.
    apply andb_true_iff in Ad as [Ad _]. revert Ad.
    unfold isdigit, is_az, in_range, code.
    destruct (N_of_ascii d) as [|q]; [done|]. intros Ad.
    apply andb_true_iff in Ad as [A1 A2].
    apply N.leb_le in A1, A2. apply andb_false_iff. left.
    apply N.leb_gt. lia.
Qed.

Lemma classify_replicon_family_match r :
  classify_replicon_family r = default r (match_az_digits r).
Proof.
  unfold classify_replicon_family.
  case_bool_decide as Hw.
  { rewrite !elem_of_cons, elem_of_nil in Hw.
    destruct Hw as [->|[->|[->|[->|[]]]]]; done. }
  case_bool_decide as Hc; [by subst|].
  assert (E : match_az_digits (before "-lp" (before "-cp" (before "+" r)))
              = match_az_digits r).
  { by rewrite !match_az_digits_before. }
  destruct (contains "+" r || contains "-cp" r || contains "-lp" r).
  - rewrite E. by destruct (match_az_digits r).
  - by destruct (match_az_digits r).
Qed.

(** X14.  The family of a replicon is its leading lower-case letters and
    the digits that follow them, when it starts with both, and the replicon
    itself otherwise; the branch for fused plasmids and the two tests on
    fixed words do not change that.  A family is its own family. *)
Theorem classify_replicon_family_leading replicon :
  classify_replicon_family replicon
  = default replicon (match_az_digits replicon)
  ∧ classify_replicon_family (classify_replicon_family replicon)
    = classify_replicon_family replicon.
Proof.
  split; [apply classify_replicon_family_match|].
  rewrite !classify_replicon_family_match.
  destruct (match_az_digits replicon) as [g|] eqn:E; simpl.
  - by rewrite (match_az_digits_fixed _ _ E).
  - by rewrite E.
Qed.

Lemma classify_replicon_type_words r :
  r ∈ ["multi-replicon"; "chromosome"; "unknown"; "unmatched"] →
  match_az_digits r = None.
Proof.
  rewrite !elem_of_cons, elem_of_nil.
  intros [->|[->|[->|[->|[]]]]]; done.
Qed.

(** X15.  The type of a replicon is the type of its family: grouping the
    replicons of a node by family does not move any of them from one of
    the six types to another. *)
Theorem classify_replicon_type_family replicon :
  classify_replicon_type (classify_replicon_family replicon)
  = classify_replicon_type replicon.
Proof.
  rewrite classify_replicon_family_match.
  destruct (match_az_digits replicon) as [g|] eqn:E; [|done]. simpl.
  pose proof (match_az_digits_fixed _ _ E) as Eg.
  assert (Hr : replicon ∉ ["multi-replicon"; "chromosome"; "unknown";
                           "unmatched"]).
  { intros H%classify_replicon_type_words. congruence. }
  assert (Hg : g ∉ ["multi-replicon"; "chromosome"; "unknown"; "unmatched"]).
  { intros H%classify_replicon_type_words. congruence. }
  apply match_az_digits_Some in E
    as (letters & digits & rest & Eg' & -> & Hl & Hd & _ & _).
  assert (Hp : ∀ p, String.length p = 2%nat →
                    startswith (g +:+ rest) p = startswith g p).
  { intros p Hp. subst g. destruct letters as [|a letters]; [done|].
    destruct p as [|x [|y [|z p]]]; try done. unfold startswith.
    destruct letters as [|b letters].
    - destruct digits as [|d digits]; [done|]. simpl.
      repeat destruct Ascii.ascii_dec; try done.
      by destruct digits, rest.
    - simpl. repeat destruct Ascii.ascii_dec; try done.
      by destruct letters, digits, rest. }
  unfold classify_replicon_type. rewrite (Hp "cp" eq_refl), (Hp "lp" eq_refl).
  rewrite !elem_of_cons, elem_of_nil in Hr, Hg.
  rewrite !(bool_decide_eq_false_2 (_ = "multi-replicon")) by tauto.
  rewrite !(bool_decide_eq_false_2 (_ = "chromosome")) by tauto.
  rewrite !(bool_decide_eq_false_2 (_ ∈ _))
    by (rewrite !elem_of_cons, elem_of_nil; tauto).
  done.
Qed.

End FamilyFacts.

(** ** add_replicon_to_gml.py: the replicon of a scaffold name *)

Section ScaffoldFacts.
Import PyStr AddReplicon.

Lemma contains_char_app c x y :
  contains (String c "") (x +:+ y)
  = contains (String c "") x || contains (String c "") y.
Proof.
  induction x as [|a x IH].
  - change ("" +:+ y) with y. by destruct y.
  - change (String a x +:+ y) with (String a (x +:+ y)).
    by rewrite !contains_char_cons, IH, orb_assoc.
Qed.

Lemma all_chars_no_char p c s :
  p c = false → all_chars p s = true → contains (String c "") s = false.
Proof.
  intros Hc. induction s as [|a s IH]; [done|].
  cbn [all_chars]. intros [Ha Hs]%andb_true_iff.
  rewrite contains_char_cons, IH by done.
  rewrite bool_decide_eq_false_2; [done|]. intros ->. congruence.
Qed.

(** What the accession pattern accepts holds no underscore. *)
Lemma is_accession_no_underscore s :
  is_accession s = true → contains "_" s = false.
Proof.
  unfold is_accession. destruct s as [|a [|b rest]]; [done..|].
  destruct (span_spec isdigit rest) as (E1 & A1 & _).
  destruct (span isdigit rest) as [six rest']. cbn [fst snd] in *.
  intros H. apply andb_true_iff in H as [H H3].
  apply andb_true_iff in H as [Ha Hb].
  apply andb_true_iff in H3 as [_ H3].
  destruct rest' as [|dot version]; [done|].
  apply andb_true_iff in H3 as [Hdot H3].
  apply bool_decide_eq_true in Hdot as ->.
  destruct (span_spec isdigit version) as (E2 & A2 & _).
  destruct (span isdigit version) as [digits tail]. cbn [fst snd] in *.
  apply andb_true_iff in H3 as [_ Htail].
  apply bool_decide_eq_true in Htail.
  rewrite !contains_char_cons.
  rewrite !bool_decide_eq_false_2 by (intros <-; done). simpl.
  rewrite E1, contains_char_app, contains_char_cons, E2, contains_char_app.
  rewrite !(all_chars_no_char isdigit) by done.
  rewrite !elem_of_cons, elem_of_nil in Htail.
  by destruct Htail as [->|[->|[]]].
Qed.

Lemma join_cons_cons sep a b l :
  join sep (a :: b :: l) = a +:+ sep +:+ join sep (b :: l).
Proof. done. Qed.

(** X16.  A scaffold name is read by its pieces between underscores: with
    a piece that reads "contig" in any letter case, the replicon is what
    stands between the first piece and the first such piece, joined again
    and lower-cased, and "unknown" when nothing stands there.  The
    accession table is consulted only for a replicon of one piece: when
    the isolate name brings an underscore of its own, as in
    GCF_xxx_cp019844.1_contig_1, the replicon is xxx_cp019844.1 whatever
    the table holds. *)
Theorem parse_replicon_from_scaffold_pieces
    isolate mids c rest (accession_lookup : gmap string string) :
  Forall (λ p, contains "_" p = false) (isolate :: mids ++ c :: rest) →
  lower isolate ≠ "contig" →
  Forall (λ p, lower p ≠ "contig") mids →
  lower c = "contig" →
  let replicon := lower (join "_" mids) in
  let found :=
    parse_replicon_from_scaffold (join "_" (isolate :: mids ++ c :: rest))
                                 accession_lookup in
  (mids = [] → found = "unknown")
  ∧ (length mids = 1%nat →
       found = if is_accession replicon
               then default replicon (accession_lookup !! replicon)
               else replicon)
  ∧ ((2 ≤ length mids)%nat → found = replicon).
Proof.
  intros Hno Hi Hm Hc replicon found.
  assert (Hfind : list_find (λ p, lower p = "contig")
                    (isolate :: mids ++ c :: rest)
                  = Some (S (length mids), c)).
  { apply list_find_Some. split; [|split; [done|]].
    - simpl. by apply list_lookup_middle.
    - intros [|j] y Hy Hj.
      + injection Hy as <-. done.
      + simpl in Hy. rewrite lookup_app_l in Hy by lia.
        rewrite Forall_forall in Hm. apply Hm.
        by eapply list_elem_of_lookup_2. }
  assert (E : found
              = if bool_decide (1 < S (length mids))%nat
                then if is_accession replicon
                     then default replicon (accession_lookup !! replicon)
                     else replicon
                else "unknown").
  { unfold found, parse_replicon_from_scaffold.
    rewrite (split_join "_") by done. rewrite Hfind.
    case_bool_decide; [|done].
    replace (take (S (length mids) - 1) (drop 1 (isolate :: mids ++ c :: rest)))
      with mids; [done|].
    replace (S (length mids) - 1)%nat with (length mids) by lia.
    change (drop 1 (isolate :: mids ++ c :: rest)) with (mids ++ c :: rest).
    by rewrite take_app_length. }
  split; [|split].
  - intros ->. by rewrite E.
  - intros Hlen. rewrite E. by rewrite bool_decide_eq_true_2 by lia.
  - intros Hlen. rewrite E. rewrite bool_decide_eq_true_2 by lia.
    destruct (is_accession replicon) eqn:Ea; [|done].
    apply is_accession_no_underscore in Ea. exfalso.
    destruct mids as [|m1 [|m2 mids]]; [simpl in Hlen; lia..|].
    unfold replicon in Ea.
    rewrite join_cons_cons, !lower_app, !contains_char_app in Ea.
    by rewrite orb_true_r in Ea.
Qed.

Lemma parse_replicon_from_scaffold_pieces_witness :
  parse_replicon_from_scaffold "GCF_xxx_cp019844.1_contig_1"
    {[ "cp019844.1" := "chromosome" ]}
  = "xxx_cp019844.1".
Proof.
  destruct (parse_replicon_from_scaffold_pieces
              "GCF" ["xxx"; "cp019844.1"] "contig" ["1"]
              {[ "cp019844.1" := "chromosome" ]}) as (_ & _ & H).
  - by repeat constructor.
  - done.
  - by repeat constructor.
  - done.
  - apply H. simpl. lia.
Defined.

End ScaffoldFacts.

(** ** add_replicon_to_gml.py: the detail string of a node *)

Section DetailFacts.
Import PyStr PyList PyFloat AddReplicon.

(** The stable descending sort starts with the first item of greatest
    count, which is what [max] returns. *)
Lemma sort_desc_foldl_head (l : list (string * N)) best rest :
  ∃ rest',
    foldl (λ acc x, insert_desc (λ x, Z.of_N x.2) x acc) (best :: rest) l
    = first_max best l :: rest'.
Proof.
  revert best rest. induction l as [|x l IH]; intros best rest.
  - by exists rest.
  - cbn [foldl insert_desc first_max].
    destruct (decide (best.2 < x.2)%N) as [Hlt|Hlt].
    + rewrite !bool_decide_eq_true_2 by lia. apply IH.
    + rewrite !bool_decide_eq_false_2 by lia. apply IH.
Qed.

Lemma most_common_head c : head (most_common c) = head (most_common_1 c).
Proof.
  destruct c as [|x c]; [done|].
  unfold most_common, sort_desc. cbn [foldl insert_desc most_common_1].
  by destruct (sort_desc_foldl_head c x []) as [rest' ->].
Qed.

Lemma counter_total_Permutation c c' :
  c ≡ₚ c' → counter_total c = counter_total c'.
Proof.
  unfold counter_total.
  induction 1 as [|x c c' _ IH|x y c|c c' c'' _ IH1 _ IH2]; simpl;
    [done|by rewrite IH|lia|congruence].
Qed.

Lemma StronglySorted_weaken {A} (R R' : A → A → Prop) l :
  (∀ a b, R a b → R' a b) → StronglySorted R l → StronglySorted R' l.
Proof.
  intros HR. induction 1 as [|x l _ IH Hx]; constructor; [done|].
  eapply Forall_impl; [exact Hx|]. intros y. apply HR.
Qed.

(** X17.  The detail string of a node with replicons lists every distinct
    replicon once with the number of its occurrences, the counts never
    increasing from left to right and adding up to the number of
    isolates; the first entry is the top replicon. *)
Theorem all_replicons_ranked l τ :
  l ≠ [] →
  ∃ c items,
    assign_consensus_replicon l τ = Ok c
    ∧ all_replicons c = join "," (detail <$> items)
    ∧ items ≡ₚ (λ x, (x, count x l)) <$> first_seen l
    ∧ StronglySorted (λ a b, (b.2 ≤ a.2)%N) items
    ∧ head items = Some (top_replicon c, count (top_replicon c) l)
    ∧ counter_total items = n_isolates c.
Proof.
  intros Hl.
  destruct (most_common_1_Counter l Hl) as (top & pre & post & Hmc & _).
  unfold assign_consensus_replicon.
  rewrite bool_decide_eq_false_2 by (destruct l; [done|simpl; lia]).
  rewrite Hmc. simpl. eexists _, (most_common (Counter l)).
  split; [done|]. cbn [all_replicons top_replicon n_isolates].
  split; [done|]. split; [|split; [|split]].
  - unfold most_common. by rewrite sort_desc_Permutation, Counter_eq.
  - unfold most_common.
    eapply StronglySorted_weaken;
      [|apply (sort_desc_sorted (λ x : string * N, Z.of_N x.2))].
    intros a b Hab. simpl in Hab. lia.
  - by rewrite most_common_head, Hmc.
  - rewrite <- Counter_total. apply counter_total_Permutation.
    unfold most_common. apply sort_desc_Permutation.
Qed.

Lemma all_replicons_ranked_witness :
  ∃ c, assign_consensus_replicon ["lp17"; "cp26"; "cp26"] 0.5 = Ok c
     ∧ all_replicons c = "cp26(2),lp17(1)".
Proof.
  destruct (all_replicons_ranked ["lp17"; "cp26"; "cp26"] 0.5%float)
    as (c & items & Hc & _); [done|].
  exists c. split; [exact Hc|].
  vm_compute in Hc. injection Hc as <-. by vm_compute.
Defined.

End DetailFacts.

(** ** add_replicon_to_gml.py: the pie chart of a detail string *)

Section PieFacts.
Import PyStr PyList AddReplicon.

Lemma pretty_N_char_digit k : isdigit (pretty_N_char k) = true.
Proof. unfold pretty_N_char. by repeat case_match. Qed.

Lemma pretty_N_go_digits x s :
  all_chars isdigit s = true → all_chars isdigit (pretty_N_go x s) = true.
Proof.
  revert s. induction (N.lt_wf_0 x) as [x _ IH]. intros s Hs.
  destruct (decide (x = 0%N)) as [->|Hx]; [by rewrite pretty_N_go_0|].
  rewrite pretty_N_go_step by lia. apply IH.
  - apply N.div_lt; lia.
  - cbn [all_chars]. by rewrite pretty_N_char_digit.
Qed.

(** A count is written with decimal digits only. *)
Lemma pretty_N_digits (n : N) : all_chars isdigit (pretty n) = true.
Proof.
  unfold pretty, pretty_N. case_decide; [done|]. by apply pretty_N_go_digits.
Qed.

Lemma pretty_N_nonempty (n : N) : pretty n ≠ "".
Proof.
  unfold pretty, pretty_N. case_decide as Hn; [done|].
  rewrite pretty_N_go_step by lia.
  generalize (n `div` 10)%N (pretty_N_char (n `mod` 10)). intros x c.
  assert (H : ∀ s, s ≠ "" → pretty_N_go x s ≠ "").
  { induction (N.lt_wf_0 x) as [x _ IH]. intros s Hs.
    destruct (decide (x = 0%N)) as [->|Hx]; [by rewrite pretty_N_go_0|].
    rewrite pretty_N_go_step by lia. apply IH; [apply N.div_lt; lia|done]. }
  by apply H.
Qed.

Lemma digits_no_space s : all_chars isdigit s = true → has_space s = false.
Proof.
  induction s as [|c s IH]; [done|]. cbn [all_chars has_space].
  intros [Hc Hs]%andb_true_iff. rewrite IH by done.
  rewrite orb_false_r. revert Hc. unfold isdigit, isspace, in_range, code.
  intros [H1 H2]%andb_true_iff. apply N.leb_le in H1, H2.
  repeat match goal with
         | |- context [(?a <=? ?b)%N] => destruct (N.leb_spec a b)
         | |- context [(?a =? ?b)%N] => destruct (N.eqb_spec a b)
         end; simpl; try done; lia.
Qed.

Lemma remove_char_app a x y :
  remove_char a (x +:+ y) = remove_char a x +:+ remove_char a y.
Proof.
  induction x as [|c x IH]; [done|].
  change (String c x +:+ y) with (String c (x +:+ y)). cbn [remove_char].
  case_bool_decide; [done|].
  change (String c (remove_char a x) +:+ remove_char a y)
    with (String c (remove_char a x +:+ remove_char a y)).
  by rewrite IH.
Qed.

Lemma remove_char_absent a s :
  contains (String a "") s = false → remove_char a s = s.
Proof.
  induction s as [|c s IH]; [done|]. rewrite contains_char_cons.
  intros [Hc Hs]%orb_false_iff. apply bool_decide_eq_false in Hc.
  cbn [remove_char]. rewrite bool_decide_eq_false_2 by congruence.
  by rewrite IH.
Qed.

Lemma strip_no_space s : has_space s = false → strip s = s.
Proof.
  intros H. unfold strip. destruct (decide (s = "")) as [->|Hs]; [done|].
  by rewrite lstrip_no_space, rstrip_no_space.
Qed.

Lemma rmapM_fmap_Ok {A B C} (f : B → result C) (h : A → B) (g : A → C) l :
  (∀ a, a ∈ l → f (h a) = Ok (g a)) → rmapM f (h <$> l) = Ok (g <$> l).
Proof.
  induction l as [|a l IH]; intros H; [done|].
  rewrite !fmap_cons. cbn [rmapM]. rewrite (H a) by left. simpl.
  rewrite IH; [done|]. intros a' Ha'. apply H. by right.
Qed.

Lemma rmapM_total {A B} (f : A → result B) l :
  (∀ a, ∃ b, f a = Ok b) → ∃ bs, rmapM f l = Ok bs.
Proof.
  intros H. induction l as [|a l [bs IH]]; [by exists []|].
  destruct (H a) as [b Hb]. exists (b :: bs). simpl. by rewrite Hb, IH.
Qed.

Lemma omap_Some_fmap {A B} (g : A → B) (l : list A) :
  omap (λ e : option B, e) ((λ a, Some (g a)) <$> l) = g <$> l.
Proof.
  induction l as [|a l IH]; [done|].
  rewrite !fmap_cons. cbn [omap list_omap]. by rewrite IH.
Qed.

(** The entry that [detail] writes reads back as its replicon and its
    count. *)
Lemma pie_part_detail (it : string * N) :
  strip it.1 = it.1 → contains "(" it.1 = false →
  pie_part (detail it)
  = Ok (Some (it.1, pretty it.2, get_replicon_color it.1)).
Proof.
  intros Hs Hb. unfold pie_part, detail.
  pose proof (pretty_N_digits it.2) as Hd.
  assert (Hopen : contains "(" (pretty it.2 +:+ ")") = false).
  { rewrite contains_char_app, (all_chars_no_char isdigit) by done. done. }
  assert (Hclose : contains ")" (pretty it.2) = false)
    by (by apply (all_chars_no_char isdigit)).
  rewrite !contains_char_app.
  change (contains ")" ")") with true. change (contains "(" "(") with true.
  rewrite !orb_true_r. cbn [orb andb].
  change ("(" +:+ pretty it.2 +:+ ")") with (String "(" (pretty it.2 +:+ ")")).
  unfold split at 1 2. rewrite split_go_char by done.
  rewrite (split_absent "(") by done.
  change ("" +:+ it.1) with it.1. cbn [item lookup]. simpl.
  rewrite Hs, remove_char_app, remove_char_absent by done.
  change (remove_char ")" ")") with "". rewrite app_empty_r.
  rewrite strip_no_space by (by apply digits_no_space). done.
Qed.

Lemma detail_no_comma (it : string * N) :
  contains "," it.1 = false → contains "," (detail it) = false.
Proof.
  intros H. unfold detail. rewrite !contains_char_app, H.
  by rewrite (all_chars_no_char isdigit ","%char _ eq_refl
                (pretty_N_digits it.2)).
Qed.

Lemma detail_open (it : string * N) : contains "(" (detail it) = true.
Proof.
  unfold detail. rewrite !contains_char_app.
  change (contains "(" "(") with true. by rewrite orb_true_r.
Qed.

Lemma join_head_contains c sep x l :
  contains (String c "") x = true →
  contains (String c "") (join sep (x :: l)) = true.
Proof.
  intros H. destruct l as [|y l]; [done|].
  rewrite join_cons_cons, contains_char_app, H. done.
Qed.

(** X18.  The pie chart reads the detail string back: for replicons that
    are trimmed and hold neither a comma nor an opening bracket, the chart
    of the joined entries lists the replicons, their colours and their
    counts in the order of the entries. *)
Theorem pie_chart_reads_detail (items : list (string * N)) :
  items ≠ [] →
  Forall (λ it, strip it.1 = it.1 ∧ contains "," it.1 = false
                ∧ contains "(" it.1 = false) items →
  generate_pie_chart_string (join "," (detail <$> items))
  = Ok (pie_str items.*1 (get_replicon_color <$> items.*1)
                (pretty <$> items.*2)).
Proof.
  intros Hne Hall. unfold generate_pie_chart_string.
  assert (Hopen : contains "(" (join "," (detail <$> items)) = true).
  { destruct items as [|it items]; [done|]. rewrite fmap_cons.
    apply join_head_contains, detail_open. }
  rewrite !bool_decide_eq_false_2
    by (intros E; rewrite E in Hopen; discriminate).
  cbn [orb]. rewrite (split_join ",").
  - rewrite (rmapM_fmap_Ok pie_part detail
               (λ it, Some (it.1, pretty it.2, get_replicon_color it.1))).
    + cbn [rbind].
      rewrite (omap_Some_fmap
                 (λ it, (it.1, pretty it.2, get_replicon_color it.1))).
      rewrite <- !list_fmap_compose.
      rewrite bool_decide_eq_false_2 by (by destruct items).
      done.
    + intros it Hit. rewrite Forall_forall in Hall.
      destruct (Hall it Hit) as (H1 & _ & H3). by apply pie_part_detail.
  - by destruct items.
  - apply Forall_fmap. eapply Forall_impl; [exact Hall|].
    intros it (_ & H2 & _). by apply detail_no_comma.
Qed.

Lemma pie_chart_reads_detail_witness :
  generate_pie_chart_string "cp32-3(49),lp56(2)"
  = Ok (pie_str ["cp32-3"; "lp56"] ["#d3008c"; "#00c846"] ["49"; "2"]).
Proof.
  apply (pie_chart_reads_detail [("cp32-3", 49%N); ("lp56", 2%N)]);
    [done|]. by repeat constructor.
Defined.

Lemma pie_part_total part : ∃ e, pie_part part = Ok e.
Proof.
  unfold pie_part. destruct (contains "(" part) eqn:E; [|by eexists].
  destruct (contains ")" part); [|by eexists]. cbn [andb].
  destruct (split_go_contains "(" "" part E) as (a & b & tl & Hs).
  unfold split. rewrite Hs. by eexists.
Qed.

(** X19.  The pie chart never raises: the count of a part is read at
    index 1 only behind the test for an opening bracket, which leaves two
    pieces at least.  No detail and the detail "unknown" give the empty
    string. *)
Theorem generate_pie_chart_string_returns :
  (∀ replicon_detail, ∃ s, generate_pie_chart_string replicon_detail = Ok s)
  ∧ generate_pie_chart_string "" = Ok ""
  ∧ generate_pie_chart_string "unknown" = Ok "".
Proof.
  split; [|done]. intros d. unfold generate_pie_chart_string.
  destruct (_ || _); [by eexists|].
  destruct (rmapM_total pie_part (split "," d) pie_part_total) as [bs ->].
  simpl. case_bool_decide; by eexists.
Qed.

End PieFacts.

(** ** compare_calls.py: base calls and families *)

Section BaseCallFacts.
Import PyStr CompareCalls.

Lemma normalize_call_strip x : strip (normalize_call x) = normalize_call x.
Proof.
  destruct (normalize_call_cases x) as [->| ->]; [done|].
  by rewrite strip_lower, strip_idem.
Qed.

(** X20.  The base calls of a call are trimmed and not empty, and a call
    without the separator ":::" is kept as one unit, a fusion written with
    a plus sign included: its only base call is the normalized call. *)
Theorem extract_base_plasmid_calls_unit call :
  (∀ p, p ∈ extract_base_plasmid_calls call → p ≠ "" ∧ strip p = p)
  ∧ (is_empty call = false →
     contains ":::" (normalize_call call) = false →
     extract_base_plasmid_calls call = {[ normalize_call call ]}).
Proof.
  unfold extract_base_plasmid_calls. split.
  - intros p. destruct (is_empty call); [by intros ?%elem_of_empty|].
    rewrite elem_of_list_to_set, list_elem_of_filter, list_elem_of_fmap.
    intros [Hp (q & -> & _)]. split; [done|apply strip_idem].
  - intros He Hsep. rewrite He, split_absent by done.
    rewrite fmap_cons, normalize_call_strip.
    rewrite filter_cons_True.
    + simpl. apply (right_id_L ∅ (∪)).
    + unfold is_empty in He. by apply bool_decide_eq_false in He.
Qed.

Lemma extract_base_plasmid_calls_unit_witness :
  extract_base_plasmid_calls "lp28-4+lp28-3" = {[ "lp28-4+lp28-3" ]}.
Proof.
  destruct (extract_base_plasmid_calls_unit "lp28-4+lp28-3") as [_ H].
  apply H; done.
Defined.

Lemma strip_suffix_app_star c :
  strip c = c → strip_suffix (c +:+ "*") = strip_suffix c.
Proof.
  intros Hc. unfold strip_suffix.
  destruct (decide (c = "")) as [->|Hne]; [done|].
  rewrite strip_app_char, Hc by done.
  by rewrite rstrip_with_app_drop.
Qed.

(** X21.  A star added to a trimmed call is an annotation only: the call
    with its stars stripped and the replicon family stay what they
    were. *)
Theorem star_keeps_family c :
  strip c = c →
  strip_suffix (c +:+ "*") = strip_suffix c
  ∧ get_replicon_family (c +:+ "*") = get_replicon_family c.
Proof.
  intros Hc. split; [by apply strip_suffix_app_star|].
  unfold get_replicon_family. by rewrite strip_suffix_app_star.
Qed.

Lemma star_keeps_family_witness :
  strip_suffix "lp28-1*" = "lp28-1"
  ∧ get_replicon_family "lp28-1*" = Some "lp28".
Proof.
  destruct (star_keeps_family "lp28-1") as [H1 H2]; [done|].
  split; [exact H1|exact H2].
Defined.

End BaseCallFacts.

(** ** compare_calls.py: the tables of calls and overrides *)

Section TableFacts.
Import PyStr CompareCalls CallTables.

Lemma rfoldl_invariant {A S} (f : S → A → result S) (P : S → Prop) l s0 s :
  (∀ s a s', P s → f s a = Ok s' → P s') →
  P s0 → rfoldl f s0 l = Ok s → P s.
Proof.
  intros Hstep. revert s0. induction l as [|a l IH]; intros s0 H0; simpl.
  - by intros [= <-].
  - destruct (f s0 a) as [s1|] eqn:E; simpl; [|done].
    apply IH. by eapply Hstep.
Qed.

Lemma rfoldl_snoc {A S} (f : S → A → result S) l a s0 s :
  rfoldl f s0 (l ++ [a]) = Ok s →
  ∃ s1, rfoldl f s0 l = Ok s1 ∧ f s1 a = Ok s.
Proof.
  revert s0. induction l as [|b l IH]; intros s0; simpl.
  - destruct (f s0 a) as [s1|] eqn:E; simpl; [|done].
    intros [= <-]. by exists s0.
  - destruct (f s0 b) as [s1|] eqn:E; simpl; [|done]. apply IH.
Qed.

Lemma rmapM_ext {A B} (f g : A → result B) l :
  (∀ a, a ∈ l → f a = g a) → rmapM f l = rmapM g l.
Proof.
  induction l as [|a l IH]; intros H; [done|]. simpl.
  rewrite (H a) by left. rewrite IH; [done|].
  intros a' Ha'. apply H. by right.
Qed.

Lemma result_Ok_inv {A} (m : result A) :
  match m with Ok _ => true | Raise _ => false end = true → ∃ a, m = Ok a.
Proof. destruct m as [a|]; [by exists a|done]. Qed.

Lemma strip_cell_Ok v s : strip_cell v = Ok s → strip s = s.
Proof. destruct v; [|done]. intros [= <-]. apply strip_idem. Qed.

(** What one row does to the two tables. *)
Lemma read_tsv_row_Ok has_assembly has_len records lengths r records' lengths' :
  read_tsv_row has_assembly has_len (records, lengths) r
  = Ok (records', lengths') →
  ∃ contig n,
    r_contig r = Some contig
    ∧ let k := (if has_assembly then strip (default "" (r_assembly r))
                else "", strip contig) in
      records' = <[k := strip (default "" (r_call r))]> records
      ∧ lengths' = if has_len then <[k := n]> lengths else lengths.
Proof.
  unfold read_tsv_row.
  destruct (r_contig r) as [contig|]; [|done]. simpl.
  assert (Ecall : match r_call r with
                  | Some v => if bool_decide (v = "") then "" else strip v
                  | None => ""
                  end = strip (default "" (r_call r))).
  { destruct (r_call r) as [v|]; [|done]. simpl.
    case_bool_decide; [by subst|done]. }
  rewrite Ecall. clear Ecall.
  destruct has_assembly.
  - destruct (r_assembly r) as [a|]; [|done]. simpl.
    destruct has_len.
    + destruct (r_len r) as [x|]; simpl.
      * destruct (PyFloat.to_int x) as [n|]; [|done]. simpl.
        intros [= <- <-]. by exists contig, (default 0 n).
      * intros [= <- <-]. by exists contig, 0.
    + intros [= <- <-]. by exists contig, 0.
  - simpl. destruct has_len.
    + destruct (r_len r) as [x|]; simpl.
      * destruct (PyFloat.to_int x) as [n|]; [|done]. simpl.
        intros [= <- <-]. by exists contig, (default 0 n).
      * intros [= <- <-]. by exists contig, 0.
    + intros [= <- <-]. by exists contig, 0.
Qed.

Lemma read_tsv_table_ok has_assembly has_len rows t :
  read_tsv has_assembly has_len rows = Ok t →
  (∀ k c, t.1 !! k = Some c →
     strip k.1 = k.1 ∧ strip k.2 = k.2 ∧ strip c = c
     ∧ (has_assembly = false → k.1 = ""))
  ∧ (if has_len then dom t.2 = dom t.1 else t.2 = ∅).
Proof.
  unfold read_tsv.
  apply (rfoldl_invariant _
           (λ t, (∀ k c, t.1 !! k = Some c →
                    strip k.1 = k.1 ∧ strip k.2 = k.2 ∧ strip c = c
                    ∧ (has_assembly = false → k.1 = ""))
                 ∧ (if has_len then dom t.2 = dom t.1 else t.2 = ∅))).
  - intros [records lengths] r [records' lengths'] [Hk Hl] Hr.
    apply read_tsv_row_Ok in Hr as (contig & n & _ & -> & ->).
    split; cbn [fst snd] in *.
    + intros k c [[<- <-]|[_ Hin]]%lookup_insert_Some; [|by apply Hk].
      cbn [fst snd]. rewrite !strip_idem.
      destruct has_assembly; [by rewrite strip_idem|done].
    + destruct has_len; [|done]. by rewrite !dom_insert_L, Hl.
  - cbn [fst snd]. split; [intros k c; by rewrite lookup_empty|].
    destruct has_len; [by rewrite !dom_empty_L|done].
Qed.

(** X22.  The tables that [read_tsv] returns hold trimmed assembly ids,
    contig ids and calls, with the empty assembly id everywhere when the
    file has no assembly column, and a length for every key when lengths
    are read.  A row replaces what earlier rows stored under its key: after
    the last row, its key holds its call. *)
Theorem read_tsv_tables has_assembly has_len :
  (∀ rows records lengths,
     read_tsv has_assembly has_len rows = Ok (records, lengths) →
     (∀ k c, records !! k = Some c →
        strip k.1 = k.1 ∧ strip k.2 = k.2 ∧ strip c = c
        ∧ (has_assembly = false → k.1 = ""))
     ∧ (if has_len then dom lengths = dom records else lengths = ∅))
  ∧ (∀ rows r records lengths,
       read_tsv has_assembly has_len (rows ++ [r]) = Ok (records, lengths) →
       ∃ contig,
         r_contig r = Some contig
         ∧ records !! (if has_assembly then strip (default "" (r_assembly r))
                       else "", strip contig)
           = Some (strip (default "" (r_call r)))).
Proof.
  split.
  - intros rows records lengths H.
    apply (read_tsv_table_ok has_assembly has_len rows (records, lengths) H).
  - intros rows r records lengths H. unfold read_tsv in H.
    apply rfoldl_snoc in H as ([records0 lengths0] & _ & Hr).
    apply read_tsv_row_Ok in Hr as (contig & n & Hc & -> & _).
    exists contig. split; [done|]. apply lookup_insert_eq.
Qed.

Lemma read_tsv_tables_witness :
  ∃ records lengths,
    read_tsv false true
      ([mk_call_row (Some "c1 ") (Some "lp54") None (Some 10%float)]
       ++ [mk_call_row (Some "c1") (Some " cp26 ") None None])
    = Ok (records, lengths)
    ∧ records !! ("", "c1") = Some "cp26".
Proof.
  destruct (result_Ok_inv
              (read_tsv false true
                 ([mk_call_row (Some "c1 ") (Some "lp54") None
                               (Some 10%float)]
                  ++ [mk_call_row (Some "c1") (Some " cp26 ") None None])))
    as [[records lengths] E]; [by vm_compute|].
  exists records, lengths. split; [exact E|].
  destruct (read_tsv_tables false true) as [_ H].
  destruct (H _ _ _ _ E) as (contig & Hc & Hr).
  injection Hc as <-. exact Hr.
Defined.

Lemma load_overrides_row_Ok overrides r overrides' :
  load_overrides_row overrides r = Ok overrides' →
  overrides' = overrides
  ∨ ∃ k v, overrides' = <[k := v]> overrides
         ∧ k.1 ≠ "" ∧ k.2 ≠ "" ∧ strip k.1 = k.1 ∧ strip k.2 = k.2
         ∧ strip v = v.
Proof.
  unfold load_overrides_row.
  destruct (strip_cell (o_assembly r)) as [a|] eqn:Ea; [|done].
  destruct (strip_cell (o_contig r)) as [c|] eqn:Ec; [|done].
  destruct (strip_cell (o_call r)) as [v|] eqn:Ev; [|done]. simpl.
  apply strip_cell_Ok in Ea, Ec, Ev.
  case_bool_decide as Ha; simpl; [intros [= <-]; by left|].
  case_bool_decide as Hc; simpl; [intros [= <-]; by left|].
  intros [= <-]. right. by exists (a, c), v.
Qed.

Lemma load_overrides_keys rows overrides :
  load_overrides rows = Ok overrides →
  ∀ k v, overrides !! k = Some v →
         k.1 ≠ "" ∧ k.2 ≠ "" ∧ strip k.1 = k.1 ∧ strip k.2 = k.2
         ∧ strip v = v.
Proof.
  unfold load_overrides.
  apply (rfoldl_invariant _
           (λ ov : gmap key string,
              ∀ k v, ov !! k = Some v →
                     k.1 ≠ "" ∧ k.2 ≠ "" ∧ strip k.1 = k.1
                     ∧ strip k.2 = k.2 ∧ strip v = v)).
  - intros ov r ov' Hov Hr.
    apply load_overrides_row_Ok in Hr
      as [->|(k & v & -> & H)]; [done|].
    intros k' v' [[<- <-]|[_ Hin]]%lookup_insert_Some; [done|by apply Hov].
  - intros k v. by rewrite lookup_empty.
Qed.

(** X23.  An override is stored only under a key with an assembly id and a
    contig id, both trimmed and not empty.  The tables of calls read from
    files without an assembly column have the empty assembly id in every
    key: no override applies to them, and the run is the run without
    overrides. *)
Theorem overrides_need_assembly_column
    (auto_chromosome_bp : Z) has_len old_rows new_rows override_rows
    old_calls no_lengths new_calls contig_lengths overrides :
  read_tsv false false old_rows = Ok (old_calls, no_lengths) →
  read_tsv false has_len new_rows = Ok (new_calls, contig_lengths) →
  load_overrides override_rows = Ok overrides →
  (∀ k v, overrides !! k = Some v →
     k.1 ≠ "" ∧ k.2 ≠ "" ∧ strip k.1 = k.1 ∧ strip k.2 = k.2)
  ∧ main_rows auto_chromosome_bp old_calls new_calls contig_lengths overrides
    = main_rows auto_chromosome_bp old_calls new_calls contig_lengths ∅.
Proof.
  intros Hold Hnew Hov.
  pose proof (load_overrides_keys _ _ Hov) as Hkeys.
  split; [intros k v Hk; destruct (Hkeys k v Hk) as (?&?&?&?&_); done|].
  apply read_tsv_table_ok in Hold as [Hold _], Hnew as [Hnew _].
  cbn [fst] in Hold, Hnew.
  unfold main_rows. apply rmapM_ext. intros k Hk.
  assert (Hnone : overrides !! k = None).
  { destruct (overrides !! k) as [v|] eqn:E; [|done]. exfalso.
    destruct (Hkeys k v E) as (Hne & _).
    unfold all_keys in Hk. rewrite merge_sort_Permutation in Hk.
    apply elem_of_elements, elem_of_union in Hk
      as [[c Hc]%elem_of_dom|[c Hc]%elem_of_dom].
    - destruct (Hold k c Hc) as (_ & _ & _ & H0). by apply Hne, H0.
    - destruct (Hnew k c Hc) as (_ & _ & _ & H0). by apply Hne, H0. }
  unfold process_key.
  destruct (first_pass old_calls new_calls k) as [cr|]; [|done]. simpl.
  unfold apply_override.
  destruct (auto_chromosome auto_chromosome_bp old_calls new_calls
              contig_lengths k cr) as [cat resolved].
  by rewrite Hnone, lookup_empty.
Qed.

Lemma overrides_need_assembly_column_witness :
  ∃ old_calls no_lengths new_calls contig_lengths overrides,
    read_tsv false false [mk_call_row (Some "c1") (Some "lp54") None None]
    = Ok (old_calls, no_lengths)
    ∧ read_tsv false true
        [mk_call_row (Some "c1") (Some "lp54*") None (Some 10%float)]
      = Ok (new_calls, contig_lengths)
    ∧ load_overrides [mk_override_row (Some "A") (Some "c1") (Some "cp26")]
      = Ok overrides
    ∧ main_rows 0 old_calls new_calls contig_lengths overrides
      = main_rows 0 old_calls new_calls contig_lengths ∅.
Proof.
  destruct (result_Ok_inv
              (read_tsv false false
                 [mk_call_row (Some "c1") (Some "lp54") None None]))
    as [[old_calls no_lengths] E1]; [by vm_compute|].
  destruct (result_Ok_inv
              (read_tsv false true
                 [mk_call_row (Some "c1") (Some "lp54*") None
                              (Some 10%float)]))
    as [[new_calls contig_lengths] E2]; [by vm_compute|].
  destruct (result_Ok_inv
              (load_overrides
                 [mk_override_row (Some "A") (Some "c1") (Some "cp26")]))
    as [overrides E3]; [by vm_compute|].
  exists old_calls, no_lengths, new_calls, contig_lengths, overrides.
  repeat split; [exact E1|exact E2|exact E3|].
  by destruct (overrides_need_assembly_column 0 true _ _ _ _ _ _ _ _
                 E1 E2 E3) as [_ H].
Defined.

End TableFacts.

(** ** add_replicon_to_gml.py: the top family of a node *)

Section TopFamilyFacts.
Import PyStr PyList AddReplicon.

Local Set Warnings "-inexact-float".

Lemma count_fmap_le (f : string → string) x l :
  (count x l ≤ count (f x) (f <$> l))%N.
Proof.
  unfold count. apply N2Z.inj_le. rewrite !nat_N_Z. apply Nat2Z.inj_le.
  induction l as [|y l IH]; [done|].
  rewrite fmap_cons, !filter_cons.
  destruct (decide (y = x)) as [->|Hy].
  - rewrite decide_True by done. simpl. lia.
  - destruct (decide (f y = f x)); simpl; lia.
Qed.

Lemma first_seen_single x l :
  length (first_seen (x :: l)) = 1%nat ↔ ∀ y, y ∈ l → y = x.
Proof.
  simpl. split.
  - intros H y Hy. destruct (decide (y = x)) as [|Hne]; [done|]. exfalso.
    assert (Hin : y ∈ filter (λ z, z ≠ x) (first_seen l)).
    { apply list_elem_of_filter. split; [done|]. by apply first_seen_elem. }
    destruct (filter (λ z, z ≠ x) (first_seen l)); [|simpl in H; lia].
    by apply elem_of_nil in Hin.
  - intros H. f_equal.
    destruct (filter (λ z, z ≠ x) (first_seen l)) as [|y k] eqn:E; [done|].
    exfalso. assert (Hin : y ∈ filter (λ z, z ≠ x) (first_seen l))
      by (rewrite E; left).
    apply list_elem_of_filter in Hin as [Hne Hin].
    apply Hne, H. by apply first_seen_elem.
Qed.

(** X24.  For a node with replicons, the families are listed where each is
    first met; the top family is the first of them with the greatest
    number of replicons, no family and no single replicon has more
    occurrences, and the family consensus is the binary64 quotient of that
    number by the number of replicons, rounded to three decimals.  The node
    is single-family exactly when every replicon has the top family, and
    its cross-family score is then 0.0.  None of this depends on what
    [math.log2] and the [sum] of floats return. *)
Theorem family_diversity_top (log2 : float → float)
    (float_sum : list float → float) l :
  l ≠ [] →
  let fams := classify_replicon_family <$> l in
  ∃ d pre post,
    analyze_family_diversity log2 float_sum l = Ok d
    ∧ families d = first_seen fams
    ∧ first_seen fams = pre ++ top_family d :: post
    ∧ (∀ f, f ∈ pre → (count f fams < top_family_count d)%N)
    ∧ top_family_count d = count (top_family d) fams
    ∧ (∀ f, f ∈ fams → (count f fams ≤ top_family_count d)%N)
    ∧ (∀ r, r ∈ l → (count r l ≤ top_family_count d)%N)
    ∧ family_consensus_frac d
      = PyFloat.round3
          (PyFloat.truediv (top_family_count d) (N.of_nat (length l)))
    ∧ (is_single_family d = true
       ↔ ∀ r, r ∈ l → classify_replicon_family r = top_family d)
    ∧ (is_single_family d = true → cross_family_score d = 0%float).
Proof.
  intros Hl fams.
  assert (Hf : fams ≠ []) by (destruct l; done).
  destruct (most_common_1_Counter fams Hf)
    as (top & pre & post & Hmc & Hseen & Hlt & Hle).
  destruct l as [|x l']; [done|].
  unfold analyze_family_diversity. fold fams. rewrite Hmc.
  cbn [item0 rbind].
  eexists _, pre, post. split; [done|].
  cbn [families top_family top_family_count family_consensus_frac
       is_single_family cross_family_score].
  split; [apply Counter_keys|]. split; [done|]. split; [done|].
  split; [done|]. split; [done|]. split; [|split; [|split]].
  - intros r Hr. etransitivity; [apply (count_fmap_le classify_replicon_family)|].
    apply Hle. apply list_elem_of_fmap. by exists r.
  - rewrite bool_decide_eq_true_2
      by (unfold fams; rewrite fmap_cons; simpl; lia).
    do 3 f_equal. unfold fams. by rewrite length_fmap.
  - rewrite bool_decide_eq_true, Counter_length.
    change 1%N with (N.of_nat 1). rewrite Nat2N.inj_iff.
    unfold fams at 1. rewrite fmap_cons, first_seen_single.
    assert (Htop : top ∈ fams).
    { apply first_seen_elem. rewrite Hseen. apply elem_of_app. right. left. }
    split.
    + intros H r Hr.
      assert (Hx : top = classify_replicon_family x).
      { unfold fams in Htop. rewrite fmap_cons in Htop.
        apply elem_of_cons in Htop as [->|Htop]; [done|]. by apply H. }
      rewrite Hx. apply elem_of_cons in Hr as [->|Hr]; [done|].
      apply H. apply list_elem_of_fmap. by exists r.
    + intros H y (r & -> & Hr)%list_elem_of_fmap.
      rewrite (H r) by (by right). symmetry. apply H. left.
  - intros H%bool_decide_eq_true. rewrite H.
    by rewrite bool_decide_eq_true_2 by lia.
Qed.

Lemma family_diversity_top_witness :
  ∃ d, analyze_family_diversity PrimFloat.sqrt (foldl PrimFloat.add 0%float)
         (replicate 43 "lp54" ++ replicate 37 "cp26-1") = Ok d
     ∧ top_family d = "lp54" ∧ top_family_count d = 43%N
     ∧ family_consensus_frac d = 0.537%float.
Proof.
  destruct (family_diversity_top PrimFloat.sqrt (foldl PrimFloat.add 0%float)
              (replicate 43 "lp54" ++ replicate 37 "cp26-1"))
    as (d & pre & post & Hd & _ & _ & _ & Hc & _ & _ & Hfrac & _); [done|].
  exists d. split; [exact Hd|].
  assert (E : top_family d = "lp54").
  { unfold analyze_family_diversity in Hd.
    vm_compute Counter in Hd. cbn [most_common_1 first_max item0 rbind] in Hd.
    simpl in Hd. by injection Hd as <-. }
  rewrite E in Hc. split; [exact E|].
  assert (Ec : top_family_count d = 43%N) by (rewrite Hc; by vm_compute).
  split; [exact Ec|]. rewrite Hfrac, Ec. by vm_compute.
Defined.

(** Four calls of four families: when [math.log2] is exact at 1/4 and at 4
    and the four equal terms add up exactly, the entropy is 2 and the
    cross-family score 1.0. *)
Lemma cross_family_score_four_families (log2 : float → float)
    (float_sum : list float → float) :
  log2 0.25%float = (-2)%float →
  log2 4%float = 2%float →
  float_sum [(-0.5)%float; (-0.5)%float; (-0.5)%float; (-0.5)%float]
  = (-2)%float →
  ∃ d, analyze_family_diversity log2 float_sum Samples.four_families = Ok d
     ∧ n_families d = 4%N
     ∧ is_single_family d = false
     ∧ cross_family_score d = 1%float.
Proof.
  intros H1 H2 H3. eexists. split; [reflexivity|].
  split; [by vm_compute|]. split; [by vm_compute|].
  cbn [cross_family_score]. unfold entropy.
  vm_compute (Counter _). vm_compute (N.of_nat _).
  vm_compute (bool_decide (4 ≤ 1)%N). vm_compute (bool_decide (1 < 4)%N).
  cbv iota.
  vm_compute (filter _ _). vm_compute (PyFloat.of_N 4).
  cbn [fmap list_fmap]. vm_compute (PyFloat.truediv 1 4).
  rewrite H1, H2.
  vm_compute (PrimFloat.mul _ _). rewrite H3. by vm_compute.
Qed.

End TopFamilyFacts.

(** ** generate_chromosome_lists.py: the loop over the assemblies *)

Section AssemblyFacts.
Import PyStr PyList ChromosomeLists.

Lemma group_insert_perm {A} (m : gmap string (list A)) c x :
  map_to_list (<[c := default [] (m !! c) ++ [x]]> m) ≫= snd
  ≡ₚ (map_to_list m ≫= snd) ++ [x].
Proof.
  destruct (m !! c) as [lst|] eqn:E; simpl.
  - rewrite <- insert_delete_eq.
    rewrite map_to_list_insert by apply lookup_delete_eq.
    rewrite <- (map_to_list_delete m c lst E).
    rewrite !bind_cons. simpl. rewrite <- !app_assoc.
    apply Permutation_app_head. apply Permutation_app_comm.
  - rewrite map_to_list_insert by done. rewrite bind_cons. simpl.
    apply Permutation_cons_append.
Qed.

Lemma keys_map_to_list {A} (m : gmap string A) :
  elements (dom m) ≡ₚ (map_to_list m).*1.
Proof.
  apply NoDup_Permutation;
    [apply NoDup_elements|apply NoDup_fst_map_to_list|].
  intros k. rewrite elem_of_elements, elem_of_dom, list_elem_of_fmap.
  split.
  - intros [a Ha]. exists (k, a). split; [done|].
    by apply elem_of_map_to_list.
  - intros ([k' a] & -> & Ha%elem_of_map_to_list). by exists a.
Qed.

Lemma bind_keys_map_to_list {A} (m : gmap string (list A)) :
  (map_to_list m).*1 ≫= (λ k, default [] (m !! k)) = map_to_list m ≫= snd.
Proof.
  assert (H : ∀ kv, kv ∈ map_to_list m → m !! kv.1 = Some kv.2).
  { intros [k v]. apply elem_of_map_to_list. }
  induction (map_to_list m) as [|kv l IH]; [done|].
  rewrite fmap_cons, !bind_cons, (H kv) by left. simpl.
  rewrite IH; [done|]. intros kv' Hkv'. apply H. by right.
Qed.

(** The loop that groups the rows by assembly, from any state of the
    table: it returns when every assembly id cell is a string, and the
    rows of the assemblies, taken together, are then the rows that have an
    assembly id. *)
Lemma by_assembly_foldl rows (m0 m : gmap string (list row)) :
  rfoldl assembly_step m0 rows = Ok m →
  (∀ r, r ∈ rows → is_Some (assembly_id r))
  ∧ map_to_list m ≫= snd
    ≡ₚ (map_to_list m0 ≫= snd) ++ filter (λ r, aid_of r ≠ "") rows
  ∧ (∀ aid, aid ∈ dom m
            ↔ aid ∈ dom m0
              ∨ aid ≠ "" ∧ ∃ r, r ∈ rows ∧ aid_of r = aid).
Proof.
  revert m0. induction rows as [|r rows IH]; intros m0.
  - intros [= <-]. split; [by intros r ?%elem_of_nil|].
    split; [by rewrite app_nil_r|]. intros aid. split; [by left|].
    intros [H|(_ & r & Hr & _)]; [done|]. by apply elem_of_nil in Hr.
  - cbn [rfoldl]. unfold assembly_step at 1.
    destruct (assembly_id r) as [a|] eqn:Ea; cbn [strip_cell rbind]; [|done].
    assert (Eaid : aid_of r = strip a) by (unfold aid_of; by rewrite Ea).
    case_bool_decide as Ha; cbn [rbind]; intros Hm;
      destruct (IH _ Hm) as (Hsome & Hperm & Hdom).
    + split; [|split].
      * intros r' [->|Hr']%elem_of_cons; [by rewrite Ea|by apply Hsome].
      * rewrite Hperm. by rewrite filter_cons_False by (rewrite Eaid; tauto).
      * intros aid. rewrite Hdom. split.
        -- intros [H|(Hne & r' & Hr' & E)]; [by left|].
           right. split; [done|]. exists r'. split; [by right|done].
        -- intros [H|(Hne & r' & Hr' & E)]; [by left|].
           apply elem_of_cons in Hr' as [->|Hr']; [congruence|].
           right. split; [done|]. by exists r'.
    + split; [|split].
      * intros r' [->|Hr']%elem_of_cons; [by rewrite Ea|by apply Hsome].
      * rewrite Hperm, group_insert_perm.
        rewrite filter_cons_True by (by rewrite Eaid).
        by rewrite <- app_assoc.
      * intros aid. rewrite Hdom.
        rewrite dom_insert_L, elem_of_union, elem_of_singleton. split.
        -- intros [[->|H]|(Hne & r' & Hr' & E)].
           ++ right. split; [done|]. exists r. split; [left|done].
           ++ by left.
           ++ right. split; [done|]. exists r'. split; [by right|done].
        -- intros [H|(Hne & r' & Hr' & E)]; [left; by right|].
           apply elem_of_cons in Hr' as [->|Hr'];
             [left; left; congruence|].
           right. split; [done|]. by exists r'.
Qed.

Lemma by_assembly_returns rows (m0 : gmap string (list row)) :
  (∀ r, r ∈ rows → is_Some (assembly_id r)) →
  ∃ m, rfoldl assembly_step m0 rows = Ok m.
Proof.
  revert m0. induction rows as [|r rows IH]; intros m0 H; [by eexists|].
  cbn [rfoldl]. unfold assembly_step at 1.
  destruct (H r) as [a ->]; [left|]. cbn [strip_cell rbind].
  case_bool_decide; cbn [rbind]; apply IH; intros r' Hr'; apply H; by right.
Qed.

Lemma by_assembly_Raise rows (m0 : gmap string (list row)) e :
  rfoldl assembly_step m0 rows = Raise e → e = AttributeError "strip".
Proof.
  revert m0. induction rows as [|r rows IH]; intros m0; [done|].
  cbn [rfoldl]. unfold assembly_step at 1.
  destruct (assembly_id r) as [a|]; cbn [strip_cell rbind];
    [|by intros [= <-]].
  case_bool_decide; cbn [rbind]; apply IH.
Qed.

Lemma assemblies_rows rows assemblies :
  by_assembly rows = Ok assemblies →
  merge_sort String.le (elements (dom assemblies))
    ≫= (λ aid, default [] (assemblies !! aid))
  ≡ₚ filter (λ r, aid_of r ≠ "") rows.
Proof.
  intros (_ & Hperm & _)%by_assembly_foldl.
  rewrite merge_sort_Permutation, keys_map_to_list, bind_keys_map_to_list.
  by rewrite Hperm, map_to_list_empty.
Qed.

(** The rows of one assembly are rows of the table that have an assembly
    id. *)
Lemma assembly_rows_elem rows assemblies aid r :
  by_assembly rows = Ok assemblies →
  r ∈ default [] (assemblies !! aid) → r ∈ rows ∧ aid_of r ≠ "".
Proof.
  intros (_ & Hperm & _)%by_assembly_foldl Hr.
  rewrite map_to_list_empty in Hperm. simpl in Hperm.
  destruct (assemblies !! aid) as [lst|] eqn:E;
    [|by apply elem_of_nil in Hr].
  simpl in Hr.
  assert (Hin : r ∈ map_to_list assemblies ≫= snd).
  { apply list_elem_of_bind. exists (aid, lst). split; [done|].
    by apply elem_of_map_to_list. }
  rewrite Hperm in Hin. apply list_elem_of_filter in Hin. tauto.
Qed.

(** A row with an assembly id is among the rows of an assembly. *)
Lemma assembly_rows_cover rows assemblies r :
  by_assembly rows = Ok assemblies →
  r ∈ rows → aid_of r ≠ "" →
  ∃ aid, aid ∈ merge_sort String.le (elements (dom assemblies))
       ∧ r ∈ default [] (assemblies !! aid).
Proof.
  intros Hm Hr Ha.
  assert (Hin : r ∈ merge_sort String.le (elements (dom assemblies))
                    ≫= (λ aid, default [] (assemblies !! aid))).
  { rewrite (assemblies_rows rows assemblies Hm).
    by apply list_elem_of_filter. }
  apply list_elem_of_bind in Hin as (aid & H1 & H2). by exists aid.
Qed.

(** The three totals over what the assemblies leave. *)
Lemma totals_sum (per : list (string * lists)) a b c :
  (foldl (λ n p, n + placed p.2) a per
   + foldl (λ n p, n + unlocalised p.2) b per
   + foldl (λ n p, n + unplaced p.2) c per)%N
  = foldl (λ n p, n + (placed p.2 + unlocalised p.2 + unplaced p.2))%N
          (a + b + c)%N per.
Proof.
  revert a b c. induction per as [|p per IH]; intros a b c; [done|].
  cbn [foldl]. rewrite IH. f_equal. lia.
Qed.

Lemma foldl_counts {A} (g : string * lists → N) (G : string → list A)
    keys (per : list (string * lists)) n0 :
  Forall2 (λ k p, g p = N.of_nat (length (G k))) keys per →
  foldl (λ n p, n + g p)%N n0 per
  = (n0 + N.of_nat (length (keys ≫= G)))%N.
Proof.
  intros H. revert n0. induction H as [|k p keys per Hp _ IH]; intros n0.
  - simpl. lia.
  - cbn [foldl]. rewrite IH, Hp, bind_cons, length_app. lia.
Qed.

Lemma run_per_keys (mode : list row → result lists)
    (assemblies : gmap string (list row)) per :
  rmapM (λ assembly_id,
           res ←! mode (default [] (assemblies !! assembly_id));
           Ok (assembly_id, res))
        (merge_sort String.le (elements (dom assemblies))) = Ok per →
  Forall2 (λ k p, p.1 = k
                  ∧ mode (default [] (assemblies !! k)) = Ok p.2)
          (merge_sort String.le (elements (dom assemblies))) per.
Proof.
  intros H%rmapM_Forall2. eapply Forall2_impl; [exact H|].
  intros k p Hp. simpl in Hp.
  destruct (mode _) as [res|]; [|done]. simpl in Hp. by injection Hp as <-.
Qed.

Lemma classified_rows_counted contigs res :
  classified contigs = Ok res →
  (placed res + unlocalised res + unplaced res)%N
  = N.of_nat (length contigs).
Proof.
  intros Hres.
  pose proof (classified_Ok_well_formed contigs res Hres) as Hwf.
  destruct (classified_well_formed contigs Hwf)
    as (items & E & _ & _ & _ & Hrows & _).
  rewrite E in Hres. injection Hres as <-. simpl.
  pose proof (primaries_fragments_rows items) as Hp.
  rewrite Hrows in Hp. apply Permutation_length in Hp.
  rewrite length_app in Hp. rewrite !length_fmap.
  pose proof (filter_app_complement (λ r, is_classified r) contigs) as Hc.
  apply Permutation_length in Hc. rewrite length_app in Hc. lia.
Qed.

Lemma files_partition (per : list (string * lists)) :
  ((λ p : string * lists, (p.1, chrom_lines p.2))
     <$> filter (λ p : string * lists, chrom_lines p.2 ≠ []) per).*1
  ++ (filter (λ p : string * lists, chrom_lines p.2 = []) per).*1
  ≡ₚ per.*1.
Proof.
  assert (E1 : ∀ l : list (string * lists),
             ((λ p : string * lists, (p.1, chrom_lines p.2)) <$> l).*1
             = l.*1).
  { intros l. by rewrite <- list_fmap_compose. }
  assert (E2 : filter (λ p : string * lists, chrom_lines p.2 = []) per
               = filter (λ p : string * lists, ¬ chrom_lines p.2 ≠ []) per).
  { apply list_filter_iff. intros p. split.
    - intros E H. by apply H.
    - intros H. destruct (chrom_lines p.2); [done|]. by exfalso; apply H. }
  rewrite E1, E2, <- fmap_app. apply fmap_Permutation.
  apply filter_app_complement.
Qed.

(** X25.  A classified-mode run that finishes has counted every row with
    an assembly id once, as placed, as unlocalised or as unplaced; a row
    whose assembly id is blank is in no assembly and in no total.  When
    files are written, every assembly id of the table gets a chromosome
    list or is noted as without entries, never both.  Every assembly id
    cell was a string. *)
Theorem run_classified_totals dry_run rows s :
  run dry_run classified rows = Ok s →
  ∃ assemblies,
    by_assembly rows = Ok assemblies
    ∧ (∀ r, r ∈ rows → is_Some (assembly_id r))
    ∧ (total_placed s + total_unlocalised s + total_unplaced s)%N
      = N.of_nat (length (filter (λ r, aid_of r ≠ "") rows))
    ∧ (dry_run = false →
       (chrom_files s).*1 ++ assemblies_without_entries s
       ≡ₚ elements (dom assemblies))
    ∧ (∀ aid, aid ∈ dom assemblies
              ↔ aid ≠ "" ∧ ∃ r, r ∈ rows ∧ aid_of r = aid).
Proof.
  unfold run. intros Hrun.
  destruct (by_assembly rows) as [assemblies|] eqn:Hm; [|done].
  cbn [rbind] in Hrun.
  destruct (rmapM _ (merge_sort String.le _)) as [per|] eqn:Hper; [|done].
  simpl in Hrun. injection Hrun as <-.
  cbn [total_placed total_unlocalised total_unplaced chrom_files
       assemblies_without_entries].
  apply run_per_keys in Hper. exists assemblies. split; [done|].
  pose proof (by_assembly_foldl _ _ _ Hm) as (Hsome & _ & Hdom).
  split; [done|]. split; [|split].
  - rewrite totals_sum.
    rewrite (foldl_counts _ (λ aid, default [] (assemblies !! aid))
               (merge_sort String.le (elements (dom assemblies)))).
    + by rewrite (assemblies_rows rows assemblies Hm).
    + eapply Forall2_impl; [exact Hper|]. intros k p [_ Hp].
      by apply classified_rows_counted.
  - intros ->. rewrite files_partition.
    rewrite <- (merge_sort_Permutation String.le (elements _)).
    assert (E : per.*1
                = merge_sort String.le (elements (dom assemblies))).
    { induction Hper as [|k p keys per [Hk _] _ IH]; [done|].
      rewrite fmap_cons. by f_equal. }
    by rewrite E.
  - intros aid. rewrite Hdom, dom_empty_L. split; [|by right].
    by intros [?%elem_of_empty|?].
Qed.

Lemma run_classified_totals_witness :
  ∃ s, run false classified
         [Samples.len_row "A" "lp54" (Num 1000);
          mk_row (Some " ") (Some "B") (Some "lp54") (Num 400) Missing
                 Missing Missing Missing;
          Samples.len_row "C" "" (Num 900)] = Ok s
     ∧ (total_placed s + total_unlocalised s + total_unplaced s)%N = 2%N.
Proof.
  destruct (result_Ok_inv
              (run false classified
                 [Samples.len_row "A" "lp54" (Num 1000);
                  mk_row (Some " ") (Some "B") (Some "lp54") (Num 400)
                         Missing Missing Missing Missing;
                  Samples.len_row "C" "" (Num 900)])) as [s Hs];
    [by vm_compute|].
  exists s. split; [exact Hs|].
  by destruct (run_classified_totals _ _ _ Hs) as (? & _ & _ & -> & _).
Defined.

Lemma complete_Ok_counts t1 t2 t3 contigs res :
  complete t1 t2 t3 contigs = Ok res →
  (placed res + unlocalised res + unplaced res)%N
  = N.of_nat (length (filter (λ r, has_names r) contigs))
  ∧ unlocalised res = 0%N ∧ unloc_lines res = [].
Proof.
  intros Hres. pose proof (complete_go_Ok _ _ _ _ _ _ Hres) as Hnp.
  unfold complete in Hres. rewrite complete_go_spec in Hres by done.
  injection Hres as <-. simpl.
  pose proof (filter_split_length has_names
                (λ r, passes_completeness r t1 t2 t3) contigs).
  repeat split; lia.
Qed.

Lemma filter_bind {A B} (P : B → Prop) `{!∀ x, Decision (P x)}
    (G : A → list B) (l : list A) :
  filter P (l ≫= G) = l ≫= (λ a, filter P (G a)).
Proof.
  induction l as [|a l IH]; [done|].
  by rewrite !bind_cons, filter_app, IH.
Qed.

Lemma rmapM_Ok_or_Raise {A B} (f : A → result B) l :
  (∀ a, a ∈ l → ∃ b, f a = Ok b) → ∃ bs, rmapM f l = Ok bs.
Proof.
  induction l as [|a l IH]; intros H; [by exists []|].
  destruct (H a) as [b Hb]; [left|].
  destruct IH as [bs Hbs]; [intros a' Ha'; apply H; by right|].
  exists (b :: bs). simpl. by rewrite Hb, Hbs.
Qed.

(** X26.  A complete-mode run returns exactly when every assembly id cell
    is a string and, in the rows that have an assembly id, so are the
    contig id cell and the call cell; otherwise it raises the
    [AttributeError] of the [None] of a short row, and nothing else.  When
    it returns, it has counted every row that has an assembly id, a contig
    id and a call once, as placed or as unplaced; nothing is unlocalised
    and no unlocalised list is written. *)
Theorem run_complete_totals dry_run t1 t2 t3 rows :
  ((∃ s, run dry_run (complete t1 t2 t3) rows = Ok s)
   ↔ (∀ r, r ∈ rows → is_Some (assembly_id r))
     ∧ (∀ r, r ∈ rows → aid_of r ≠ "" →
             is_Some (contig_id r) ∧ is_Some (plasmid_name r)))
  ∧ (∀ e, run dry_run (complete t1 t2 t3) rows = Raise e →
          e = AttributeError "strip")
  ∧ (∀ s, run dry_run (complete t1 t2 t3) rows = Ok s →
       (total_placed s + total_unplaced s)%N
       = N.of_nat (length (filter (λ r, aid_of r ≠ "" ∧ has_names r) rows))
       ∧ total_unlocalised s = 0%N
       ∧ unloc_files s = []).
Proof.
  split; [split|split].
  - intros [s Hs]. unfold run in Hs.
    destruct (by_assembly rows) as [assemblies|] eqn:Hm; [|done].
    cbn [rbind] in Hs.
    destruct (rmapM _ (merge_sort String.le _)) as [per|] eqn:Hper; [|done].
    pose proof (by_assembly_foldl _ _ _ Hm) as (Hsome & _).
    split; [done|]. intros r Hr Ha.
    destruct (assembly_rows_cover rows assemblies r Hm Hr Ha)
      as (aid & Haid & Hin).
    destruct (rmapM_Ok_each _ _ _ _ Hper Haid) as [b Hb].
    simpl in Hb.
    destruct (complete t1 t2 t3 (default [] (assemblies !! aid)))
      as [res|] eqn:Hres; [|done].
    apply complete_go_Ok in Hres. by apply Hres.
  - intros [Hsome Hnames]. unfold run.
    destruct (by_assembly_returns rows ∅ Hsome) as [assemblies Hm].
    unfold by_assembly. rewrite Hm. cbn [rbind].
    destruct (rmapM_Ok_or_Raise
                (λ assembly_id,
                   res ←! complete t1 t2 t3
                            (default [] (assemblies !! assembly_id));
                   Ok (assembly_id, res))
                (merge_sort String.le (elements (dom assemblies))))
      as [per Hper].
    { intros aid _.
      assert (Hnp : names_present (default [] (assemblies !! aid))).
      { intros r Hr.
        destruct (assembly_rows_elem rows assemblies aid r Hm Hr).
        by apply Hnames. }
      unfold complete. rewrite complete_go_spec by done. by eexists. }
    rewrite Hper. by eexists.
  - intros e. unfold run.
    destruct (by_assembly rows) as [assemblies|e'] eqn:Hm; cbn [rbind].
    + destruct (rmapM _ (merge_sort String.le _)) as [per|e'] eqn:Hper;
        [done|].
      simpl. intros [= <-].
      apply rmapM_Raise_inv in Hper as (aid & _ & Haid). simpl in Haid.
      destruct (complete t1 t2 t3 (default [] (assemblies !! aid)))
        as [res|e''] eqn:Hres; [done|].
      simpl in Haid. injection Haid as <-.
      by apply complete_go_Raise in Hres as [-> _].
    + intros [= <-]. by apply by_assembly_Raise in Hm.
  - intros s Hs. unfold run in Hs.
    destruct (by_assembly rows) as [assemblies|] eqn:Hm; [|done].
    cbn [rbind] in Hs.
    destruct (rmapM _ (merge_sort String.le _)) as [per|] eqn:Hper; [|done].
    simpl in Hs. injection Hs as <-.
    cbn [total_placed total_unlocalised total_unplaced unloc_files].
    apply run_per_keys in Hper.
    assert (Hall : Forall (λ p : string * lists,
                             unlocalised p.2 = 0%N ∧ unloc_lines p.2 = [])
                          per).
    { clear -Hper. induction Hper as [|k p keys per [_ Hp] _ IH]; [done|].
      constructor; [|done].
      by destruct (complete_Ok_counts _ _ _ _ _ Hp) as (_ & ? & ?). }
    assert (Hzero : foldl (λ n p, n + unlocalised p.2)%N 0%N per = 0%N).
    { clear -Hall. induction Hall as [|p per [Hp _] _ IH]; [done|].
      cbn [foldl]. by rewrite Hp. }
    split; [|split; [done|]].
    + pose proof (totals_sum per 0 0 0) as Hsum. rewrite Hzero in Hsum.
      rewrite N.add_0_r in Hsum. rewrite Hsum.
      rewrite (foldl_counts _
                 (λ aid, filter (λ r, has_names r)
                                (default [] (assemblies !! aid)))
                 (merge_sort String.le (elements (dom assemblies)))).
      * rewrite <- filter_bind, (assemblies_rows rows assemblies Hm),
          list_filter_filter.
        change (0 + 0 + 0)%N with 0%N. rewrite N.add_0_l. do 2 f_equal.
        apply list_filter_iff. intros r. tauto.
      * eapply Forall2_impl; [exact Hper|]. intros k p [_ Hp].
        by destruct (complete_Ok_counts _ _ _ _ _ Hp) as (? & _).
    + destruct dry_run; [done|].
      assert (E : filter (λ p : string * lists, unloc_lines p.2 ≠ [])
                    (filter (λ p : string * lists, chrom_lines p.2 ≠ []) per)
                  = []).
      { rewrite list_filter_filter. clear -Hall.
        induction Hall as [|p per [_ Hp] _ IH]; [done|].
        rewrite filter_cons_False; [done|]. intros [H _]. by apply H. }
      by rewrite E.
Qed.

End AssemblyFacts.
